(** * Shared sensor buffer: a shallow embedding of [main.c] and [sbuffer.c]

    The development follows the two translation units of the repository:
    the linked-list queue of [sbuffer.c] ([sbuffer_init], [sbuffer_free],
    [sbuffer_insert], [sbuffer_remove]) and the program of [main.c]
    ([initialize_file], [log_sensor_data], [producer_thread],
    [consumer_thread], [main]).

    C state is modelled by explicit state passing over a [world]: a heap of
    allocated objects addressed by locations, the open [FILE] streams, the
    two diagnostic streams, and a script of the failures the environment
    will inject into fallible library calls ([malloc], [pthread_*_init],
    [fprintf], [fflush]). *)

From Stdlib Require Import ZArith Ascii String DecimalString.
From Stdlib Require Import Floats.PrimFloat Floats.SpecFloat Floats.FloatOps.
From stdpp Require Import gmap list strings.

Set Default Proof Using "Type".
Open Scope Z_scope.

(** ** Data model *)

(** A pointer is [NULL] ([None]) or the address of an allocated object. *)
Definition loc := positive.
Definition ptr := option loc.
Abbreviation NULL := (@None loc).

(** [config.h] is not among the sources; the three field types are read off
    the conversions [%d], [%.2f] and [%ld] that [log_sensor_data] prints them
    with: an integer, a [double] and a [long]. *)
Definition sensor_id_t := Z.
Definition sensor_value_t := float.
Definition sensor_ts_t := Z.

Record sensor_data_t := {
  id : sensor_id_t;
  value : sensor_value_t;
  ts : sensor_ts_t
}.

(** Modelled from the spec: [sbuffer.h] is not among the sources. Its three
    result macros are the spec's three outcomes of a queue operation,
    [Failure], [Success] and [EndOfStream]; they are kept apart as the three
    values of an enumeration. *)
Inductive sbuffer_status :=
| SBUFFER_FAILURE
| SBUFFER_SUCCESS
| SBUFFER_NO_DATA.

#[global] Instance sbuffer_status_eq_dec : EqDecision sbuffer_status.
Proof. solve_decision. Defined.

(** [pthread_mutex_t]: locked or not.  [pthread_cond_t] carries no data of
    its own: the threads waiting on it are those whose control is inside
    [pthread_cond_wait]. *)
Definition pthread_mutex_t := bool.
Inductive pthread_cond_t := PTHREAD_COND.

Record sbuffer_node_t := {
  next : ptr;
  data : sensor_data_t
}.

Record sbuffer_t := {
  head : ptr;
  tail : ptr;
  mutex : pthread_mutex_t;
  condition : pthread_cond_t
}.

Inductive obj :=
| Buffer (s : sbuffer_t)
| Node (n : sbuffer_node_t).

(** A stdio stream: what has reached the file, the read position, and the
    text still sitting in the stream's buffer. *)
Record FILE := {
  on_disk : list ascii;
  rpos : nat;
  pending : list ascii
}.

Record world := {
  mem : gmap loc obj;
  files : gmap loc FILE;
  stdout : list ascii;
  stderr : list ascii;
  csv_mutex : pthread_mutex_t;
  faults : list bool
}.

Definition with_mem (m : gmap loc obj) (w : world) : world :=
  {| mem := m; files := files w; stdout := stdout w; stderr := stderr w;
     csv_mutex := csv_mutex w; faults := faults w |}.
Definition with_files (fs : gmap loc FILE) (w : world) : world :=
  {| mem := mem w; files := fs; stdout := stdout w; stderr := stderr w;
     csv_mutex := csv_mutex w; faults := faults w |}.
Definition with_stdout (s : list ascii) (w : world) : world :=
  {| mem := mem w; files := files w; stdout := s; stderr := stderr w;
     csv_mutex := csv_mutex w; faults := faults w |}.
Definition with_stderr (s : list ascii) (w : world) : world :=
  {| mem := mem w; files := files w; stdout := stdout w; stderr := s;
     csv_mutex := csv_mutex w; faults := faults w |}.
Definition with_csv_mutex (b : pthread_mutex_t) (w : world) : world :=
  {| mem := mem w; files := files w; stdout := stdout w; stderr := stderr w;
     csv_mutex := b; faults := faults w |}.
Definition with_faults (fl : list bool) (w : world) : world :=
  {| mem := mem w; files := files w; stdout := stdout w; stderr := stderr w;
     csv_mutex := csv_mutex w; faults := fl |}.

(** ** The monad of C calls

    A call returns ([Done]), suspends its thread inside a blocking pthread
    primitive ([Blocked], with the world at the moment of suspension), is cut
    off by the iteration bound of a loop ([OutOfFuel]), or has no defined
    behaviour ([Undefined]: a dereference of an address that holds no object
    of the expected type). *)
Inductive outcome (A : Type) : Type :=
| Done (a : A) (w : world)
| Blocked (w : world)
| OutOfFuel (w : world)
| Undefined.
Arguments Done {A} a w.
Arguments Blocked {A} w.
Arguments OutOfFuel {A} w.
Arguments Undefined {A}.

Definition M (A : Type) : Type := world → outcome A.

Definition ret {A} (a : A) : M A := fun w => Done a w.

Definition bind {A B} (c : M A) (k : A → M B) : M B :=
  fun w =>
    match c w with
    | Done a w' => k a w'
    | Blocked w' => Blocked w'
    | OutOfFuel w' => OutOfFuel w'
    | Undefined => Undefined
    end.

Notation "x <- c ;; k" := (bind c (fun x => k))
  (at level 20, c at level 99, k at level 200,
   format "'[v' x  <-  c  ;; '/' k ']'").
Notation "c ;; k" := (bind c (fun _ => k))
  (at level 100, k at level 200, right associativity,
   format "'[v' c  ;; '/' k ']'").

Definition undefined {A} : M A := fun _ => Undefined.
Definition block {A} : M A := fun w => Blocked w.

(** *** Heap access *)

Definition load_buffer (b : loc) : M sbuffer_t :=
  fun w => match mem w !! b with
           | Some (Buffer s) => Done s w
           | _ => Undefined
           end.

Definition store_buffer (b : loc) (s : sbuffer_t) : M unit :=
  fun w => match mem w !! b with
           | Some (Buffer _) => Done tt (with_mem (<[b := Buffer s]> (mem w)) w)
           | _ => Undefined
           end.

Definition load_node (l : loc) : M sbuffer_node_t :=
  fun w => match mem w !! l with
           | Some (Node n) => Done n w
           | _ => Undefined
           end.

Definition store_node (l : loc) (n : sbuffer_node_t) : M unit :=
  fun w => match mem w !! l with
           | Some (Node _) => Done tt (with_mem (<[l := Node n]> (mem w)) w)
           | _ => Undefined
           end.

(** The environment's verdict on the next fallible library call: [true]
    makes it fail.  An exhausted script lets every further call succeed. *)
Definition pending_fault (w : world) : bool :=
  match faults w with
  | [] => false
  | f :: _ => f
  end.

Definition next_fault : M bool :=
  fun w => Done (pending_fault w) (with_faults (drop 1 (faults w)) w).

(** [malloc] followed by the initialisation of the whole object: [NULL] when
    the environment refuses the request, else an address that held no object
    before. *)
Definition malloc (o : obj) : M ptr :=
  fails <- next_fault ;;
  if fails : bool then ret NULL
  else fun w =>
         let l := fresh (dom (mem w)) in
         Done (Some l) (with_mem (<[l := o]> (mem w)) w).

Definition free (l : loc) : M unit :=
  fun w => match mem w !! l with
           | Some _ => Done tt (with_mem (delete l (mem w)) w)
           | None => Undefined
           end.

(** *** pthread primitives, as one thread sees them *)

Definition set_mutex (m : pthread_mutex_t) (s : sbuffer_t) : sbuffer_t :=
  {| head := head s; tail := tail s; mutex := m; condition := condition s |}.
Definition set_head (p : ptr) (s : sbuffer_t) : sbuffer_t :=
  {| head := p; tail := tail s; mutex := mutex s; condition := condition s |}.
Definition set_tail (p : ptr) (s : sbuffer_t) : sbuffer_t :=
  {| head := head s; tail := p; mutex := mutex s; condition := condition s |}.
Definition set_next (p : ptr) (n : sbuffer_node_t) : sbuffer_node_t :=
  {| next := p; data := data n |}.

(** [pthread_mutex_lock(&buffer->mutex)]: the caller suspends while another
    thread holds the mutex. *)
Definition pthread_mutex_lock (b : loc) : M unit :=
  s <- load_buffer b ;;
  if mutex s then block else store_buffer b (set_mutex true s).

Definition pthread_mutex_unlock (b : loc) : M unit :=
  s <- load_buffer b ;;
  store_buffer b (set_mutex false s).

(** [pthread_cond_wait(&buffer->condition, &buffer->mutex)]: releases the
    mutex and suspends the caller; it returns only after another thread has
    run, which a single call cannot see. *)
Definition pthread_cond_wait (b : loc) : M unit :=
  pthread_mutex_unlock b ;; block.

(** [pthread_cond_signal]: wakes a waiter, if any; nothing changes in the
    memory of the caller. *)
Definition pthread_cond_signal (b : loc) : M unit :=
  _ <- load_buffer b ;; ret tt.

(** *** Formatted output

    The conversions the program uses: [%d], [%ld] and [%.<p>f].  The last
    one follows C11 7.21.6.1 for a binary64 [double]: the exact value
    [m * 2^e] is rounded to [p] decimals, ties to even, and printed with a
    decimal point when [p] is not zero. *)
Inductive printf_arg :=
| ArgInt (z : Z)
| ArgLong (z : Z)
| ArgDouble (x : float).

Definition LF : ascii := "010"%char.

Definition text (s : string) : list ascii := list_ascii_of_string s.

Definition decimal (z : Z) : list ascii :=
  text (NilEmpty.string_of_int (Z.to_int z)).

Definition digit_value (c : ascii) : option nat :=
  let n := nat_of_ascii c in
  if bool_decide (48 ≤ n ≤ 57)%nat then Some (n - 48)%nat else None.

(** [num / den] rounded to the nearest integer, ties to even. *)
Definition div_half_even (num den : Z) : Z :=
  let q := num / den in
  let r := num mod den in
  match 2 * r ?= den with
  | Lt => q
  | Gt => q + 1
  | Eq => if Z.even q then q else q + 1
  end.

Definition fixed_digits (p : nat) (scaled : Z) : list ascii :=
  match p with
  | O => decimal scaled
  | _ =>
      let unit := 10 ^ Z.of_nat p in
      let frac := decimal (scaled mod unit) in
      decimal (scaled / unit) ++ text "."
        ++ replicate (p - length frac) "0"%char ++ frac
  end.

Definition sign_text (negative : bool) : list ascii :=
  if negative then text "-" else [].

Definition render_f (p : nat) (x : float) : list ascii :=
  match Prim2SF x with
  | S754_nan => text "nan"
  | S754_infinity s => sign_text s ++ text "inf"
  | S754_zero s => sign_text s ++ fixed_digits p 0
  | S754_finite s m e =>
      let scale := 10 ^ Z.of_nat p in
      let scaled :=
        if 0 <=? e then Z.pos m * 2 ^ e * scale
        else div_half_even (Z.pos m * scale) (2 ^ (- e)) in
      sign_text s ++ fixed_digits p scaled
  end.

Fixpoint vformat (fmt : list ascii) (args : list printf_arg)
  : option (list ascii) :=
  match fmt with
  | [] => Some []
  | "%"%char :: "d"%char :: rest =>
      match args with
      | ArgInt z :: args' => (decimal z ++.) <$> vformat rest args'
      | _ => None
      end
  | "%"%char :: "l"%char :: "d"%char :: rest =>
      match args with
      | ArgLong z :: args' => (decimal z ++.) <$> vformat rest args'
      | _ => None
      end
  | "%"%char :: "."%char :: p :: "f"%char :: rest =>
      match digit_value p, args with
      | Some prec, ArgDouble x :: args' =>
          (render_f prec x ++.) <$> vformat rest args'
      | _, _ => None
      end
  | c :: rest => (c ::.) <$> vformat rest args
  end.

(** A C format: the literal's characters, with [\n] as the line feed. *)
Definition line (s : string) : list ascii := text s ++ [LF].

(** [printf]: a mismatch between the format and the arguments is
    undefined. *)
Definition printf (fmt : list ascii) (args : list printf_arg) : M unit :=
  fun w => match vformat fmt args with
           | Some t => Done tt (with_stdout (stdout w ++ t) w)
           | None => Undefined
           end.

Definition eprintf (fmt : list ascii) (args : list printf_arg) : M unit :=
  fun w => match vformat fmt args with
           | Some t => Done tt (with_stderr (stderr w ++ t) w)
           | None => Undefined
           end.

(** [perror(msg)]: the message on [stderr]; the text of [errno] that
    follows it is not modelled. *)
Definition perror (msg : string) : M unit :=
  fun w => Done tt (with_stderr (stderr w ++ line msg) w).

(** ** [sbuffer.c] *)

Definition empty_sbuffer : sbuffer_t :=
  {| head := NULL; tail := NULL; mutex := false; condition := PTHREAD_COND |}.

(** [sbuffer_init(&buffer)]: the status and what [*buffer] holds on
    return.  The stores [head = NULL; tail = NULL] of lines 224-225 are the
    initial contents of the allocated object.  When one of the two pthread
    initialisers fails the block is released and [*buffer] is left
    dangling. *)
Definition sbuffer_init : M (sbuffer_status * ptr) :=
  p <- malloc (Buffer empty_sbuffer) ;;
  match p with
  | None => ret (SBUFFER_FAILURE, NULL)
  | Some b =>
      mutex_init_fails <- next_fault ;;
      if mutex_init_fails : bool then
        free b ;; ret (SBUFFER_FAILURE, Some b)
      else
        cond_init_fails <- next_fault ;;
        if cond_init_fails : bool then
          free b ;; ret (SBUFFER_FAILURE, Some b)
        else ret (SBUFFER_SUCCESS, Some b)
  end.

Definition no_data_message : list ascii :=
  line "No further valid data in the buffer(empty).".

(** Lines 272-274, [while (buffer->head == NULL) pthread_cond_wait(...)],
    for a thread on its own: it leaves the loop at once when the queue has
    a node, and otherwise goes into a wait from which no call of its own
    brings it back.  The re-check after a wake-up is the back edge of the
    thread-level machine further down. *)
Definition wait_while_empty (b : loc) : M unit :=
  s <- load_buffer b ;;
  match head s with
  | None => pthread_cond_wait b
  | Some _ => ret tt
  end.

(** Lines 276-297: the part of [sbuffer_remove] that runs with the mutex
    held once the queue is known to have a head.  The second component of
    the result is what [*data] holds on return. *)
Definition remove_locked (b : loc) (out : sensor_data_t)
  : M (sbuffer_status * sensor_data_t) :=
  s <- load_buffer b ;;
  match head s with
  | None => undefined
  | Some h =>
      n <- load_node h ;;
      if id (data n) =? 0 then
        pthread_mutex_unlock b ;;
        printf no_data_message [] ;;
        ret (SBUFFER_NO_DATA, out)
      else
        (if decide (head s = tail s)
         then store_buffer b (set_tail NULL (set_head NULL s))
         else store_buffer b (set_head (next n) s)) ;;
        free h ;;
        pthread_mutex_unlock b ;;
        ret (SBUFFER_SUCCESS, data n)
  end.

Definition sbuffer_remove (buffer : ptr) (out : sensor_data_t)
  : M (sbuffer_status * sensor_data_t) :=
  match buffer with
  | None => ret (SBUFFER_FAILURE, out)
  | Some b =>
      pthread_mutex_lock b ;;
      wait_while_empty b ;;
      remove_locked b out
  end.

(** Lines 312-323: linking the new node [l] in, signalling and releasing
    the mutex. *)
Definition insert_locked (b : loc) (l : loc) : M unit :=
  s <- load_buffer b ;;
  match tail s with
  | None => store_buffer b (set_tail (Some l) (set_head (Some l) s))
  | Some t =>
      n <- load_node t ;;
      store_node t (set_next (Some l) n) ;;
      n' <- load_node t ;;
      store_buffer b (set_tail (next n') s)
  end ;;
  pthread_cond_signal b ;;
  pthread_mutex_unlock b.

Definition sbuffer_insert (buffer : ptr) (d : sensor_data_t)
  : M sbuffer_status :=
  match buffer with
  | None => ret SBUFFER_FAILURE
  | Some b =>
      dummy <- malloc (Node {| next := NULL; data := d |}) ;;
      match dummy with
      | None => ret SBUFFER_FAILURE
      | Some l =>
          pthread_mutex_lock b ;;
          insert_locked b l ;;
          ret SBUFFER_SUCCESS
      end
  end.

Definition out_of_fuel {A} : M A := fun w => OutOfFuel w.

(** [sbuffer_free(&buffer)]: [buffer] is the address of the handle ([None]
    when that address is [NULL]); the result carries what the handle holds
    on return.  [fuel] bounds the iterations of the loop of lines 249-253. *)
Fixpoint free_nodes (fuel : nat) (b : loc) : M unit :=
  match fuel with
  | O => out_of_fuel
  | S fuel' =>
      s <- load_buffer b ;;
      match head s with
      | None => ret tt
      | Some dummy =>
          n <- load_node dummy ;;
          store_buffer b (set_head (next n) s) ;;
          free dummy ;;
          free_nodes fuel' b
      end
  end.

Definition sbuffer_free (fuel : nat) (buffer : option ptr)
  : M (sbuffer_status * ptr) :=
  match buffer with
  | None => ret (SBUFFER_FAILURE, NULL)
  | Some None => ret (SBUFFER_FAILURE, NULL)
  | Some (Some b) =>
      free_nodes fuel b ;;
      free b ;;
      ret (SBUFFER_SUCCESS, NULL)
  end.

(** ** [main.c] *)

Definition NUM_THREADS : nat := 3.

Record thread_parameters_t := {
  shared_buf : ptr;
  sensor_file : ptr
}.

(** *** stdio streams *)

Definition load_file (f : loc) : M FILE :=
  fun w => match files w !! f with
           | Some F => Done F w
           | None => Undefined
           end.

Definition store_file (f : loc) (F : FILE) : M unit :=
  fun w => Done tt (with_files (<[f := F]> (files w)) w).

(** [fprintf]: the number of characters written, or a negative value when
    the environment makes the write fail. *)
Definition fprintf (f : loc) (fmt : list ascii) (args : list printf_arg)
  : M Z :=
  F <- load_file f ;;
  match vformat fmt args with
  | None => undefined
  | Some t =>
      fails <- next_fault ;;
      if fails : bool then ret (-1)
      else
        store_file f {| on_disk := on_disk F; rpos := rpos F;
                        pending := pending F ++ t |} ;;
        ret (Z.of_nat (length t))
  end.

(** [fflush]: 0, or [EOF] when the environment makes it fail. *)
Definition fflush (f : loc) : M Z :=
  F <- load_file f ;;
  fails <- next_fault ;;
  if fails : bool then ret (-1)
  else
    store_file f {| on_disk := on_disk F ++ pending F; rpos := rpos F;
                    pending := [] |} ;;
    ret 0.

(** [fread(ptr, size, 1, f)]: the [size] bytes of the element when the call
    returns 1, [None] when it returns 0 (nothing asked for, or fewer than
    [size] bytes left, which are consumed). *)
Definition fread (size : nat) (f : loc) : M (option (list ascii)) :=
  F <- load_file f ;;
  let avail := drop (rpos F) (on_disk F) in
  if bool_decide (size = 0%nat) then ret None
  else if bool_decide (size ≤ length avail)%nat then
    store_file f {| on_disk := on_disk F; rpos := (rpos F + size)%nat;
                    pending := pending F |} ;;
    ret (Some (take size avail))
  else
    store_file f {| on_disk := on_disk F; rpos := length (on_disk F);
                    pending := pending F |} ;;
    ret None.

Definition csv_format : list ascii := line "%d,%.2f,%ld".

(** Lines 43-57. *)
Definition log_sensor_data (output_file : ptr) (sensor_id : sensor_id_t)
    (sensor_value : sensor_value_t) (timestamp : sensor_ts_t) : M Z :=
  match output_file with
  | None => ret (-1)
  | Some f =>
      n <- fprintf f csv_format
             [ArgInt sensor_id; ArgDouble sensor_value; ArgLong timestamp] ;;
      if n <? 0 then
        perror "Error occurred while writing to file" ;;
        ret (-1)
      else
        r <- fflush f ;;
        if negb (r =? 0) then
          perror "Failed to flush data to file" ;;
          ret (-1)
        else ret 0
  end.

(** Modelled from the spec: [config.h] is not among the sources.  The input
    is "a binary stream of fixed-width records, each exactly sizeof(id) +
    sizeof(value) + sizeof(timestamp) bytes"; the three widths and the
    reading of the bytes of each field are the platform's. *)
Record config_h := {
  sizeof_id : nat;
  sizeof_value : nat;
  sizeof_ts : nat;
  decode_id : list ascii → sensor_id_t;
  decode_value : list ascii → sensor_value_t;
  decode_ts : list ascii → sensor_ts_t
}.

(** Lines 78-87: the reading loop of the producer, at most [fuel]
    iterations ([usleep] changes nothing in the world). *)
Fixpoint read_loop (fuel : nat) (cfg : config_h) (buffer : ptr)
    (sensor_input : loc) : M unit :=
  match fuel with
  | O => out_of_fuel
  | S fuel' =>
      i <- fread (sizeof_id cfg) sensor_input ;;
      match i with
      | None => ret tt
      | Some bi =>
          v <- fread (sizeof_value cfg) sensor_input ;;
          match v with
          | None => ret tt
          | Some bv =>
              t <- fread (sizeof_ts cfg) sensor_input ;;
              match t with
              | None => ret tt
              | Some bt =>
                  let sensor_entry :=
                    {| id := decode_id cfg bi; value := decode_value cfg bv;
                       ts := decode_ts cfg bt |} in
                  st <- sbuffer_insert buffer sensor_entry ;;
                  (if decide (st = SBUFFER_SUCCESS) then ret tt
                   else eprintf (line "Buffer insertion failed for data: ID=%d")
                          [ArgInt (id sensor_entry)]) ;;
                  read_loop fuel' cfg buffer sensor_input
              end
          end
      end
  end.

Definition end_signal : sensor_data_t :=
  {| id := 0; value := 0%float; ts := 0 |}.

(** [for (int i = 0; i < n; i++) body] *)
Fixpoint for_loop (n : nat) (body : M unit) : M unit :=
  match n with
  | O => ret tt
  | S n' => body ;; for_loop n' body
  end.

(** Lines 65-96. *)
Definition producer_thread (fuel : nat) (cfg : config_h)
    (parameters : thread_parameters_t) : M unit :=
  let buffer := shared_buf parameters in
  match sensor_file parameters with
  | None => eprintf (line "Error: Input file is not available.") []
  | Some sensor_input =>
      read_loop fuel cfg buffer sensor_input ;;
      for_loop (NUM_THREADS - 1)
        (_ <- sbuffer_insert buffer end_signal ;; ret tt)
  end.

Definition lock_csv_mutex : M unit :=
  fun w => if csv_mutex w then Blocked w else Done tt (with_csv_mutex true w).

Definition unlock_csv_mutex : M unit :=
  fun w => Done tt (with_csv_mutex false w).

(** Lines 111-136: the loop of the consumer, at most [fuel] iterations.
    [retrieved_data] is the local variable the removed record is copied
    into; it is what the previous iteration left there. *)
Fixpoint consumer_loop (fuel : nat) (buffer output_csv : ptr)
    (retrieved_data : sensor_data_t) : M unit :=
  match fuel with
  | O => out_of_fuel
  | S fuel' =>
      r <- sbuffer_remove buffer retrieved_data ;;
      let status := r.1 in
      let retrieved_data := r.2 in
      if decide (status = SBUFFER_FAILURE) then
        eprintf (line "Buffer read encountered an error.") [] ;;
        consumer_loop fuel' buffer output_csv retrieved_data
      else if id retrieved_data =? 0 then ret tt
      else
        lock_csv_mutex ;;
        rc <- log_sensor_data output_csv (id retrieved_data)
                (value retrieved_data) (ts retrieved_data) ;;
        (if negb (rc =? 0) then
           eprintf (line "Failed to log data: ID=%d")
             [ArgInt (id retrieved_data)]
         else
           printf (line "Logged: SensorID=%d, Value=%.2f, Timestamp=%ld")
             [ArgInt (id retrieved_data); ArgDouble (value retrieved_data);
              ArgLong (ts retrieved_data)]) ;;
        unlock_csv_mutex ;;
        consumer_loop fuel' buffer output_csv retrieved_data
  end.

(** Lines 104-139.  [retrieved_data] is declared without an initialiser:
    [garbage] is what the variable happens to hold. *)
Definition consumer_thread (fuel : nat) (parameters : thread_parameters_t)
    (garbage : sensor_data_t) : M unit :=
  consumer_loop fuel (shared_buf parameters) (sensor_file parameters) garbage.

(** ** Sequences of calls *)

(** The records handed to [sbuffer_insert] one after the other, with the
    status of each call. *)
Fixpoint insert_all (buffer : ptr) (rs : list sensor_data_t)
  : M (list sbuffer_status) :=
  match rs with
  | [] => ret []
  | r :: rs' =>
      st <- sbuffer_insert buffer r ;;
      sts <- insert_all buffer rs' ;;
      ret (st :: sts)
  end.

(** [n] calls of [sbuffer_remove] by one caller, each on the variable the
    previous one left: what the calls returned, and the world after the last
    of them.  A call that suspends its caller ends the sequence. *)
Fixpoint remove_calls (n : nat) (buffer : ptr) (out : sensor_data_t)
    (w : world) : list (sbuffer_status * sensor_data_t) * world :=
  match n with
  | O => ([], w)
  | S n' =>
      match sbuffer_remove buffer out w with
      | Done r w' =>
          let rest := remove_calls n' buffer r.2 w' in
          (r :: rest.1, rest.2)
      | Blocked w' => ([], w')
      | OutOfFuel w' => ([], w')
      | Undefined => ([], w)
      end
  end.

(** The records of the calls that returned [SBUFFER_SUCCESS]. *)
Definition removed (results : list (sbuffer_status * sensor_data_t))
  : list sensor_data_t :=
  omap (λ r, if decide (r.1 = SBUFFER_SUCCESS) then Some r.2 else None) results.

Definition is_sentinel (d : sensor_data_t) : bool := id d =? 0.

(** The records in front of the first sentinel. *)
Fixpoint before_sentinel (rs : list sensor_data_t) : list sensor_data_t :=
  match rs with
  | [] => []
  | r :: rs' => if is_sentinel r then [] else r :: before_sentinel rs'
  end.

(** What [n] removes by one caller return on a queue holding [rs], as a
    function on lists: the list model [remove_calls] is compared with. *)
Fixpoint expected (n : nat) (rs : list sensor_data_t) (out : sensor_data_t)
  : list (sbuffer_status * sensor_data_t) :=
  match n with
  | O => []
  | S n' =>
      match rs with
      | [] => []
      | r :: rs' =>
          if is_sentinel r then (SBUFFER_NO_DATA, out) :: expected n' rs out
          else (SBUFFER_SUCCESS, r) :: expected n' rs' r
      end
  end.

(** The record in the node [buffer->head] points to. *)
Definition head_record (m : gmap loc obj) (b : loc) : option sensor_data_t :=
  match m !! b with
  | Some (Buffer s) =>
      match head s with
      | Some h =>
          match m !! h with
          | Some (Node n) => Some (data n)
          | _ => None
          end
      | None => None
      end
  | _ => None
  end.

Definition buffer_at (w : world) (b : loc) : option sbuffer_t :=
  match mem w !! b with
  | Some (Buffer s) => Some s
  | _ => None
  end.

Definition mutex_free (w : world) (b : loc) : Prop :=
  mutex <$> buffer_at w b = Some false.

(** The worlds a queue goes through: created by [sbuffer_init], then used
    by inserts and removes; a remove that suspends its caller leaves the
    world to the other threads. *)
Inductive queue_op :=
| Op_insert (d : sensor_data_t)
| Op_remove (out : sensor_data_t).

Definition run_op (b : loc) (op : queue_op) : M unit :=
  match op with
  | Op_insert d => _ <- sbuffer_insert (Some b) d ;; ret tt
  | Op_remove out => _ <- sbuffer_remove (Some b) out ;; ret tt
  end.

Definition world_after {A} (o : outcome A) : option world :=
  match o with
  | Done _ w | Blocked w => Some w
  | _ => None
  end.

Inductive reachable (b : loc) : world → Prop :=
| reachable_init w w' :
    sbuffer_init w = Done (SBUFFER_SUCCESS, Some b) w' → reachable b w'
| reachable_op w op w' :
    reachable b w → world_after (run_op b op w) = Some w' → reachable b w'.

(** ** Outcomes of [log_sensor_data] *)

Definition fault_at (k : nat) (w : world) : bool := default false (faults w !! k).

(** The text of one record in the output file. *)
Definition csv_row (d : sensor_data_t) : list ascii :=
  decimal (id d) ++ text "," ++ render_f 2 (value d) ++ text "," ++ decimal (ts d).


Definition write_error : list ascii := line "Error occurred while writing to file".

Definition flush_error : list ascii := line "Failed to flush data to file".

(** What [log_sensor_data] leaves of the stream [F] and returns, by the
    verdicts of the environment on the write and on the flush. *)
Definition logged (F : FILE) (row : list ascii) (write_fails flush_fails : bool)
  : FILE * Z :=
  if write_fails then (F, -1)
  else if flush_fails then
    ({| on_disk := on_disk F; rpos := rpos F; pending := pending F ++ row |}, -1)
  else
    ({| on_disk := on_disk F ++ pending F ++ row; rpos := rpos F; pending := [] |}, 0).

(** ** The queue a heap represents

    [chain m p cells]: starting at [p], the [next] pointers of [m] run
    through the nodes [cells] (address and record, in order) and end in
    [NULL]. *)
Fixpoint chain (m : gmap loc obj) (p : ptr)
    (cells : list (loc * sensor_data_t)) : Prop :=
  match cells with
  | [] => p = NULL
  | (l, d) :: rest =>
      p = Some l ∧
      ∃ nx, m !! l = Some (Node {| next := nx; data := d |}) ∧ chain m nx rest
  end.

Definition last_loc (cells : list (loc * sensor_data_t)) : ptr :=
  fst <$> last cells.

(** [is_queue m b cells]: [b] is a valid queue handle in [m], between two
    operations (the mutex is free), and the nodes of the queue are
    [cells]. *)
Definition is_queue (m : gmap loc obj) (b : loc)
    (cells : list (loc * sensor_data_t)) : Prop :=
  ∃ s, m !! b = Some (Buffer s) ∧ mutex s = false ∧
       chain m (head s) cells ∧ tail s = last_loc cells ∧
       NoDup cells.*1.

(** ** Worlds to run the definitions on *)

Definition reading_1 : sensor_data_t := {| id := 1; value := 10.5%float; ts := 100 |}.
Definition reading_2 : sensor_data_t := {| id := 2; value := 20.5%float; ts := 200 |}.

Definition empty_file : FILE := {| on_disk := []; rpos := 0; pending := [] |}.

(** A world with nothing allocated, one empty output stream and an
    environment that injects no failure. *)
Definition quiet_world : world :=
  {| mem := ∅; files := {[ 1%positive := empty_file ]}; stdout := [];
     stderr := []; csv_mutex := false; faults := [] |}.

Definition world_of {A} (o : outcome A) : world :=
  match o with
  | Done _ w | Blocked w | OutOfFuel w => w
  | Undefined => quiet_world
  end.

(** The world after [sbuffer_init] and the inserts of [rs]; the handle is the
    first address handed out. *)
Definition queue_of (rs : list sensor_data_t) : world :=
  world_of ((sbuffer_init ;; insert_all (Some 1%positive) rs) quiet_world).

Definition fresh_queue : world := queue_of [].

(** The same world with an environment that refuses the next request. *)
Definition out_of_memory (w : world) : world := with_faults [true] w.

Definition insert_status (o : outcome sbuffer_status) : option sbuffer_status :=
  match o with
  | Done st _ => Some st
  | _ => None
  end.

(** ** The consumer at the end of the stream *)

(** A [FILE *] the program may pass to stdio: [NULL] or an open stream. *)
Definition valid_stream (w : world) (p : ptr) : Prop :=
  match p with
  | None => True
  | Some f => is_Some (files w !! f)
  end.

(** The consumer in front of a sentinel: the state of the world in which
    its next [sbuffer_remove] reports [SBUFFER_NO_DATA]. *)
Definition at_end_of_stream (w : world) (b : loc) (output_csv : ptr) : Prop :=
  (∃ d, head_record (mem w) b = Some d ∧ id d = 0)
  ∧ mutex_free w b ∧ csv_mutex w = false ∧ valid_stream w output_csv.

Definition consumer_parameters : thread_parameters_t :=
  {| shared_buf := Some 1%positive; sensor_file := Some 1%positive |}.

(** ** The input stream of the producer *)

(** The records a byte stream holds: whole records only, a trailing partial
    record is dropped.  [n] bounds the number of records. *)
Fixpoint parse (n : nat) (cfg : config_h) (bytes : list ascii)
  : list sensor_data_t :=
  match n with
  | O => []
  | S n' =>
      let a := sizeof_id cfg in
      let b := sizeof_value cfg in
      let c := sizeof_ts cfg in
      if bool_decide (0 < a ∧ 0 < b ∧ 0 < c ∧ a + b + c ≤ length bytes)%nat then
        {| id := decode_id cfg (take a bytes);
           value := decode_value cfg (take b (drop a bytes));
           ts := decode_ts cfg (take c (drop (a + b) bytes)) |}
        :: parse n' cfg (drop (a + b + c) bytes)
      else []
  end.

Definition records_in (cfg : config_h) (bytes : list ascii)
  : list sensor_data_t :=
  parse (S (length bytes)) cfg bytes.

Definition unread (F : FILE) : list ascii := drop (rpos F) (on_disk F).

(** An example platform: a 16-bit identifier, a binary64 value and a 64-bit
    timestamp, least significant byte first. *)
Definition decode_le (bytes : list ascii) : Z :=
  foldr (λ c acc, Z.of_nat (nat_of_ascii c) + 256 * acc) 0 bytes.

Definition decode_signed (bytes : list ascii) : Z :=
  let width := 8 * Z.of_nat (length bytes) in
  let u := decode_le bytes in
  if u <? 2 ^ (width - 1) then u else u - 2 ^ width.

Definition decode_binary64 (bytes : list ascii) : float :=
  let bits := decode_le bytes in
  let negative := negb (bits / 2 ^ 63 =? 0) in
  let e := (bits / 2 ^ 52) mod 2 ^ 11 in
  let m := bits mod 2 ^ 52 in
  if (e =? 2047)%Z then
    if (m =? 0)%Z then (if negative then neg_infinity else infinity) else nan
  else if (e =? 0)%Z then
    match m with
    | Z.pos p => SF2Prim (S754_finite negative p (-1074)%Z)
    | _ => SF2Prim (S754_zero negative)
    end
  else
    match (m + 2 ^ 52)%Z with
    | Z.pos p => SF2Prim (S754_finite negative p (e - 1075)%Z)
    | _ => nan
    end.

Definition example_config : config_h :=
  {| sizeof_id := 2; sizeof_value := 8; sizeof_ts := 8;
     decode_id := decode_le; decode_value := decode_binary64;
     decode_ts := decode_signed |}.

Definition bytes_of (ns : list nat) : list ascii := ascii_of_nat <$> ns.

(** The 18 bytes of the reading (1, 10.5, 100). *)
Definition reading_1_bytes : list ascii :=
  bytes_of [1; 0;  0; 0; 0; 0; 0; 0; 37; 64;  100; 0; 0; 0; 0; 0; 0; 0]%nat.

Definition holds (w : world) (b : loc) (rs : list sensor_data_t) : Prop :=
  ∃ cells, is_queue (mem w) b cells ∧ cells.*2 = rs.

Definition advance (n : nat) (F : FILE) : FILE :=
  {| on_disk := on_disk F; rpos := (rpos F + n)%nat; pending := pending F |}.

(** [fresh_queue] with a second stream, the input, holding [bytes], and the
    environment's script [script]. *)
Definition stream_world (bytes : list ascii) (script : list bool) : world :=
  with_faults script
    (with_files
       (<[2%positive := {| on_disk := bytes; rpos := 0; pending := [] |}]>
          (files fresh_queue))
       fresh_queue).

Definition producer_parameters : thread_parameters_t :=
  {| shared_buf := Some 1%positive; sensor_file := Some 2%positive |}.

(** ** Threads

    Where the control of a thread stands with respect to the queue.  The
    points inside [sbuffer_remove] and [sbuffer_insert] are the places
    where the thread can be overtaken by another one: before each
    acquisition of the mutex, and inside [pthread_cond_wait].  What runs
    with the mutex held is one step. *)
Inductive control :=
| Idle
| Remove_lock (out : sensor_data_t)
| Remove_test (out : sensor_data_t)
| Remove_wait (out : sensor_data_t)
| Remove_wake (out : sensor_data_t)
| Remove_body (out : sensor_data_t)
| Remove_ret (st : sbuffer_status) (out : sensor_data_t)
| Insert_lock (l : loc)
| Insert_body (l : loc)
| Insert_ret (st : sbuffer_status).

(** One step of a thread on its own, inside a call on the queue [b]:
    - [Remove_lock]: line 269, enabled when the mutex is free;
    - [Remove_test]: the loop condition of line 272, with the mutex held;
      on an empty queue the thread enters [pthread_cond_wait], which
      releases the mutex;
    - [Remove_wake]: the thread was woken and takes the mutex again before
      [pthread_cond_wait] returns into the loop condition;
    - [Remove_body]: lines 276-297;
    - [Insert_lock]: line 311.
    [None]: the thread cannot move by itself. *)
Definition thread_step (b : loc) (c : control) (w : world)
  : option (control * world) :=
  match c with
  | Remove_lock out | Remove_wake out =>
      match pthread_mutex_lock b w with
      | Done _ w' => Some (Remove_test out, w')
      | _ => None
      end
  | Remove_test out =>
      match load_buffer b w with
      | Done s _ =>
          match head s with
          | None =>
              match pthread_mutex_unlock b w with
              | Done _ w' => Some (Remove_wait out, w')
              | _ => None
              end
          | Some _ => Some (Remove_body out, w)
          end
      | _ => None
      end
  | Remove_body out =>
      match remove_locked b out w with
      | Done r w' => Some (Remove_ret r.1 r.2, w')
      | _ => None
      end
  | Insert_lock l =>
      match pthread_mutex_lock b w with
      | Done _ w' => Some (Insert_body l, w')
      | _ => None
      end
  | _ => None
  end.

Record system := {
  shared : world;
  pool : gmap nat control
}.

Inductive label :=
| Call_remove (t : nat) (buffer : ptr) (out : sensor_data_t)
| Call_insert (t : nat) (buffer : ptr) (d : sensor_data_t)
| Own (t : nat)
| Link (t : nat) (woken : option nat)
| Spurious (t : nat)
| Return (t : nat).


(** The effect of [pthread_cond_signal] on the threads: one of those
    waiting on the condition is woken, if there is one. *)
Inductive signalled (p : gmap nat control)
  : option nat → gmap nat control → Prop :=
| signal_nobody :
    (∀ t out, p !! t ≠ Some (Remove_wait out)) → signalled p None p
| signal_one t out :
    p !! t = Some (Remove_wait out) →
    signalled p (Some t) (<[t := Remove_wake out]> p).

(** The steps of the threads that share the queue [b]. *)
Inductive step (b : loc) : system → label → system → Prop :=
| step_call_remove_null s t out :
    pool s !! t = Some Idle →
    step b s (Call_remove t NULL out)
      {| shared := shared s;
         pool := <[t := Remove_ret SBUFFER_FAILURE out]> (pool s) |}
| step_call_remove s t out :
    pool s !! t = Some Idle →
    step b s (Call_remove t (Some b) out)
      {| shared := shared s; pool := <[t := Remove_lock out]> (pool s) |}
| step_call_insert_null s t d :
    pool s !! t = Some Idle →
    step b s (Call_insert t NULL d)
      {| shared := shared s;
         pool := <[t := Insert_ret SBUFFER_FAILURE]> (pool s) |}
| step_call_insert s t d p w' :
    pool s !! t = Some Idle →
    malloc (Node {| next := NULL; data := d |}) (shared s) = Done p w' →
    step b s (Call_insert t (Some b) d)
      {| shared := w';
         pool := <[t := match p with
                        | None => Insert_ret SBUFFER_FAILURE
                        | Some l => Insert_lock l
                        end]> (pool s) |}
| step_own s t c c' w' :
    pool s !! t = Some c →
    thread_step b c (shared s) = Some (c', w') →
    step b s (Own t) {| shared := w'; pool := <[t := c']> (pool s) |}
| step_link s t l w' woken p' :
    pool s !! t = Some (Insert_body l) →
    insert_locked b l (shared s) = Done tt w' →
    signalled (pool s) woken p' →
    step b s (Link t woken)
      {| shared := w'; pool := <[t := Insert_ret SBUFFER_SUCCESS]> p' |}
| step_spurious s t out :
    pool s !! t = Some (Remove_wait out) →
    step b s (Spurious t)
      {| shared := shared s; pool := <[t := Remove_wake out]> (pool s) |}
| step_return s t c :
    pool s !! t = Some c →
    (∃ st out, c = Remove_ret st out) ∨ (∃ st, c = Insert_ret st) →
    step b s (Return t)
      {| shared := shared s; pool := <[t := Idle]> (pool s) |}.

Inductive exec (b : loc) : system → list label → system → Prop :=
| exec_nil s : exec b s [] s
| exec_cons s a s' tr s'' :
    step b s a s' → exec b s' tr s'' → exec b s (a :: tr) s''.

(** The thread the step [a] is a step of; a spurious wake-up is the
    environment's. *)
Definition actor (a : label) : option nat :=
  match a with
  | Call_remove t _ _ | Call_insert t _ _ | Own t | Link t _ | Return t => Some t
  | Spurious _ => None
  end.




(** A thread running alone: at most [n] steps of its own. *)
Fixpoint solo (n : nat) (b : loc) (c : control) (w : world) : control * world :=
  match n with
  | O => (c, w)
  | S n' =>
      match thread_step b c w with
      | Some (c', w') => solo n' b c' w'
      | None => (c, w)
      end
  end.

(** A consumer (thread 0) and a producer (thread 1) around the queue of
    [fresh_queue]. *)
Definition two_threads (c0 c1 : control) (w : world) : system :=
  {| shared := w; pool := {[ 0%nat := c0; 1%nat := c1 ]} |}.

Definition consumer_waits : system :=
  two_threads (Remove_wait end_signal) Idle fresh_queue.

(** ** Mutual exclusion *)

(** [queue_shape m b held cells]: the heap [m] holds at [b] a queue whose
    nodes are [cells], with its mutex held or not. *)
Definition queue_shape (m : gmap loc obj) (b : loc) (held : bool)
    (cells : list (loc * sensor_data_t)) : Prop :=
  ∃ s, m !! b = Some (Buffer s) ∧ mutex s = held ∧
       chain m (head s) cells ∧ tail s = last_loc cells ∧
       NoDup cells.*1.

(** Between an acquisition of the mutex and its release. *)
Definition holds_mutex (c : control) : bool :=
  match c with
  | Remove_test _ | Remove_body _ | Insert_body _ => true
  | _ => false
  end.

(** The node an inserting thread has allocated and not linked in yet. *)
Definition pending_node (c : control) : option loc :=
  match c with
  | Insert_lock l | Insert_body l => Some l
  | _ => None
  end.

(** The mutex is held exactly when one thread is between lock and unlock,
    and no two threads are. *)
Definition lock_ok (held : bool) (p : gmap nat control) : Prop :=
  (∀ t c, p !! t = Some c → holds_mutex c = true → held = true)
  ∧ (held = true → ∃ t c, p !! t = Some c ∧ holds_mutex c = true)
  ∧ (∀ t t' c c', p !! t = Some c → p !! t' = Some c' →
                  holds_mutex c = true → holds_mutex c' = true → t = t').

(** The nodes of the inserting threads are allocated, initialised, outside
    the queue, and each belongs to one thread. *)
Definition pending_ok (m : gmap loc obj) (cells : list (loc * sensor_data_t))
    (p : gmap nat control) : Prop :=
  (∀ t c l, p !! t = Some c → pending_node c = Some l →
            (l ∉ cells.*1) ∧
            ∃ d, m !! l = Some (Node {| next := NULL; data := d |}))
  ∧ (∀ t t' c c' l, p !! t = Some c → p !! t' = Some c' →
                    pending_node c = Some l → pending_node c' = Some l →
                    t = t').

(** A thread past the loop of lines 272-274 has a node to remove. *)
Definition body_ok (cells : list (loc * sensor_data_t))
    (p : gmap nat control) : Prop :=
  ∀ t out, p !! t = Some (Remove_body out) → cells ≠ [].

(** What every interleaving of the calls keeps true of the heap and of the
    threads. *)
Definition well_formed (b : loc) (s : system) : Prop :=
  ∃ held cells,
    queue_shape (mem (shared s)) b held cells
    ∧ lock_ok held (pool s)
    ∧ pending_ok (mem (shared s)) cells (pool s)
    ∧ body_ok cells (pool s).

(** Blocked in [pthread_cond_wait] (line 273). *)
Definition is_waiting (c : control) : bool :=
  match c with
  | Remove_wait _ => true
  | _ => false
  end.

(** ** The queue in the heap of its caller *)

(** A sequence of calls on the queue [b] by one caller. *)
Fixpoint run_ops (b : loc) (ops : list queue_op) : M unit :=
  match ops with
  | [] => ret tt
  | op :: ops' => run_op b op ;; run_ops b ops'
  end.

(** [owns m0 m b cells]: the heap [m] is the heap [m0] and, at addresses
    that [m0] does not use, the queue [b] with its nodes [cells]. *)
Definition owns (m0 m : gmap loc obj) (b : loc)
    (cells : list (loc * sensor_data_t)) : Prop :=
  m0 !! b = None
  ∧ (∀ l, l ∈ cells.*1 → m0 !! l = None)
  ∧ (∀ l, l ≠ b → l ∉ cells.*1 → m !! l = m0 !! l).

(** Two calls of [sbuffer_free] on the same handle variable. *)
Definition free_twice (fuel : nat) (buffer : ptr) : M (sbuffer_status * ptr) :=
  r <- sbuffer_free fuel (Some buffer) ;;
  sbuffer_free fuel (Some r.2).

(** The records a sequence of calls hands to [sbuffer_insert]. *)
Definition inserted (ops : list queue_op) : list sensor_data_t :=
  omap (λ op, match op with Op_insert d => Some d | Op_remove _ => None end) ops.

(** ** Histories of the threads *)

(** What the threads do with records: a call of [sbuffer_insert] with the
    record [d], the linking of the node of a thread (lines 312-319), and
    the return of [SBUFFER_SUCCESS] with the record [d] in [*data]. *)
Inductive event :=
| Called (t : nat) (d : sensor_data_t)
| Linked (t : nat)
| Dequeued (t : nat) (d : sensor_data_t).

(** The event of a step, if it has one. *)
Definition observe (s : system) (a : label) (s' : system) : option event :=
  match a with
  | Call_insert t (Some _) d => Some (Called t d)
  | Link t _ => Some (Linked t)
  | Own t =>
      match pool s !! t, pool s' !! t with
      | Some (Remove_body _), Some (Remove_ret SBUFFER_SUCCESS d) =>
          Some (Dequeued t d)
      | _, _ => None
      end
  | _ => None
  end.

(** A run of the threads with the events of its steps, in order. *)
Inductive history (b : loc) : system → list event → system → Prop :=
| history_nil s : history b s [] s
| history_cons s a s' h s'' :
    step b s a s' → history b s' h s'' →
    history b s (option_list (observe s a s') ++ h) s''.

(** The records in the order in which their nodes were linked in: each
    [Linked t] stands for the record of the last call of thread [t];
    [args] holds the records of the calls in progress. *)
Fixpoint enqueued_from (args : gmap nat sensor_data_t) (h : list event)
  : list sensor_data_t :=
  match h with
  | [] => []
  | Called t d :: h' => enqueued_from (<[t := d]> args) h'
  | Linked t :: h' => option_list (args !! t) ++ enqueued_from args h'
  | Dequeued _ _ :: h' => enqueued_from args h'
  end.

(** The same from the start of a run, when no call is in progress. *)
Definition enqueued (h : list event) : list sensor_data_t :=
  enqueued_from ∅ h.

(** The records in the order in which they were handed to the callers of
    [sbuffer_remove]. *)
Definition dequeued (h : list event) : list sensor_data_t :=
  omap (λ e, match e with Dequeued _ d => Some d | _ => None end) h.

(** [well_formed] with the state of the mutex and the nodes of the queue
    named. *)
Definition well_formed_with (b : loc) (s : system) (held : bool)
    (cells : list (loc * sensor_data_t)) : Prop :=
  queue_shape (mem (shared s)) b held cells
  ∧ lock_ok held (pool s)
  ∧ pending_ok (mem (shared s)) cells (pool s)
  ∧ body_ok cells (pool s).

(** The node of each insert in progress holds the record of the call. *)
Definition args_ok (args : gmap nat sensor_data_t) (s : system) : Prop :=
  ∀ t c l, pool s !! t = Some c → pending_node c = Some l →
           ∃ d, args !! t = Some d
                ∧ mem (shared s) !! l = Some (Node {| next := NULL; data := d |}).

(** The records of the calls in progress after the step [a]. *)
Definition next_args (args : gmap nat sensor_data_t) (a : label)
  : gmap nat sensor_data_t :=
  match a with
  | Call_insert t (Some _) d => <[t := d]> args
  | _ => args
  end.

(** Waiting for the mutex of the queue. *)
Definition wants_mutex (c : control) : bool :=
  match c with
  | Remove_lock _ | Remove_wake _ | Insert_lock _ => true
  | _ => false
  end.

(** ** What the consumer prints and writes *)

(** The messages of lines 115, 127 and 129. *)
Definition read_error : list ascii := line "Buffer read encountered an error.".

Definition log_failure (sid : sensor_id_t) : list ascii :=
  text "Failed to log data: ID=" ++ decimal sid ++ [LF].

Definition logged_line (d : sensor_data_t) : list ascii :=
  text "Logged: SensorID=" ++ decimal (id d) ++ text ", Value="
    ++ render_f 2 (value d) ++ text ", Timestamp=" ++ decimal (ts d) ++ [LF].

(** The rows of the records [ds] in the output file. *)
Definition csv_rows (ds : list sensor_data_t) : list ascii :=
  mjoin ((λ d, csv_row d ++ [LF]) <$> ds).

(** What the output stream [F] holds once the rows of [ds] were written
    and flushed. *)
Definition appended (F : FILE) (ds : list sensor_data_t) : FILE :=
  {| on_disk := on_disk F ++ csv_rows ds; rpos := rpos F; pending := [] |}.

(** ** What the producer reads and reports *)

(** The message of line 83. *)
Definition insert_failure (sid : sensor_id_t) : list ascii :=
  text "Buffer insertion failed for data: ID=" ++ decimal sid ++ [LF].

(** The bytes of one record, decoded field by field. *)
Definition decode_record (cfg : config_h) (bytes : list ascii) : sensor_data_t :=
  {| id := decode_id cfg (take (sizeof_id cfg) bytes);
     value := decode_value cfg (take (sizeof_value cfg) (drop (sizeof_id cfg) bytes));
     ts := decode_ts cfg
             (take (sizeof_ts cfg)
                (drop (sizeof_id cfg + sizeof_value cfg) bytes)) |}.

(** The bytes of a record in the stream. *)
Definition sizeof_record (cfg : config_h) : nat :=
  (sizeof_id cfg + sizeof_value cfg + sizeof_ts cfg)%nat.

(** The stream has a whole record to read. *)
Definition record_ahead (cfg : config_h) (bytes : list ascii) : Prop :=
  (0 < sizeof_id cfg ∧ 0 < sizeof_value cfg ∧ 0 < sizeof_ts cfg
   ∧ sizeof_record cfg ≤ length bytes)%nat.

(** Which of the records [rs] get into the queue and which are reported,
    by the verdicts [fl] of the environment on the allocations, one for
    each record in turn. *)
Fixpoint enqueued_of (rs : list sensor_data_t) (fl : list bool)
  : list sensor_data_t :=
  match rs with
  | [] => []
  | r :: rs' =>
      if default false (fl !! 0%nat) then enqueued_of rs' (drop 1 fl)
      else r :: enqueued_of rs' (drop 1 fl)
  end.

Fixpoint reported_of (rs : list sensor_data_t) (fl : list bool)
  : list sensor_data_t :=
  match rs with
  | [] => []
  | r :: rs' =>
      if default false (fl !! 0%nat) then r :: reported_of rs' (drop 1 fl)
      else reported_of rs' (drop 1 fl)
  end.

(** The message of line 73. *)
Definition no_input_file : list ascii := line "Error: Input file is not available.".

(** ** The fields of a row *)

Definition comma : ascii := ","%char.

(** A character that ends neither a field nor a row. *)
Definition field_char (c : ascii) : Prop := c ≠ comma ∧ c ≠ LF.

(** Splitting a text at its commas. *)
Fixpoint fields (t : list ascii) : list (list ascii) :=
  match t with
  | [] => [[]]
  | c :: t' =>
      if decide (c = comma) then [] :: fields t'
      else match fields t' with
           | [] => [[c]]
           | fld :: flds => (c :: fld) :: flds
           end
  end.

(** ** Files by name, [initialize_file] and [main] *)

(** The files of the machine by name, and the names of the streams that are
    open.  While a file is open its contents are those of its stream; they
    are written back when the stream is closed. *)
Record filesystem := {
  stored : gmap string (list ascii);
  opened : gmap loc string
}.

(** A new stream on the file [filename], which holds [bytes]; [st] is what
    the disk holds once the file is open. *)
Definition open_stream (filename : string) (bytes : list ascii)
    (st : gmap string (list ascii)) (fs : filesystem)
  : M (ptr * filesystem) :=
  fun w =>
    let f := fresh (dom (files w)) in
    Done (Some f, {| stored := st; opened := <[f := filename]> (opened fs) |})
      (with_files (<[f := {| on_disk := bytes; rpos := 0; pending := [] |}]>
                     (files w)) w).

(** [fopen] with the three modes the program uses: [NULL] when the
    environment refuses the call, or when a file to read does not exist;
    ["w"] creates the file or empties it, ["a"] creates it or keeps what it
    holds. *)
Definition fopen (filename mode : string) (fs : filesystem)
  : M (ptr * filesystem) :=
  refused <- next_fault ;;
  if refused : bool then ret (NULL, fs)
  else if decide (mode = "rb") then
    match stored fs !! filename with
    | None => ret (NULL, fs)
    | Some bytes => open_stream filename bytes (stored fs) fs
    end
  else if decide (mode = "w") then
    open_stream filename [] (<[filename := []]> (stored fs)) fs
  else if decide (mode = "a") then
    let bytes := default [] (stored fs !! filename) in
    open_stream filename bytes (<[filename := bytes]> (stored fs)) fs
  else ret (NULL, fs).

(** What closing the stream [f] with contents [F] leaves on the disk. *)
Definition write_back (f : loc) (F : FILE) (fs : filesystem)
  : gmap string (list ascii) :=
  match opened fs !! f with
  | Some filename => <[filename := on_disk F ++ pending F]> (stored fs)
  | None => stored fs
  end.

(** [fclose]: what is buffered is written, unless the environment makes
    the write fail, and the stream is gone either way. *)
Definition fclose (f : loc) (fs : filesystem) : M (Z * filesystem) :=
  F <- load_file f ;;
  fails <- next_fault ;;
  fun w =>
    Done (if fails : bool then -1 else 0,
          {| stored := if fails : bool then stored fs else write_back f F fs;
             opened := delete f (opened fs) |})
      (with_files (delete f (files w)) w).

(** The value of [EXIT_FAILURE] in [stdlib.h]. *)
Definition EXIT_FAILURE : Z := 1.

(** [exit(status)]: the streams that are open are flushed and closed, and
    the process ends with [status]. *)
Definition exit (status : Z) (fs : filesystem) : M (Z * filesystem) :=
  fun w =>
    Done (status,
          {| stored :=
               map_fold (λ f F st,
                           match opened fs !! f with
                           | Some filename => <[filename := on_disk F ++ pending F]> st
                           | None => st
                           end) (stored fs) (files w);
             opened := ∅ |})
      (with_files ∅ w).

Definition open_error : list ascii := line "Unable to open the specified file".

(** Lines 26-33. *)
Definition initialize_file (filename : string) (append : bool)
    (fs : filesystem) : M (ptr * filesystem) :=
  r <- fopen filename (if append then "a" else "w") fs ;;
  match r.1 with
  | None => perror "Unable to open the specified file" ;; ret r
  | Some _ => ret r
  end.

(** The messages of lines 154, 161 and 182. *)
Definition files_error : list ascii := line "Error: Could not open required files.".
Definition init_error : list ascii :=
  line "Error: Failed to initialize shared buffer.".
Definition free_error : list ascii := line "Error: Could not free the shared buffer.".

(** Lines 145-192.  [threads producer_args consumer_args] stands for lines
    170-178: the run of the producer and of the two consumers from their
    creation until [pthread_join] has returned for the three of them.
    [fuel] bounds the iterations of the loop of [sbuffer_free].  The
    result is the exit status of the process. *)
Definition main (threads : thread_parameters_t → thread_parameters_t → M unit)
    (fuel : nat) (fs : filesystem) : M (Z * filesystem) :=
  (fun w => Done tt (with_csv_mutex false w)) ;;
  r1 <- fopen "sensor_data" "rb" fs ;;
  let sensor_data_file := r1.1 in
  r2 <- initialize_file "sensor_data_out.csv" false r1.2 ;;
  let csv_output_file := r2.1 in
  let fs := r2.2 in
  match sensor_data_file, csv_output_file with
  | Some fi, Some fo =>
      r <- sbuffer_init ;;
      let shared_buffer := r.2 in
      if decide (r.1 = SBUFFER_SUCCESS) then
        let producer_args :=
          {| shared_buf := shared_buffer; sensor_file := sensor_data_file |} in
        let consumer_args :=
          {| shared_buf := shared_buffer; sensor_file := csv_output_file |} in
        threads producer_args consumer_args ;;
        r <- sbuffer_free fuel (Some shared_buffer) ;;
        if decide (r.1 = SBUFFER_SUCCESS) then
          r3 <- fclose fi fs ;;
          r4 <- fclose fo r3.2 ;;
          ret (0, r4.2)
        else
          eprintf free_error [] ;;
          exit EXIT_FAILURE fs
      else
        eprintf init_error [] ;;
        exit EXIT_FAILURE fs
  | _, _ =>
      eprintf files_error [] ;;
      exit EXIT_FAILURE fs
  end.

(** The three threads one after the other, the consumers with [id == 0] in
    their uninitialised [retrieved_data]: one of the schedules of lines
    170-178. *)
Definition one_after_the_other (cfg : config_h) (fuel : nat)
    (producer_args consumer_args : thread_parameters_t) : M unit :=
  producer_thread fuel cfg producer_args ;;
  consumer_thread fuel consumer_args end_signal ;;
  consumer_thread fuel consumer_args end_signal.

(** A machine that holds an empty input file and has no stream open. *)
Definition empty_input : filesystem :=
  {| stored := {[ "sensor_data"%string := [] ]}; opened := ∅ |}.

(** A process at its start: nothing allocated, no stream open, and an
    environment that injects no failure. *)
Definition boot : world :=
  {| mem := ∅; files := ∅; stdout := []; stderr := []; csv_mutex := false;
     faults := [] |}.

(** The two file names of lines 150 and 151. *)
Definition input_name : string := "sensor_data".
Definition output_name : string := "sensor_data_out.csv".

(** Lines 180-191, for the queue and the two streams. *)
Definition main_cleanup (fuel : nat) (shared_buffer : ptr) (fi fo : loc)
    (fs : filesystem) : M (Z * filesystem) :=
  r <- sbuffer_free fuel (Some shared_buffer) ;;
  if decide (r.1 = SBUFFER_SUCCESS) then
    r3 <- fclose fi fs ;;
    r4 <- fclose fo r3.2 ;;
    ret (0, r4.2)
  else
    eprintf free_error [] ;;
    exit EXIT_FAILURE fs.

(** Lines 158-191, for the two streams. *)
Definition main_run (threads : thread_parameters_t → thread_parameters_t → M unit)
    (fuel : nat) (fi fo : loc) (fs : filesystem) : M (Z * filesystem) :=
  r <- sbuffer_init ;;
  if decide (r.1 = SBUFFER_SUCCESS) then
    threads {| shared_buf := r.2; sensor_file := Some fi |}
      {| shared_buf := r.2; sensor_file := Some fo |} ;;
    main_cleanup fuel r.2 fi fo fs
  else
    eprintf init_error [] ;;
    exit EXIT_FAILURE fs.

(** The input stream when it has just been opened on a file that holds
    [bytes]. *)
Definition input_stream (bytes : list ascii) : FILE :=
  {| on_disk := bytes; rpos := 0; pending := [] |}.

(** The handles [fopen] and [malloc] give when no stream is open at the
    start of [main]. *)
Definition input_handle : loc := fresh (dom (∅ : gmap loc FILE)).

Definition output_handle (bytes : list ascii) : loc :=
  fresh (dom ({[ input_handle := input_stream bytes ]} : gmap loc FILE)).

Definition queue_handle (w : world) : loc := fresh (dom (mem w)).

(** The world in which the threads are created, when nothing has failed
    and no stream was open in [w]: the queue and the two streams are the
    only new objects. *)
Definition thread_start (bytes : list ascii) (w : world) : world :=
  {| mem := <[queue_handle w := Buffer empty_sbuffer]> (mem w);
     files := <[output_handle bytes := empty_file]>
                {[ input_handle := input_stream bytes ]};
     stdout := stdout w; stderr := stderr w; csv_mutex := false;
     faults := drop 5 (faults w) |}.

(** The files once the two streams are open. *)
Definition files_open (fs : filesystem) (bytes : list ascii) : filesystem :=
  {| stored := <[output_name := []]> (stored fs);
     opened := <[output_handle bytes := output_name]>
                 (<[input_handle := input_name]> (opened fs)) |}.

(** ** Basic facts about worlds and the monad *)

Lemma world_eta w :
  {| mem := mem w; files := files w; stdout := stdout w; stderr := stderr w;
     csv_mutex := csv_mutex w; faults := faults w |} = w.
Proof. by destruct w. Qed.

Lemma with_mem_id w : with_mem (mem w) w = w.
Proof. apply world_eta. Qed.

Lemma bind_Done {A B} (c : M A) (k : A → M B) w a w' :
  c w = Done a w' → bind c k w = k a w'.
Proof. unfold bind. by intros ->. Qed.

Lemma bind_Blocked {A B} (c : M A) (k : A → M B) w w' :
  c w = Blocked w' → bind c k w = Blocked w'.
Proof. unfold bind. by intros ->. Qed.

Lemma load_buffer_Done b s w :
  mem w !! b = Some (Buffer s) → load_buffer b w = Done s w.
Proof. unfold load_buffer. by intros ->. Qed.

Lemma store_buffer_Done b s s' w :
  mem w !! b = Some (Buffer s) →
  store_buffer b s' w = Done tt (with_mem (<[b := Buffer s']> (mem w)) w).
Proof. unfold store_buffer. by intros ->. Qed.

Lemma load_node_Done l n w :
  mem w !! l = Some (Node n) → load_node l w = Done n w.
Proof. unfold load_node. by intros ->. Qed.

Lemma store_node_Done l n n' w :
  mem w !! l = Some (Node n) →
  store_node l n' w = Done tt (with_mem (<[l := Node n']> (mem w)) w).
Proof. unfold store_node. by intros ->. Qed.

Lemma pthread_mutex_lock_free b s w :
  mem w !! b = Some (Buffer s) → mutex s = false →
  pthread_mutex_lock b w
  = Done tt (with_mem (<[b := Buffer (set_mutex true s)]> (mem w)) w).
Proof.
  intros Hb Hm. unfold pthread_mutex_lock.
  rewrite (bind_Done _ _ _ _ _ (load_buffer_Done _ _ _ Hb)), Hm.
  by apply store_buffer_Done with s.
Qed.

Lemma pthread_mutex_lock_held b s w :
  mem w !! b = Some (Buffer s) → mutex s = true →
  pthread_mutex_lock b w = Blocked w.
Proof.
  intros Hb Hm. unfold pthread_mutex_lock.
  by rewrite (bind_Done _ _ _ _ _ (load_buffer_Done _ _ _ Hb)), Hm.
Qed.

Lemma pthread_mutex_unlock_Done b s w :
  mem w !! b = Some (Buffer s) →
  pthread_mutex_unlock b w
  = Done tt (with_mem (<[b := Buffer (set_mutex false s)]> (mem w)) w).
Proof.
  intros Hb. unfold pthread_mutex_unlock.
  rewrite (bind_Done _ _ _ _ _ (load_buffer_Done _ _ _ Hb)).
  by apply store_buffer_Done with s.
Qed.

Lemma malloc_granted o w :
  pending_fault w = false →
  malloc o w
  = Done (Some (fresh (dom (mem w))))
      (with_mem (<[fresh (dom (mem w)) := o]> (mem w))
         (with_faults (drop 1 (faults w)) w)).
Proof. unfold malloc, bind, next_fault. by intros ->. Qed.

Lemma malloc_refused o w :
  pending_fault w = true →
  malloc o w = Done NULL (with_faults (drop 1 (faults w)) w).
Proof. unfold malloc, bind, next_fault. by intros ->. Qed.

Lemma fresh_unallocated (m : gmap loc obj) : m !! fresh (dom m) = None.
Proof. apply not_elem_of_dom, is_fresh. Qed.

(** ** Chains *)

Lemma chain_ext m m' p cells :
  (∀ x, x ∈ cells.*1 → m' !! x = m !! x) →
  chain m p cells → chain m' p cells.
Proof.
  revert p. induction cells as [|[l d] rest IH]; intros p Hagree; simpl; [done|].
  intros [-> (nx & Hl & Hrest)]. split; [done|]. exists nx. split.
  - rewrite Hagree; [done|]. simpl. left.
  - apply IH; [|done]. intros x Hx. apply Hagree. simpl. by right.
Qed.

Lemma chain_allocated m p cells x :
  chain m p cells → x ∈ cells.*1 → ∃ n, m !! x = Some (Node n).
Proof.
  revert p. induction cells as [|[l d] rest IH]; intros p; simpl.
  - intros _ Hx. by apply elem_of_nil in Hx.
  - intros [_ (nx & Hl & Hrest)] Hx. apply elem_of_cons in Hx as [->|Hx]; eauto.
Qed.

Lemma chain_head_None m cells : chain m NULL cells → cells = [].
Proof. destruct cells as [|[l d] rest]; simpl; [done|]. by intros [? _]. Qed.

Lemma last_loc_None cells : last_loc cells = None → cells = [].
Proof.
  unfold last_loc. destruct (last cells) eqn:E; [done|].
  intros _. by apply last_None.
Qed.

Lemma last_loc_snoc cells c : last_loc (cells ++ [c]) = Some c.1.
Proof. unfold last_loc. by rewrite last_snoc. Qed.

Lemma last_loc_cons c cells :
  cells ≠ [] → last_loc (c :: cells) = last_loc cells.
Proof. unfold last_loc. destruct cells; [done|]. by intros _. Qed.

Lemma last_loc_elem cells l : last_loc cells = Some l → l ∈ cells.*1.
Proof.
  unfold last_loc. destruct (last cells) as [c|] eqn:E; [|done].
  intros [= <-]. apply list_elem_of_fmap. exists c. split; [done|].
  apply last_Some in E as [pre ->]. set_solver.
Qed.

Lemma chain_snoc m m' p cells t dt l d :
  NoDup (cells ++ [(t, dt)]).*1 →
  (∀ x, x ∈ cells.*1 → m' !! x = m !! x) →
  m' !! t = Some (Node {| next := Some l; data := dt |}) →
  m' !! l = Some (Node {| next := NULL; data := d |}) →
  chain m p (cells ++ [(t, dt)]) →
  chain m' p ((cells ++ [(t, dt)]) ++ [(l, d)]).
Proof.
  revert p. induction cells as [|[a da] rest IH]; intros p Hnd Hagree Ht Hl; simpl.
  - intros [-> _]. split; [done|]. exists (Some l). split; [done|].
    split; [done|]. by exists NULL.
  - intros [-> (nx & Ha & Hrest)]. split; [done|]. exists nx.
    simpl in Hnd. apply NoDup_cons in Hnd as [Hnotin Hnd]. split.
    + rewrite Hagree; [done|]. simpl. left.
    + apply IH; [done| |done|done|done].
      intros x Hx. apply Hagree. simpl. by right.
Qed.

(** ** Specifications of the queue operations *)

Ltac mem_lookup :=
  simpl;
  repeat first
    [ rewrite lookup_insert_eq
    | rewrite lookup_insert_ne by congruence
    | rewrite lookup_delete_ne by congruence ];
  first [ eassumption | reflexivity ].

Lemma is_queue_not_node m b cells : is_queue m b cells → b ∉ cells.*1.
Proof.
  intros (s & Hb & _ & Hch & _) Hin.
  destruct (chain_allocated _ _ _ _ Hch Hin) as [n Hn]. congruence.
Qed.

Lemma chain_last m p pre t dt :
  chain m p (pre ++ [(t, dt)]) → m !! t = Some (Node {| next := NULL; data := dt |}).
Proof.
  revert p. induction pre as [|[a da] pre IH]; simpl.
  - by intros p [-> (nx & Hn & ->)].
  - intros p [-> (nx & _ & Hrest)]. eauto.
Qed.

Lemma sbuffer_insert_ok w b cells d :
  is_queue (mem w) b cells → pending_fault w = false →
  ∃ m', sbuffer_insert (Some b) d w
        = Done SBUFFER_SUCCESS (with_mem m' (with_faults (drop 1 (faults w)) w)) ∧
        is_queue m' b (cells ++ [(fresh (dom (mem w)), d)]).
Proof.
  intros Hq Hf. pose proof (is_queue_not_node _ _ _ Hq) as Hbn.
  destruct Hq as (s & Hb & Hm & Hch & Htl & Hnd).
  set (l := fresh (dom (mem w))).
  assert (Hl : mem w !! l = None) by apply fresh_unallocated.
  assert (Hlb : l ≠ b) by congruence.
  assert (Hlc : l ∉ cells.*1).
  { intros Hin. destruct (chain_allocated _ _ _ _ Hch Hin) as [n Hn]. congruence. }
  unfold sbuffer_insert, insert_locked, pthread_cond_signal, bind, ret.
  rewrite malloc_granted by done. fold l.
  erewrite pthread_mutex_lock_free by mem_lookup.
  erewrite load_buffer_Done by mem_lookup. cbn [tail set_mutex].
  destruct (tail s) as [t|] eqn:Ht.
  - (* the queue has a last node [t] *)
    symmetry in Htl. 
    unfold last_loc in Htl. destruct (last cells) as [[t' dt]|] eqn:Hlast; [|done].
    simpl in Htl. injection Htl as ->.
    apply last_Some in Hlast as [pre ->].
    pose proof (chain_last _ _ _ _ _ Hch) as Ht_node.
    assert (Htb : t ≠ b) by congruence.
    assert (Htl' : t ≠ l) by congruence.
    cbv beta iota.
    erewrite load_node_Done by mem_lookup.
    erewrite store_node_Done by mem_lookup.
    erewrite load_node_Done by mem_lookup.
    erewrite store_buffer_Done by mem_lookup.
    erewrite load_buffer_Done by mem_lookup.
    erewrite pthread_mutex_unlock_Done by mem_lookup.
    eexists. split; [reflexivity|]. simpl.
    eexists. split; [apply lookup_insert_eq|]. split; [done|]. simpl. split; [|split].
    + eapply chain_snoc; [done| | | |exact Hch].
      * intros x Hx.
        assert (Hx' : x ∈ (pre ++ [(t, dt)]).*1).
        { rewrite fmap_app. apply elem_of_app. by left. }
        assert (x ≠ t).
        { intros ->. rewrite fmap_app in Hnd. apply NoDup_app in Hnd as (_ & Hd & _).
          apply (Hd t Hx). simpl. left. }
        assert (x ≠ b) by (by intros ->).
        assert (x ≠ l) by (by intros ->).
        by rewrite !lookup_insert_ne by done.
      * rewrite !lookup_insert_ne by done. apply lookup_insert_eq.
      * rewrite !lookup_insert_ne by done. apply lookup_insert_eq.
    + by rewrite last_loc_snoc.
    + rewrite fmap_app. apply NoDup_app. split; [done|]. split; [|apply NoDup_singleton].
      intros x Hx. simpl. intros ->%list_elem_of_singleton. done.
  - symmetry in Htl. apply last_loc_None in Htl as ->.
    cbv beta iota.
    erewrite store_buffer_Done by mem_lookup.
    erewrite load_buffer_Done by mem_lookup.
    erewrite pthread_mutex_unlock_Done by mem_lookup.
    eexists. split; [reflexivity|]. simpl.
    eexists. split; [apply lookup_insert_eq|]. split; [done|]. simpl. split; [|split].
    + split; [done|]. exists NULL. split; [|done]. by rewrite !lookup_insert_ne, lookup_insert_eq by done.
    + done.
    + apply NoDup_singleton.
Qed.

Lemma relock_id (m : gmap loc obj) b s :
  m !! b = Some (Buffer s) → mutex s = false →
  <[b := Buffer (set_mutex false (set_mutex true s))]>
    (<[b := Buffer (set_mutex true s)]> m) = m.
Proof.
  intros Hb Hm. rewrite insert_insert_eq. apply insert_id.
  rewrite Hb. destruct s; simpl in *. by subst.
Qed.

Lemma vformat_no_data : vformat no_data_message [] = Some no_data_message.
Proof. reflexivity. Qed.

Lemma world_ext w1 w2 :
  mem w1 = mem w2 → files w1 = files w2 → stdout w1 = stdout w2 →
  stderr w1 = stderr w2 → csv_mutex w1 = csv_mutex w2 → faults w1 = faults w2 →
  w1 = w2.
Proof. destruct w1, w2; simpl; by intros -> -> -> -> -> ->. Qed.

Lemma sbuffer_remove_sentinel w b s h n out :
  mem w !! b = Some (Buffer s) → mutex s = false →
  head s = Some h → mem w !! h = Some (Node n) → id (data n) = 0 →
  sbuffer_remove (Some b) out w
  = Done (SBUFFER_NO_DATA, out) (with_stdout (stdout w ++ no_data_message) w).
Proof.
  intros Hb Hm Hh Hn Hid.
  assert (Hbh : b ≠ h) by congruence.
  unfold sbuffer_remove, wait_while_empty, remove_locked, bind, ret.
  erewrite pthread_mutex_lock_free by mem_lookup.
  erewrite load_buffer_Done by mem_lookup. cbn [head set_mutex]. rewrite Hh.
  erewrite load_buffer_Done by mem_lookup. cbn [head set_mutex]. rewrite Hh.
  erewrite load_node_Done by mem_lookup. rewrite Hid. cbv beta iota. simpl (0 =? 0).
  cbv beta iota.
  erewrite pthread_mutex_unlock_Done by mem_lookup.
  unfold printf. rewrite vformat_no_data.
  f_equal. apply world_ext; simpl; try done. by apply relock_id.
Qed.

Lemma sbuffer_remove_empty w b s out :
  mem w !! b = Some (Buffer s) → mutex s = false → head s = NULL →
  sbuffer_remove (Some b) out w = Blocked w.
Proof.
  intros Hb Hm Hh.
  unfold sbuffer_remove, wait_while_empty, pthread_cond_wait, block, bind, ret.
  erewrite pthread_mutex_lock_free by mem_lookup.
  erewrite load_buffer_Done by mem_lookup. cbn [head set_mutex]. rewrite Hh.
  cbv beta iota.
  erewrite pthread_mutex_unlock_Done by mem_lookup.
  f_equal. apply world_ext; simpl; try done. by apply relock_id.
Qed.

Lemma sbuffer_remove_ok w b h d rest out :
  is_queue (mem w) b ((h, d) :: rest) → is_sentinel d = false →
  ∃ m', sbuffer_remove (Some b) out w = Done (SBUFFER_SUCCESS, d) (with_mem m' w) ∧
        is_queue m' b rest.
Proof.
  intros Hq Hd. pose proof (is_queue_not_node _ _ _ Hq) as Hbn.
  destruct Hq as (s & Hb & Hm & Hch & Htl & Hnd).
  destruct Hch as [Hh (nx & Hn & Hrest)].
  assert (Hbh : b ≠ h) by congruence.
  simpl in Hnd. apply NoDup_cons in Hnd as [Hh_rest Hnd].
  unfold sbuffer_remove, wait_while_empty, remove_locked, bind, ret.
  erewrite pthread_mutex_lock_free by mem_lookup.
  erewrite load_buffer_Done by mem_lookup. cbn [head set_mutex]. rewrite Hh.
  erewrite load_buffer_Done by mem_lookup. cbn [head tail set_mutex]. rewrite Hh.
  erewrite load_node_Done by mem_lookup. cbn [data next]. 
  unfold is_sentinel in Hd. rewrite Hd.
  assert (Hagree : ∀ (m : gmap loc obj) o o' x, x ∈ rest.*1 →
     (<[b := o']> (delete h (<[b := o]> m))) !! x = m !! x).
  { intros m o o' x Hx. assert (x ≠ b). { intros ->. apply Hbn. simpl. by right. }
    assert (x ≠ h) by (by intros ->).
    by rewrite lookup_insert_ne, lookup_delete_ne, lookup_insert_ne by done. }
  case_decide as Heq; [|rename Heq into Hne]; cbv beta iota.
  - assert (rest = []) as ->.
    { destruct rest as [|c rest']; [done|]. exfalso.
      rewrite Htl, last_loc_cons in Heq by done. symmetry in Heq.
      apply last_loc_elem in Heq. done. }
    erewrite store_buffer_Done by mem_lookup.
    unfold free. simpl. rewrite lookup_insert_ne, lookup_insert_ne, Hn by done.
    erewrite pthread_mutex_unlock_Done.
    2:{ simpl. rewrite lookup_delete_ne by done. apply lookup_insert_eq. }
    eexists. split; [reflexivity|].
    eexists. split; [apply lookup_insert_eq|]. repeat split; simpl; constructor.
  - assert (rest ≠ []).
    { intros ->. apply Hne. by rewrite Htl. }
    erewrite store_buffer_Done by mem_lookup.
    unfold free. simpl. rewrite lookup_insert_ne, lookup_insert_ne, Hn by done.
    erewrite pthread_mutex_unlock_Done.
    2:{ simpl. rewrite lookup_delete_ne by done. apply lookup_insert_eq. }
    eexists. split; [reflexivity|].
    eexists. split; [apply lookup_insert_eq|]. split; [done|]. simpl. split; [|split].
    + eapply chain_ext; [|exact Hrest]. intros x Hx.
      rewrite insert_insert_eq. by apply Hagree.
    + by rewrite Htl, last_loc_cons.
    + done.
Qed.

Lemma sbuffer_insert_null d w : sbuffer_insert NULL d w = Done SBUFFER_FAILURE w.
Proof. reflexivity. Qed.

Lemma sbuffer_insert_oom b d w :
  pending_fault w = true →
  sbuffer_insert (Some b) d w
  = Done SBUFFER_FAILURE (with_faults (drop 1 (faults w)) w).
Proof.
  intros Hf. unfold sbuffer_insert, bind. by rewrite malloc_refused.
Qed.

Lemma free_Done l o w :
  mem w !! l = Some o → free l w = Done tt (with_mem (delete l (mem w)) w).
Proof. unfold free. by intros ->. Qed.

Ltac wsimpl :=
  cbn [mem files stdout stderr csv_mutex faults with_mem with_files
       with_stdout with_stderr with_csv_mutex with_faults].

Ltac destruct_fault H :=
  match goal with
  | |- context [if pending_fault ?W then _ else _] =>
      destruct (pending_fault W) eqn:H; cbv beta iota
  end.

Lemma sbuffer_init_Done w st p w' :
  sbuffer_init w = Done (st, p) w' →
  st = SBUFFER_SUCCESS →
  ∃ b, p = Some b ∧ mem w !! b = None ∧
       mem w' = <[b := Buffer empty_sbuffer]> (mem w) ∧
       is_queue (mem w') b [].
Proof.
  unfold sbuffer_init, bind, ret.
  destruct (pending_fault w) eqn:Hf1.
  { rewrite malloc_refused by done. by intros [= <- <- <-]. }
  rewrite malloc_granted by done.
  unfold next_fault.
  destruct_fault Hf2.
  { erewrite free_Done by (wsimpl; apply lookup_insert_eq). by intros [= <- <- <-]. }
  destruct_fault Hf3.
  { erewrite free_Done by (wsimpl; apply lookup_insert_eq). by intros [= <- <- <-]. }
  intros [= <- <- <-] _. eexists. split; [done|]. split; [apply fresh_unallocated|].
  split; [done|]. wsimpl.
  exists empty_sbuffer. split; [apply lookup_insert_eq|]. repeat split. constructor.
Qed.

Lemma is_queue_head m b cells :
  is_queue m b cells →
  ∃ s, m !! b = Some (Buffer s) ∧ mutex s = false ∧
       match cells with
       | [] => head s = NULL
       | (h, d) :: _ => head s = Some h ∧ ∃ nx, m !! h = Some (Node {| next := nx; data := d |})
       end.
Proof.
  intros (s & Hb & Hm & Hch & _). exists s. split; [done|]. split; [done|].
  destruct cells as [|[h d] rest]; simpl in Hch; [done|].
  destruct Hch as [? (nx & ? & _)]. eauto.
Qed.

Lemma remove_calls_expected n : ∀ w b cells out,
  is_queue (mem w) b cells →
  (remove_calls n (Some b) out w).1 = expected n cells.*2 out.
Proof.
  induction n as [|n IH]; intros w b cells out Hq; [done|].
  destruct (is_queue_head _ _ _ Hq) as (s & Hb & Hm & Hhead).
  destruct cells as [|[h d] rest]; cbn [remove_calls expected fmap list_fmap snd].
  - by erewrite sbuffer_remove_empty.
  - destruct Hhead as [Hh (nx & Hn)]. destruct (is_sentinel d) eqn:Hd.
    + erewrite sbuffer_remove_sentinel; [|done..|by apply Z.eqb_eq].
      cbn [fst snd]. f_equal. by apply (IH _ _ ((h, d) :: rest)).
    + destruct (sbuffer_remove_ok w b h d rest out Hq Hd) as (m' & -> & Hq').
      cbn [fst snd]. f_equal. by apply IH.
Qed.

(** *** The list model of a run of removes *)

Lemma removed_expected n : ∀ rs out,
  removed (expected n rs out) = take n (before_sentinel rs).
Proof.
  induction n as [|n IH]; intros rs out; [done|].
  destruct rs as [|r rs]; [done|]. cbn [expected before_sentinel].
  destruct (is_sentinel r) eqn:Hr.
  - unfold removed. cbn [omap list_omap fst]. rewrite decide_False by done.
    fold (removed (expected n (r :: rs) out)). rewrite IH.
    cbn [before_sentinel]. rewrite Hr. by rewrite take_nil.
  - unfold removed. cbn [omap list_omap fst snd]. rewrite decide_True by done.
    fold (removed (expected n rs r)). by rewrite IH.
Qed.

Lemma expected_success n : ∀ rs out i r,
  expected n rs out !! i = Some (SBUFFER_SUCCESS, r)
  ↔ (i < n)%nat ∧ before_sentinel rs !! i = Some r.
Proof.
  induction n as [|n IH]; intros rs out i r.
  { split; [done|]. intros [? _]. lia. }
  destruct rs as [|r0 rs]; cbn [expected before_sentinel].
  { split; [done|]. by intros [_ ?]. }
  destruct (is_sentinel r0) eqn:Hr.
  - destruct i as [|i]; cbn [lookup list_lookup].
    + split; [done|]. by intros [_ ?].
    + rewrite IH. cbn [before_sentinel]. rewrite Hr. split; by intros [_ ?].
  - destruct i as [|i]; cbn [lookup list_lookup].
    + split; [intros [= ->]; split; [lia|done] | by intros [_ [= ->]]].
    + rewrite IH. split; intros [? ?]; split; (lia || done).
Qed.

Lemma expected_status n : ∀ rs out i st r,
  expected n rs out !! i = Some (st, r) →
  st = SBUFFER_SUCCESS ∨ st = SBUFFER_NO_DATA.
Proof.
  induction n as [|n IH]; intros rs out i st r; [done|].
  destruct rs as [|r0 rs]; cbn [expected]; [done|].
  destruct (is_sentinel r0); destruct i as [|i]; cbn [lookup list_lookup];
    try (intros [= <- <-]; by eauto); by apply IH.
Qed.

Lemma before_sentinel_prefix rs : before_sentinel rs `prefix_of` rs.
Proof.
  induction rs as [|r rs IH]; [done|]. cbn [before_sentinel].
  destruct (is_sentinel r); [apply prefix_nil|]. by apply prefix_cons.
Qed.

Lemma before_sentinel_all rs :
  Forall (λ r, is_sentinel r = false) rs → before_sentinel rs = rs.
Proof.
  induction 1 as [|r rs Hr _ IH]; [done|]. cbn [before_sentinel].
  by rewrite Hr, IH.
Qed.

Lemma before_sentinel_app data r rest :
  Forall (λ r, is_sentinel r = false) data → is_sentinel r = true →
  before_sentinel (data ++ r :: rest) = data.
Proof.
  intros Hdata Hr. induction Hdata as [|r0 data Hr0 _ IH]; cbn [app before_sentinel].
  - by rewrite Hr.
  - by rewrite Hr0, IH.
Qed.

(** *** Runs of inserts *)

Lemma sbuffer_insert_cases w b cells d :
  is_queue (mem w) b cells →
  (pending_fault w = true ∧
   sbuffer_insert (Some b) d w
   = Done SBUFFER_FAILURE (with_faults (drop 1 (faults w)) w))
  ∨ (pending_fault w = false ∧
     ∃ m', sbuffer_insert (Some b) d w
           = Done SBUFFER_SUCCESS
               (with_mem m' (with_faults (drop 1 (faults w)) w)) ∧
           is_queue m' b (cells ++ [(fresh (dom (mem w)), d)])).
Proof.
  intros Hq. destruct (pending_fault w) eqn:Hf.
  - left. split; [done|]. by apply sbuffer_insert_oom.
  - right. split; [done|]. by apply sbuffer_insert_ok.
Qed.

Lemma insert_all_success rs : ∀ w b cells sts w1,
  is_queue (mem w) b cells →
  insert_all (Some b) rs w = Done sts w1 →
  Forall (eq SBUFFER_SUCCESS) sts →
  ∃ cells', is_queue (mem w1) b (cells ++ cells') ∧ cells'.*2 = rs.
Proof.
  induction rs as [|r rs IH]; intros w b cells sts w1 Hq; cbn [insert_all].
  - intros [= <- <-] _. exists []. by rewrite app_nil_r.
  - unfold bind.
    destruct (sbuffer_insert_cases w b cells r Hq) as [[_ ->]|[_ (m' & -> & Hq')]].
    + destruct (insert_all _ _ _); try done. intros [= <- <-] Hall.
      apply Forall_cons in Hall as [? _]. done.
    + destruct (insert_all (Some b) rs _) as [sts' w2| | |] eqn:Hrun; try done.
      unfold ret. intros [= <- <-] Hall. apply Forall_cons in Hall as [_ Hall].
      destruct (IH (with_mem m' _) _ _ _ _ Hq' Hrun Hall) as (cells' & Hq'' & <-).
      exists ((fresh (dom (mem w)), r) :: cells').
      split; [by rewrite <- app_assoc in Hq''|done].
Qed.

(** *** Releasing the queue *)

Lemma set_head_set_head p q s : set_head p (set_head q s) = set_head p s.
Proof. done. Qed.

Lemma set_head_id s : set_head (head s) s = s.
Proof. by destruct s. Qed.

Lemma free_nodes_spec cells : ∀ fuel w b s,
  mem w !! b = Some (Buffer s) → chain (mem w) (head s) cells →
  NoDup cells.*1 → (length cells < fuel)%nat →
  ∃ m', free_nodes fuel b w = Done tt (with_mem m' w)
        ∧ m' !! b = Some (Buffer (set_head NULL s))
        ∧ (∀ l, l ∈ cells.*1 → m' !! l = None)
        ∧ (∀ l, l ∉ cells.*1 → l ≠ b → m' !! l = mem w !! l).
Proof.
  induction cells as [|[h d] rest IH]; intros fuel w b s Hb Hch Hnd Hfuel;
    (destruct fuel as [|fuel]; [cbn in Hfuel; lia|]);
    cbn [free_nodes]; unfold bind;
    rewrite (load_buffer_Done _ _ _ Hb).
  - cbn in Hch. rewrite Hch. exists (mem w). unfold ret. rewrite with_mem_id.
    split; [done|]. split; [by rewrite <- Hch, set_head_id|].
    split; [by intros l ?%elem_of_nil|done].
  - destruct Hch as [Hh (nx & Hn & Hrest)]. rewrite Hh.
    assert (Hbh : b ≠ h) by congruence.
    cbn [fmap list_fmap fst] in Hnd. apply NoDup_cons in Hnd as [Hh_rest Hnd].
    assert (Hb_rest : b ∉ rest.*1).
    { intros Hin. destruct (chain_allocated _ _ _ _ Hrest Hin) as [n' Hn'].
      congruence. }
    rewrite (load_node_Done _ _ _ Hn). cbn [next].
    rewrite (store_buffer_Done _ _ _ _ Hb).
    erewrite free_Done by (cbn [mem with_mem]; rewrite lookup_insert_ne by done; exact Hn).
    cbn [mem with_mem].
    set (m2 := delete h (<[b := Buffer (set_head nx s)]> (mem w))).
    destruct (IH fuel (with_mem m2 (with_mem (<[b := Buffer (set_head nx s)]> (mem w)) w))
                b (set_head nx s)) as (m' & Hrun & Hb' & Hfreed & Hother).
    + subst m2. cbn [mem with_mem]. rewrite lookup_delete_ne by done.
      apply lookup_insert_eq.
    + cbn [mem with_mem head set_head]. eapply chain_ext; [|exact Hrest].
      intros x Hx. subst m2.
      assert (x ≠ h) by (by intros ->). assert (x ≠ b) by (by intros ->).
      by rewrite lookup_delete_ne, lookup_insert_ne.
    + done.
    + cbn in Hfuel. lia.
    + exists m'. split; [exact Hrun|]. split; [done|]. split.
      * intros l [->|Hl]%elem_of_cons; [|by apply Hfreed].
        rewrite Hother by done. subst m2. cbn [mem with_mem].
        apply lookup_delete_eq.
      * intros l Hl Hlb. cbn [fmap list_fmap fst] in Hl.
        apply not_elem_of_cons in Hl as [Hlh Hl].
        rewrite Hother by done. subst m2. cbn [mem with_mem].
        by rewrite lookup_delete_ne, lookup_insert_ne.
Qed.

(** [sbuffer_free] on a valid queue: every node and the queue itself are
    released, and the handle is reset to [NULL]. *)
Lemma sbuffer_free_releases fuel w b cells :
  is_queue (mem w) b cells → (length cells < fuel)%nat →
  ∃ m', sbuffer_free fuel (Some (Some b)) w
        = Done (SBUFFER_SUCCESS, NULL) (with_mem m' w)
        ∧ m' !! b = None
        ∧ (∀ l, l ∈ cells.*1 → m' !! l = None)
        ∧ (∀ l, l ∉ cells.*1 → l ≠ b → m' !! l = mem w !! l).
Proof.
  intros Hq Hfuel. pose proof (is_queue_not_node _ _ _ Hq) as Hbn.
  destruct Hq as (s & Hb & _ & Hch & _ & Hnd).
  destruct (free_nodes_spec cells fuel w b s Hb Hch Hnd Hfuel)
    as (m' & Hrun & Hb' & Hfreed & Hother).
  exists (delete b m'). cbn [sbuffer_free]. unfold bind. rewrite Hrun.
  erewrite free_Done by exact Hb'. split; [done|].
  split; [apply lookup_delete_eq|]. split.
  - intros l Hl. rewrite lookup_delete_ne; [by apply Hfreed|]. by intros ->.
  - intros l Hl Hlb. rewrite lookup_delete_ne by done. by apply Hother.
Qed.

Lemma sbuffer_free_null fuel w :
  sbuffer_free fuel None w = Done (SBUFFER_FAILURE, NULL) w
  ∧ sbuffer_free fuel (Some NULL) w = Done (SBUFFER_FAILURE, NULL) w.
Proof. done. Qed.

(** ** The claims about the queue *)

Lemma fresh_queue_is_queue : is_queue (mem fresh_queue) 1%positive [].
Proof.
  exists empty_sbuffer. split; [by vm_compute|]. repeat split. constructor.
Qed.

(** Claim C1 (FIFO).  Records inserted one at a time into an empty queue,
    every insert succeeding, come out in insertion order: the [i]-th
    successful [sbuffer_remove] of a run of removes returns the [i]-th
    inserted record; and when none of the records is a sentinel, as many
    removes as there are records return exactly the records inserted. *)
Theorem sbuffer_fifo w b rs sts w1 :
  is_queue (mem w) b [] →
  insert_all (Some b) rs w = Done sts w1 →
  Forall (eq SBUFFER_SUCCESS) sts →
  (∀ n out i r,
     removed (remove_calls n (Some b) out w1).1 !! i = Some r →
     rs !! i = Some r)
  ∧ (Forall (λ r, is_sentinel r = false) rs →
     ∀ out, removed (remove_calls (length rs) (Some b) out w1).1 = rs).
Proof.
  intros Hq Hins Hall.
  destruct (insert_all_success _ _ _ _ _ _ Hq Hins Hall) as (cells & Hq1 & <-).
  rewrite app_nil_l in Hq1. split.
  - intros n out i r. rewrite (remove_calls_expected _ _ _ _ _ Hq1), removed_expected.
    intros Hi%lookup_take_Some. destruct Hi as [Hi _].
    by eapply prefix_lookup_Some, before_sentinel_prefix.
  - intros Hdata out.
    rewrite (remove_calls_expected _ _ _ _ _ Hq1), removed_expected.
    rewrite before_sentinel_all by done. by rewrite firstn_all.
Qed.

Lemma sbuffer_fifo_witness :
  removed (remove_calls 2 (Some 1%positive) end_signal
             (queue_of [reading_1; reading_2])).1
  = [reading_1; reading_2].
Proof.
  refine (proj2 (sbuffer_fifo fresh_queue 1%positive [reading_1; reading_2]
                   [SBUFFER_SUCCESS; SBUFFER_SUCCESS]
                   (queue_of [reading_1; reading_2]) fresh_queue_is_queue _ _) _ end_signal).
  - by vm_compute.
  - repeat constructor.
  - repeat constructor.
Defined.

(** Claim C6 (no loss, no duplicate, single consumer).  After the records
    [rs] have been inserted, the [i]-th of [n] removes by one consumer is
    successful and returns [r] exactly when [r] is the [i]-th record in
    front of the first sentinel: each such record is returned by one call
    and one only, in order, and [n] removes with [n] at least the number of
    these records return all of them. *)
Theorem single_consumer_exactly_once w b rs sts w1 n out :
  is_queue (mem w) b [] →
  insert_all (Some b) rs w = Done sts w1 →
  Forall (eq SBUFFER_SUCCESS) sts →
  let results := (remove_calls n (Some b) out w1).1 in
  (∀ i r, results !! i = Some (SBUFFER_SUCCESS, r)
          ↔ (i < n)%nat ∧ before_sentinel rs !! i = Some r)
  ∧ removed results = take n (before_sentinel rs)
  ∧ ((length (before_sentinel rs) ≤ n)%nat →
     removed results = before_sentinel rs).
Proof.
  intros Hq Hins Hall results.
  destruct (insert_all_success _ _ _ _ _ _ Hq Hins Hall) as (cells & Hq1 & <-).
  rewrite app_nil_l in Hq1. subst results.
  rewrite (remove_calls_expected _ _ _ _ _ Hq1). split; [|split].
  - intros i r. apply expected_success.
  - apply removed_expected.
  - intros Hn. rewrite removed_expected. by apply take_ge.
Qed.

Lemma single_consumer_exactly_once_witness :
  removed (remove_calls 5 (Some 1%positive) end_signal
             (queue_of [reading_1; reading_2; end_signal; end_signal])).1
  = [reading_1; reading_2].
Proof.
  refine (proj2 (proj2 (single_consumer_exactly_once fresh_queue 1%positive
     [reading_1; reading_2; end_signal; end_signal]
     (replicate 4 SBUFFER_SUCCESS)
     (queue_of [reading_1; reading_2; end_signal; end_signal]) 5 end_signal
     fresh_queue_is_queue _ _)) _).
  - by vm_compute.
  - repeat constructor.
  - vm_compute. lia.
Defined.

Lemma head_record_Some m b d :
  head_record m b = Some d →
  ∃ s h n, m !! b = Some (Buffer s) ∧ head s = Some h ∧
           m !! h = Some (Node n) ∧ data n = d.
Proof.
  unfold head_record. intros H. repeat case_match; simplify_eq. eauto 10.
Qed.

Lemma mutex_free_Some w b s :
  mem w !! b = Some (Buffer s) → mutex_free w b → mutex s = false.
Proof. unfold mutex_free, buffer_at. intros ->. by intros [= ->]. Qed.

Lemma sbuffer_remove_at_sentinel w b d out :
  head_record (mem w) b = Some d → id d = 0 → mutex_free w b →
  sbuffer_remove (Some b) out w
  = Done (SBUFFER_NO_DATA, out) (with_stdout (stdout w ++ no_data_message) w).
Proof.
  intros Hhead Hid Hfree.
  destruct (head_record_Some _ _ _ Hhead) as (s & h & n & Hb & Hh & Hn & <-).
  eapply sbuffer_remove_sentinel; [done|by eapply mutex_free_Some|done..].
Qed.

Lemma remove_calls_sentinel k : ∀ w b d out,
  head_record (mem w) b = Some d → id d = 0 → mutex_free w b →
  remove_calls k (Some b) out w
  = (replicate k (SBUFFER_NO_DATA, out),
     with_stdout (stdout w ++ mjoin (replicate k no_data_message)) w).
Proof.
  induction k as [|k IH]; intros w b d out Hhead Hid Hfree.
  { cbn. f_equal. rewrite app_nil_r. apply world_ext; done. }
  destruct (head_record_Some _ _ _ Hhead) as (s & h & n & Hb & Hh & Hn & <-).
  cbn [remove_calls].
  erewrite sbuffer_remove_sentinel; [|done|by eapply mutex_free_Some|done..].
  cbn [fst snd]. erewrite IH; [|exact Hhead|done|done].
  cbn [fst snd replicate mjoin list_join]. f_equal.
  apply world_ext; try reflexivity. cbn [stdout with_stdout].
  symmetry. apply app_assoc.
Qed.

(** Claim C3 (idempotent drain).  When the record at the head of the queue
    has [id == 0], [sbuffer_remove] returns [SBUFFER_NO_DATA], leaves
    [*data] and the whole heap as they were (it only prints its message),
    and so do any number [k] of repeated calls. *)
Theorem sentinel_head_remove_idempotent w b d out k :
  head_record (mem w) b = Some d → id d = 0 → mutex_free w b →
  sbuffer_remove (Some b) out w
  = Done (SBUFFER_NO_DATA, out) (with_stdout (stdout w ++ no_data_message) w)
  ∧ (remove_calls k (Some b) out w).1 = replicate k (SBUFFER_NO_DATA, out)
  ∧ mem (remove_calls k (Some b) out w).2 = mem w.
Proof.
  intros Hhead Hid Hfree. split.
  - by eapply sbuffer_remove_at_sentinel.
  - by erewrite remove_calls_sentinel.
Qed.

Lemma sentinel_head_remove_idempotent_witness :
  sbuffer_remove (Some 1%positive) reading_1 (queue_of [end_signal; end_signal])
  = Done (SBUFFER_NO_DATA, reading_1)
      (with_stdout (stdout (queue_of [end_signal; end_signal]) ++ no_data_message)
         (queue_of [end_signal; end_signal]))
  ∧ (remove_calls 3 (Some 1%positive) reading_1
       (queue_of [end_signal; end_signal])).1
    = replicate 3 (SBUFFER_NO_DATA, reading_1)
  ∧ mem (remove_calls 3 (Some 1%positive) reading_1
           (queue_of [end_signal; end_signal])).2
    = mem (queue_of [end_signal; end_signal]).
Proof.
  apply (sentinel_head_remove_idempotent _ _ end_signal); by vm_compute.
Defined.

Lemma bind_Done_inv {A B} (c : M A) (k : A → M B) w r w' :
  bind c k w = Done r w' → ∃ a w1, c w = Done a w1 ∧ k a w1 = Done r w'.
Proof. unfold bind. destruct (c w) as [a w1| | |]; [eauto|done..]. Qed.

Lemma remove_locked_failure b out w st out' w' :
  remove_locked b out w = Done (st, out') w' →
  st ≠ SBUFFER_SUCCESS → st = SBUFFER_NO_DATA ∧ out' = out.
Proof.
  unfold remove_locked. intros (s & w1 & _ & Hrun)%bind_Done_inv Hst.
  destruct (head s) as [h|]; [|done].
  apply bind_Done_inv in Hrun as (n & w2 & _ & Hrun).
  destruct (id (data n) =? 0).
  - apply bind_Done_inv in Hrun as (? & w3 & _ & Hrun).
    apply bind_Done_inv in Hrun as (? & w4 & _ & Hrun).
    unfold ret in Hrun. by simplify_eq.
  - apply bind_Done_inv in Hrun as (? & w3 & _ & Hrun).
    apply bind_Done_inv in Hrun as (? & w4 & _ & Hrun).
    apply bind_Done_inv in Hrun as (? & w5 & _ & Hrun).
    unfold ret in Hrun. by simplify_eq.
Qed.

(** Claim C9 (frame of the out-parameter).  Whenever [sbuffer_remove]
    returns a status other than [SBUFFER_SUCCESS], [*data] holds what it held
    before the call; such a return is [SBUFFER_FAILURE] on a [NULL] buffer or
    [SBUFFER_NO_DATA] on a non-[NULL] one. *)
Theorem remove_failure_leaves_data buffer out w st out' w' :
  sbuffer_remove buffer out w = Done (st, out') w' →
  st ≠ SBUFFER_SUCCESS →
  out' = out
  ∧ (buffer = NULL ∧ st = SBUFFER_FAILURE
     ∨ is_Some buffer ∧ st = SBUFFER_NO_DATA).
Proof.
  intros Hrun Hst. destruct buffer as [b|]; cbn [sbuffer_remove] in Hrun.
  - apply bind_Done_inv in Hrun as (? & w1 & _ & Hrun).
    apply bind_Done_inv in Hrun as (? & w2 & _ & Hrun).
    apply remove_locked_failure in Hrun as [-> ->]; [|done]. eauto.
  - unfold ret in Hrun. simplify_eq. eauto.
Qed.

Lemma remove_failure_leaves_data_witness :
  sbuffer_remove (Some 1%positive) reading_1 (queue_of [end_signal])
  = Done (SBUFFER_NO_DATA, reading_1)
      (with_stdout no_data_message (queue_of [end_signal]))
  ∧ reading_1 = reading_1.
Proof.
  assert (sbuffer_remove (Some 1%positive) reading_1 (queue_of [end_signal])
          = Done (SBUFFER_NO_DATA, reading_1)
              (with_stdout no_data_message (queue_of [end_signal]))) as Hrun.
  { vm_compute. reflexivity. }
  split; [exact Hrun|].
  by apply (remove_failure_leaves_data _ _ _ _ _ _ Hrun).
Defined.

(** Claim C4, amended.  [sbuffer_insert] fails in exactly two cases, a
    [NULL] handle and a refused allocation, and both return the same value
    [SBUFFER_FAILURE]; on a valid handle with the allocation granted it
    returns [SBUFFER_SUCCESS] and the record is the new last node. *)
Theorem sbuffer_insert_outcomes w b cells d :
  is_queue (mem w) b cells →
  sbuffer_insert NULL d w = Done SBUFFER_FAILURE w
  ∧ (pending_fault w = true →
     sbuffer_insert (Some b) d w
     = Done SBUFFER_FAILURE (with_faults (drop 1 (faults w)) w))
  ∧ (pending_fault w = false →
     ∃ m', sbuffer_insert (Some b) d w
           = Done SBUFFER_SUCCESS
               (with_mem m' (with_faults (drop 1 (faults w)) w))
           ∧ is_queue m' b (cells ++ [(fresh (dom (mem w)), d)])).
Proof.
  intros Hq. split; [done|]. split; intros Hf.
  - by apply sbuffer_insert_oom.
  - by apply sbuffer_insert_ok.
Qed.

Lemma sbuffer_insert_outcomes_witness :
  sbuffer_insert NULL reading_1 (out_of_memory fresh_queue)
  = Done SBUFFER_FAILURE (out_of_memory fresh_queue)
  ∧ sbuffer_insert (Some 1%positive) reading_1 (out_of_memory fresh_queue)
    = Done SBUFFER_FAILURE fresh_queue.
Proof.
  destruct (sbuffer_insert_outcomes (out_of_memory fresh_queue) 1%positive []
              reading_1 fresh_queue_is_queue) as (Hnull & Hoom & _).
  split; [exact Hnull|].
  etrans; [apply Hoom; reflexivity|]. vm_compute. reflexivity.
Defined.

(** Claim C4 as stated fails: the call on a [NULL] handle and the call whose
    allocation is refused return the same value, so the two causes of
    failure cannot be told apart by it. *)
Lemma insert_failures_indistinguishable :
  insert_status (sbuffer_insert NULL reading_1 fresh_queue)
  = Some SBUFFER_FAILURE
  ∧ insert_status
      (sbuffer_insert (Some 1%positive) reading_1 (out_of_memory fresh_queue))
    = Some SBUFFER_FAILURE.
Proof. split; vm_compute; reflexivity. Qed.

(** *** Reachable worlds *)

Lemma sbuffer_remove_cases w b cells out :
  is_queue (mem w) b cells →
  match cells with
  | [] => sbuffer_remove (Some b) out w = Blocked w
  | (h, d) :: rest =>
      if is_sentinel d then
        sbuffer_remove (Some b) out w
        = Done (SBUFFER_NO_DATA, out)
            (with_stdout (stdout w ++ no_data_message) w)
      else
        ∃ m', sbuffer_remove (Some b) out w
              = Done (SBUFFER_SUCCESS, d) (with_mem m' w) ∧
              is_queue m' b rest
  end.
Proof.
  intros Hq. destruct (is_queue_head _ _ _ Hq) as (s & Hb & Hm & Hhead).
  destruct cells as [|[h d] rest].
  - by eapply sbuffer_remove_empty.
  - destruct Hhead as [Hh (nx & Hn)]. destruct (is_sentinel d) eqn:Hd.
    + eapply (sbuffer_remove_sentinel _ _ _ h); [done..|by apply Z.eqb_eq].
    + by apply (sbuffer_remove_ok _ _ h).
Qed.

Lemma reachable_is_queue b w :
  reachable b w → ∃ cells, is_queue (mem w) b cells.
Proof.
  induction 1 as [w w' Hinit|w op w' _ [cells Hq] Hop].
  - apply sbuffer_init_Done in Hinit as (b' & [= <-] & _ & _ & Hq); eauto.
  - destruct op as [d|out]; cbn [run_op] in Hop; unfold bind in Hop.
    + destruct (sbuffer_insert_cases w b cells d Hq)
        as [[_ Hrun]|[_ (m' & Hrun & Hq')]];
        rewrite Hrun in Hop; cbn in Hop; simplify_eq; eauto.
    + pose proof (sbuffer_remove_cases w b cells out Hq) as Hrun.
      destruct cells as [|[h d] rest].
      * rewrite Hrun in Hop. cbn in Hop. simplify_eq. eauto.
      * destruct (is_sentinel d).
        -- rewrite Hrun in Hop. cbn in Hop. simplify_eq. eauto.
        -- destruct Hrun as (m' & Hrun & Hq'). rewrite Hrun in Hop.
           cbn in Hop. simplify_eq. eauto.
Qed.

Lemma is_queue_head_tail m b cells s :
  is_queue m b cells → m !! b = Some (Buffer s) →
  (head s = NULL ↔ cells = []) ∧ (tail s = NULL ↔ cells = []).
Proof.
  intros (s' & Hb & _ & Hch & Htl & _) Hb'. simplify_eq. split.
  - split.
    + intros Hh. rewrite Hh in Hch. by apply chain_head_None in Hch.
    + by intros ->.
  - rewrite Htl. split; [apply last_loc_None|by intros ->].
Qed.

Lemma is_queue_single m b h d rest s :
  is_queue m b ((h, d) :: rest) → m !! b = Some (Buffer s) →
  head s = tail s → rest = [].
Proof.
  intros (s' & Hb & _ & Hch & Htl & Hnd) Hb' Heq. simplify_eq.
  destruct Hch as [Hh _]. rewrite Hh, Htl in Heq.
  destruct rest as [|c rest]; [done|]. exfalso.
  rewrite last_loc_cons in Heq by done. symmetry in Heq.
  apply last_loc_elem in Heq. simpl in Hnd. by apply NoDup_cons in Hnd as [? _].
Qed.

Lemma buffer_at_Some w b s :
  buffer_at w b = Some s ↔ mem w !! b = Some (Buffer s).
Proof.
  unfold buffer_at. destruct (mem w !! b) as [[s'|n]|]; split; intros; by simplify_eq.
Qed.

(** Claim C10 (representation invariant).  [sbuffer_init] leaves [head] and
    [tail] both [NULL]; in every world a queue reaches through inserts and
    removes, [head] is [NULL] exactly when [tail] is; an insert into the
    empty queue sets both to the new node, and a remove of the last node
    ([head == tail]) sets both to [NULL]. *)
Theorem head_null_iff_tail_null :
  (∀ w0 p w1,
     sbuffer_init w0 = Done (SBUFFER_SUCCESS, p) w1 →
     ∃ b s, p = Some b ∧ buffer_at w1 b = Some s ∧
            head s = NULL ∧ tail s = NULL)
  ∧ (∀ b w,
       reachable b w →
       ∃ s, buffer_at w b = Some s
            ∧ (head s = NULL ↔ tail s = NULL)
            ∧ (∀ d w',
                 sbuffer_insert (Some b) d w = Done SBUFFER_SUCCESS w' →
                 head s = NULL →
                 ∃ l s', mem w !! l = None ∧
                         mem w' !! l = Some (Node {| next := NULL; data := d |}) ∧
                         buffer_at w' b = Some s' ∧
                         head s' = Some l ∧ tail s' = Some l)
            ∧ (∀ out r w',
                 sbuffer_remove (Some b) out w = Done (SBUFFER_SUCCESS, r) w' →
                 head s = tail s →
                 ∃ s', buffer_at w' b = Some s' ∧
                       head s' = NULL ∧ tail s' = NULL)).
Proof.
  split.
  - intros w0 p w1 Hinit.
    apply sbuffer_init_Done in Hinit as (b & -> & _ & Hmem & _); [|done].
    exists b, empty_sbuffer. split; [done|]. split; [|done].
    apply buffer_at_Some. rewrite Hmem. apply lookup_insert_eq.
  - intros b w [cells Hq]%reachable_is_queue.
    destruct (is_queue_head _ _ _ Hq) as (s & Hb & _ & _).
    destruct (is_queue_head_tail _ _ _ _ Hq Hb) as [Hhead Htail].
    exists s. split; [by apply buffer_at_Some|]. split; [by rewrite Hhead, Htail|].
    split.
    + intros d w' Hrun Hempty. apply Hhead in Hempty as ->.
      destruct (sbuffer_insert_cases w b [] d Hq)
        as [[_ Hrun']|[_ (m' & Hrun' & Hq')]];
        rewrite Hrun' in Hrun; simplify_eq.
      destruct Hq' as (s' & Hb' & _ & Hch & Htl & _).
      destruct Hch as [Hh (nx & Hn & ->)].
      exists (fresh (dom (mem w))), s'.
      split; [apply fresh_unallocated|]. split; [done|].
      split; [by apply buffer_at_Some|]. done.
    + intros out r w' Hrun Heq.
      pose proof (sbuffer_remove_cases w b cells out Hq) as Hrun'.
      destruct cells as [|[h d] rest]; [by rewrite Hrun' in Hrun|].
      destruct (is_sentinel d); [by rewrite Hrun' in Hrun|].
      destruct Hrun' as (m' & Hrun' & Hq'). rewrite Hrun' in Hrun. simplify_eq.
      assert (rest = []) as -> by (by eapply is_queue_single).
      destruct Hq' as (s' & Hb' & _ & Hch & Htl & _).
      exists s'. split; [by apply buffer_at_Some|]. done.
Qed.

Lemma queue_of_reachable : reachable 1%positive (queue_of [reading_1]).
Proof.
  apply (reachable_op _ fresh_queue (Op_insert reading_1)).
  - apply (reachable_init _ quiet_world). vm_compute. reflexivity.
  - vm_compute. reflexivity.
Qed.

Lemma head_null_iff_tail_null_witness :
  ∃ s, buffer_at (queue_of [reading_1]) 1%positive = Some s
       ∧ (head s = NULL ↔ tail s = NULL).
Proof.
  destruct (proj2 head_null_iff_tail_null 1%positive (queue_of [reading_1])
              queue_of_reachable) as (s & Hs & Hiff & _).
  exists s. by split.
Defined.

(** ** The output sink *)

Lemma pending_fault_fault_at w : pending_fault w = fault_at 0 w.
Proof. unfold pending_fault, fault_at. by destruct (faults w). Qed.

Lemma fault_at_drop k j w w' :
  faults w' = drop j (faults w) → fault_at k w' = fault_at (j + k) w.
Proof. unfold fault_at. intros ->. by rewrite lookup_drop. Qed.

Lemma vformat_csv sid v t :
  vformat csv_format [ArgInt sid; ArgDouble v; ArgLong t]
  = Some (csv_row {| id := sid; value := v; ts := t |} ++ [LF]).
Proof.
  unfold csv_row. cbn [id value ts]. 
  rewrite <- !(assoc_L (++)). reflexivity.
Qed.






Lemma load_file_Done f F w : files w !! f = Some F → load_file f w = Done F w.
Proof. unfold load_file. by intros ->. Qed.

Lemma log_sensor_data_open w f F sid v t :
  files w !! f = Some F →
  let row := csv_row {| id := sid; value := v; ts := t |} ++ [LF] in
  let r := logged F row (fault_at 0 w) (fault_at 1 w) in
  ∃ w', log_sensor_data (Some f) sid v t w = Done r.2 w'
        ∧ files w' = <[f := r.1]> (files w)
        ∧ mem w' = mem w ∧ stdout w' = stdout w ∧ csv_mutex w' = csv_mutex w
        ∧ stderr w'
          = stderr w ++ (if fault_at 0 w then write_error
                         else if fault_at 1 w then flush_error else [])
        ∧ faults w' = drop (if fault_at 0 w then 1 else 2) (faults w).
Proof.
  intros Hf row r. subst r.
  unfold log_sensor_data, fprintf, fflush, bind.
  rewrite (load_file_Done _ _ _ Hf), vformat_csv. fold row.
  unfold next_fault at 1. rewrite pending_fault_fault_at.
  destruct (fault_at 0 w) eqn:Hw; cbv beta iota.
  - unfold ret, perror. cbn [Z.ltb Z.compare]. eexists. split; [reflexivity|].
    cbn. rewrite insert_id by done. done.
  - unfold store_file, ret. 
    assert ((Z.of_nat (length row) <? 0) = false) as -> by (apply Z.ltb_ge; lia).
    erewrite load_file_Done by (cbn; apply lookup_insert_eq).
    unfold next_fault. rewrite pending_fault_fault_at.
    erewrite (fault_at_drop 0 1) by done. cbn [Nat.add].
    destruct (fault_at 1 w) eqn:Hfl; cbv beta iota.
    + unfold perror. eexists. split; [reflexivity|]. cbn.
      by rewrite drop_drop.
    + eexists. split; [reflexivity|]. cbn.
      rewrite insert_insert_eq, app_nil_r, drop_drop. done.
Qed.



(** ** The consumer thread *)

Lemma log_sensor_data_total w p sid v t :
  valid_stream w p →
  ∃ rc w', log_sensor_data p sid v t w = Done rc w'
           ∧ mem w' = mem w ∧ csv_mutex w' = csv_mutex w
           ∧ valid_stream w' p.
Proof.
  destruct p as [f|]; cbn [valid_stream].
  - intros [F Hf].
    destruct (log_sensor_data_open w f F sid v t Hf)
      as (w' & Hrun & Hfiles & Hmem & _ & Hcsv & _).
    eexists _, w'. split; [exact Hrun|]. split; [done|]. split; [done|].
    rewrite Hfiles, lookup_insert_eq. eauto.
  - intros _. by exists (-1), w.
Qed.

Lemma printf_Done fmt args t w :
  vformat fmt args = Some t →
  printf fmt args w = Done tt (with_stdout (stdout w ++ t) w).
Proof. unfold printf. by intros ->. Qed.

Lemma eprintf_Done fmt args t w :
  vformat fmt args = Some t →
  eprintf fmt args w = Done tt (with_stderr (stderr w ++ t) w).
Proof. unfold eprintf. by intros ->. Qed.

Lemma vformat_log_failure sid :
  is_Some (vformat (line "Failed to log data: ID=%d") [ArgInt sid]).
Proof. eexists. reflexivity. Qed.

Lemma vformat_logged sid v t :
  is_Some (vformat (line "Logged: SensorID=%d, Value=%.2f, Timestamp=%ld")
             [ArgInt sid; ArgDouble v; ArgLong t]).
Proof. eexists. reflexivity. Qed.

Lemma consumer_iteration_at_end w b p stale :
  at_end_of_stream w b p → id stale ≠ 0 →
  ∃ w', (∀ n, consumer_loop (S n) (Some b) p stale w
              = consumer_loop n (Some b) p stale w')
        ∧ at_end_of_stream w' b p ∧ mem w' = mem w.
Proof.
  intros ((d & Hhead & Hid) & Hfree & Hcsv & Hp) Hstale.
  pose proof (sbuffer_remove_at_sentinel w b d stale Hhead Hid Hfree) as Hrm.
  set (w1 := with_stdout (stdout w ++ no_data_message) w) in *.
  set (w2 := with_csv_mutex true w1).
  destruct (log_sensor_data_total w2 p (id stale) (value stale) (ts stale))
    as (rc & w3 & Hlog & Hmem3 & Hcsv3 & Hp3); [done|].
  assert (∃ w4, (if negb (rc =? 0)
                 then eprintf (line "Failed to log data: ID=%d")
                        [ArgInt (id stale)]
                 else printf (line "Logged: SensorID=%d, Value=%.2f, Timestamp=%ld")
                        [ArgInt (id stale); ArgDouble (value stale);
                         ArgLong (ts stale)]) w3 = Done tt w4
                ∧ mem w4 = mem w3 ∧ files w4 = files w3) as (w4 & Hprint & Hmem4 & Hfiles4).
  { destruct (negb (rc =? 0)).
    - destruct (vformat_log_failure (id stale)) as [t Ht].
      eexists. split; [by apply eprintf_Done|done].
    - destruct (vformat_logged (id stale) (value stale) (ts stale)) as [t Ht].
      eexists. split; [by apply printf_Done|done]. }
  exists (with_csv_mutex false w4). split; [|split].
  - intros n. cbn [consumer_loop]. unfold bind at 1. rewrite Hrm.
    cbn [fst snd]. rewrite decide_False by done.
    apply Z.eqb_neq in Hstale. rewrite Hstale.
    unfold bind, lock_csv_mutex. fold w1. 
    replace (csv_mutex w1) with false by done. fold w2.
    rewrite Hlog, Hprint. reflexivity.
  - split; [|split; [|split]].
    + exists d. cbn. by rewrite Hmem4, Hmem3.
    + unfold mutex_free, buffer_at in *. cbn. by rewrite Hmem4, Hmem3.
    + done.
    + destruct p as [f|]; [|done]. cbn in *. by rewrite Hfiles4.
  - cbn. by rewrite Hmem4, Hmem3.
Qed.

(** Claim C2 fails on the code.  In front of a sentinel [sbuffer_remove]
    returns [SBUFFER_NO_DATA] without writing [*data], and the consumer
    tests [retrieved_data.id], the identifier of the last record it removed:
    when that is not 0 the loop goes on for ever, whatever the number [fuel]
    of iterations it is given, and the queue stays as it is. *)
Theorem consumer_never_leaves_on_end_of_stream fuel : ∀ w b p stale,
  at_end_of_stream w b p → id stale ≠ 0 →
  ∃ w', consumer_loop fuel (Some b) p stale w = OutOfFuel w'
        ∧ at_end_of_stream w' b p ∧ mem w' = mem w.
Proof.
  induction fuel as [|fuel IH]; intros w b p stale Hend Hstale.
  - by exists w.
  - destruct (consumer_iteration_at_end w b p stale Hend Hstale)
      as (w1 & Hstep & Hend1 & Hmem1).
    destruct (IH w1 b p stale Hend1 Hstale) as (w' & Hrun & Hend' & Hmem').
    exists w'. rewrite Hstep. split; [done|]. split; [done|]. congruence.
Qed.

Lemma end_of_stream_example :
  at_end_of_stream (queue_of [end_signal; end_signal]) 1%positive (Some 1%positive).
Proof.
  split; [|split; [|split]].
  - exists end_signal. split; [vm_compute; reflexivity|done].
  - vm_compute. reflexivity.
  - vm_compute. reflexivity.
  - exists empty_file. vm_compute. reflexivity.
Qed.

Lemma consumer_never_leaves_on_end_of_stream_witness :
  ∃ w', consumer_loop 5 (Some 1%positive) (Some 1%positive) reading_1
          (queue_of [end_signal; end_signal]) = OutOfFuel w'
        ∧ mem w' = mem (queue_of [end_signal; end_signal]).
Proof.
  destruct (consumer_never_leaves_on_end_of_stream 5
              (queue_of [end_signal; end_signal]) 1%positive (Some 1%positive)
              reading_1 end_of_stream_example)
    as (w' & Hrun & _ & Hmem); [by intros [=]|].
  exists w'. split; [exact Hrun|exact Hmem].
Defined.

(** The consumer on the queue [reading_1; sentinel; sentinel]: it logs the
    reading, finds the sentinel, and logs the same reading again on every
    further iteration. *)
Lemma consumer_relogs_last_record :
  ∃ w', consumer_thread 4 consumer_parameters end_signal
          (queue_of [reading_1; end_signal; end_signal]) = OutOfFuel w'
        ∧ on_disk <$> files w' !! 1%positive
          = Some (mjoin (replicate 4 (line "1,10.50,100"))).
Proof.
  eexists. split; [vm_compute; reflexivity|]. vm_compute. reflexivity.
Qed.

(** The only way out of the loop of the consumer at the end of the stream:
    the variable [retrieved_data] happens to hold an identifier 0. *)
Lemma consumer_leaves_on_stale_zero fuel w b p stale :
  at_end_of_stream w b p → id stale = 0 →
  consumer_loop (S fuel) (Some b) p stale w
  = Done tt (with_stdout (stdout w ++ no_data_message) w).
Proof.
  intros ((d & Hhead & Hid) & Hfree & _) Hstale.
  pose proof (sbuffer_remove_at_sentinel w b d stale Hhead Hid Hfree) as Hrm.
  cbn [consumer_loop]. unfold bind. rewrite Hrm. cbn [fst snd].
  rewrite decide_False by done. by rewrite Hstale.
Qed.

(** ** The producer thread *)

Lemma unread_advance n F : unread (advance n F) = drop n (unread F).
Proof. unfold unread, advance. cbn. by rewrite drop_drop. Qed.

Lemma fread_Some size f F w :
  files w !! f = Some F → (0 < size ≤ length (unread F))%nat →
  fread size f w
  = Done (Some (take size (unread F)))
      (with_files (<[f := advance size F]> (files w)) w).
Proof.
  intros Hf [Hpos Hle]. unfold fread, bind. rewrite (load_file_Done _ _ _ Hf).
  rewrite bool_decide_eq_false_2 by lia.
  fold (unread F). by rewrite bool_decide_eq_true_2 by done.
Qed.


Lemma parse_fuel cfg n : ∀ m bytes,
  (length bytes < n)%nat → (length bytes < m)%nat →
  parse n cfg bytes = parse m cfg bytes.
Proof.
  induction n as [|n IH]; intros m bytes Hn Hm; [lia|].
  destruct m as [|m]; [lia|]. cbn [parse]. case_bool_decide as Hc; [|done].
  f_equal. apply IH; rewrite length_drop; lia.
Qed.









(** ** Threads waiting for data *)

Lemma pthread_mutex_lock_inv b w u w' :
  pthread_mutex_lock b w = Done u w' →
  ∃ s, mem w !! b = Some (Buffer s) ∧ mutex s = false ∧
       w' = with_mem (<[b := Buffer (set_mutex true s)]> (mem w)) w.
Proof.
  unfold pthread_mutex_lock, bind, load_buffer, store_buffer, block.
  destruct (mem w !! b) as [[s|n]|] eqn:Hb; try done.
  destruct (mutex s) eqn:Hm; [done|]. rewrite Hb. intros [= <- <-]. eauto.
Qed.

Lemma pthread_mutex_unlock_inv b w u w' :
  pthread_mutex_unlock b w = Done u w' →
  ∃ s, mem w !! b = Some (Buffer s) ∧
       w' = with_mem (<[b := Buffer (set_mutex false s)]> (mem w)) w.
Proof.
  unfold pthread_mutex_unlock, bind, load_buffer, store_buffer.
  destruct (mem w !! b) as [[s|n]|] eqn:Hb; try done.
  rewrite Hb. intros [= <- <-]. eauto.
Qed.










Lemma bind_Blocked_inv {A B} (c : M A) (k : A → M B) w w' :
  bind c k w = Blocked w' →
  c w = Blocked w' ∨ ∃ a w1, c w = Done a w1 ∧ k a w1 = Blocked w'.
Proof. unfold bind. destruct (c w) as [a w1|w1| |]; intros; simplify_eq; eauto. Qed.

Lemma load_buffer_inv b w s w' :
  load_buffer b w = Done s w' → w' = w ∧ mem w !! b = Some (Buffer s).
Proof.
  unfold load_buffer. destruct (mem w !! b) as [[s'|n]|]; intros; by simplify_eq.
Qed.

Lemma pthread_mutex_lock_Blocked b w w' :
  pthread_mutex_lock b w = Blocked w' → w' = w.
Proof.
  unfold pthread_mutex_lock, bind, load_buffer, store_buffer, block.
  destruct (mem w !! b) as [[s|n]|] eqn:Hb; try done.
  destruct (mutex s); [by intros [= <-]|]. by rewrite Hb.
Qed.

Lemma pthread_mutex_unlock_not_Blocked b w w' :
  pthread_mutex_unlock b w ≠ Blocked w'.
Proof.
  unfold pthread_mutex_unlock, bind, load_buffer, store_buffer.
  destruct (mem w !! b) as [[s|n]|] eqn:Hb; try done. by rewrite Hb.
Qed.

Ltac never_blocks H :=
  first
    [ by apply pthread_mutex_unlock_not_Blocked in H
    | unfold load_buffer, load_node, store_buffer, free, printf, ret,
        undefined in H; by repeat case_match ].

Lemma remove_locked_not_Blocked b out w w' :
  remove_locked b out w ≠ Blocked w'.
Proof.
  intros H. unfold remove_locked in H.
  apply bind_Blocked_inv in H as [H|(s & w1 & _ & H)]; [never_blocks H|].
  destruct (head s) as [h|]; [|never_blocks H].
  apply bind_Blocked_inv in H as [H|(n & w2 & _ & H)]; [never_blocks H|].
  destruct (id (data n) =? 0).
  - apply bind_Blocked_inv in H as [H|(? & w3 & _ & H)]; [never_blocks H|].
    apply bind_Blocked_inv in H as [H|(? & w4 & _ & H)]; never_blocks H.
  - apply bind_Blocked_inv in H as [H|(? & w3 & _ & H)].
    { case_decide; never_blocks H. }
    apply bind_Blocked_inv in H as [H|(? & w4 & _ & H)]; [never_blocks H|].
    apply bind_Blocked_inv in H as [H|(? & w5 & _ & H)]; never_blocks H.
Qed.

(** The machine run by one thread alone is [sbuffer_remove]: it returns what
    the call returns, and stops inside the wait (or in front of the mutex)
    where the call suspends its caller. *)
Lemma solo_sbuffer_remove b out w :
  (∀ r w', sbuffer_remove (Some b) out w = Done r w' →
           solo 3 b (Remove_lock out) w = (Remove_ret r.1 r.2, w'))
  ∧ (∀ w', sbuffer_remove (Some b) out w = Blocked w' →
           solo 3 b (Remove_lock out) w = (Remove_wait out, w')
           ∨ solo 3 b (Remove_lock out) w = (Remove_lock out, w')).
Proof.
  cbn [sbuffer_remove solo thread_step]. split.
  - intros r w' (u & w1 & Hlock & Hrun)%bind_Done_inv. rewrite Hlock.
    apply bind_Done_inv in Hrun as (u' & w2 & Hwait & Hrun).
    unfold wait_while_empty in Hwait.
    apply bind_Done_inv in Hwait as (s & w3 & Hload & Hwait).
    apply load_buffer_inv in Hload as Hs. destruct Hs as [-> Hb].
    cbn [thread_step]. rewrite Hload.
    destruct (head s) as [h|].
    + unfold ret in Hwait. simplify_eq. cbn [solo thread_step]. by rewrite Hrun.
    + unfold pthread_cond_wait, block, bind in Hwait.
      by destruct (pthread_mutex_unlock b w1).
  - intros w' [Hlock|(u & w1 & Hlock & Hrun)]%bind_Blocked_inv.
    { rewrite Hlock. right. by apply pthread_mutex_lock_Blocked in Hlock as ->. }
    rewrite Hlock.
    apply bind_Blocked_inv in Hrun as [Hwait|(u' & w2 & _ & Hrun)];
      [|by apply remove_locked_not_Blocked in Hrun].
    unfold wait_while_empty in Hwait.
    apply bind_Blocked_inv in Hwait as [Hload|(s & w3 & Hload & Hwait)].
    { unfold load_buffer in Hload. by repeat case_match. }
    apply load_buffer_inv in Hload as Hs. destruct Hs as [-> Hb].
    cbn [thread_step]. rewrite Hload.
    destruct (head s) as [h|]; [done|].
    unfold pthread_cond_wait, block, bind in Hwait.
    destruct (pthread_mutex_unlock b w1) as [u2 w4|w4| |] eqn:Hun; try done.
    + simplify_eq. by left.
    + by apply pthread_mutex_unlock_not_Blocked in Hun.
Qed.

(** [sbuffer_insert] is the three steps of the inserting thread in a row:
    the allocation, the acquisition of the mutex, the linking. *)
Lemma sbuffer_insert_steps b d w w' :
  sbuffer_insert (Some b) d w = Done SBUFFER_SUCCESS w' ↔
  ∃ l w1 w2,
    malloc (Node {| next := NULL; data := d |}) w = Done (Some l) w1
    ∧ thread_step b (Insert_lock l) w1 = Some (Insert_body l, w2)
    ∧ insert_locked b l w2 = Done tt w'.
Proof.
  cbn [sbuffer_insert thread_step]. split.
  - intros (p & w1 & Hm & Hrun)%bind_Done_inv. destruct p as [l|]; [|done].
    apply bind_Done_inv in Hrun as ([] & w2 & Hlock & Hrun).
    apply bind_Done_inv in Hrun as ([] & w3 & Hlink & Hret).
    unfold ret in Hret. simplify_eq. exists l, w1, w2. by rewrite Hlock.
  - intros (l & w1 & w2 & Hm & Hlock & Hlink). unfold bind. rewrite Hm.
    destruct (pthread_mutex_lock b w1) as [[] w2'| | |]; try done.
    simplify_eq. by rewrite Hlink.
Qed.

Lemma consumer_goes_to_wait :
  exec 1%positive (two_threads Idle Idle fresh_queue)
    [Call_remove 0 (Some 1%positive) end_signal; Own 0; Own 0]
    consumer_waits.
Proof.
  eapply exec_cons; [by apply step_call_remove|].
  eapply exec_cons; [eapply (step_own _ _ 0%nat); [reflexivity|vm_compute; reflexivity]|].
  eapply exec_cons; [eapply (step_own _ _ 0%nat); [reflexivity|vm_compute; reflexivity]|].
  apply exec_nil.
Qed.


(** After the producer has linked a node in, the consumer leaves the wait,
    finds the queue non-empty and returns the record. *)
Lemma consumer_returns_after_insert :
  ∃ s', exec 1%positive consumer_waits
          [Call_insert 1 (Some 1%positive) reading_1; Own 1; Link 1 (Some 0%nat);
           Own 0; Own 0; Own 0] s'
        ∧ pool s' !! 0%nat = Some (Remove_ret SBUFFER_SUCCESS reading_1)
        ∧ pool s' !! 1%nat = Some (Insert_ret SBUFFER_SUCCESS).
Proof.
  eexists. split.
  - eapply exec_cons; [eapply step_call_insert; [reflexivity|vm_compute; reflexivity]|].
    eapply exec_cons; [eapply (step_own _ _ 1%nat); [reflexivity|vm_compute; reflexivity]|].
    eapply exec_cons.
    { eapply (step_link _ _ 1%nat); [reflexivity|vm_compute; reflexivity|].
      by eapply (signal_one _ 0%nat). }
    eapply exec_cons; [eapply (step_own _ _ 0%nat); [reflexivity|vm_compute; reflexivity]|].
    eapply exec_cons; [eapply (step_own _ _ 0%nat); [reflexivity|vm_compute; reflexivity]|].
    eapply exec_cons; [eapply (step_own _ _ 0%nat); [reflexivity|vm_compute; reflexivity]|].
    apply exec_nil.
  - split; reflexivity.
Qed.



(** ** The threads never corrupt the queue *)

Lemma queue_shape_not_node m b held cells :
  queue_shape m b held cells → b ∉ cells.*1.
Proof.
  intros (s & Hb & _ & Hch & _) Hin.
  destruct (chain_allocated _ _ _ _ Hch Hin) as [n Hn]. congruence.
Qed.

(** Lines 312-323 on a queue whose mutex the caller holds, for a node [l]
    the caller has allocated and nobody else knows. *)
Lemma insert_locked_spec w b cells l d :
  queue_shape (mem w) b true cells →
  mem w !! l = Some (Node {| next := NULL; data := d |}) →
  l ∉ cells.*1 →
  ∃ m', insert_locked b l w = Done tt (with_mem m' w)
        ∧ queue_shape m' b false (cells ++ [(l, d)])
        ∧ (∀ x, x ≠ b → x ∉ cells.*1 → m' !! x = mem w !! x).
Proof.
  intros Hq Hl Hlc. pose proof (queue_shape_not_node _ _ _ _ Hq) as Hbn.
  destruct Hq as (s & Hb & Hm & Hch & Htl & Hnd).
  assert (Hlb : l ≠ b) by congruence.
  unfold insert_locked, pthread_cond_signal, bind, ret.
  rewrite (load_buffer_Done _ _ _ Hb).
  destruct (tail s) as [t|] eqn:Ht.
  - symmetry in Htl.
    unfold last_loc in Htl. destruct (last cells) as [[t' dt]|] eqn:Hlast; [|done].
    simpl in Htl. injection Htl as ->.
    apply last_Some in Hlast as [pre ->].
    pose proof (chain_last _ _ _ _ _ Hch) as Ht_node.
    assert (Htb : t ≠ b) by congruence.
    assert (Htl' : t ≠ l).
    { intros ->. apply Hlc. rewrite fmap_app. apply elem_of_app. right. left. }
    erewrite load_node_Done by mem_lookup.
    erewrite store_node_Done by mem_lookup.
    erewrite load_node_Done by mem_lookup.
    erewrite store_buffer_Done by mem_lookup.
    erewrite load_buffer_Done by mem_lookup.
    erewrite pthread_mutex_unlock_Done by mem_lookup.
    eexists. split; [reflexivity|]. cbn [mem with_mem]. split.
    + eexists. split; [apply lookup_insert_eq|]. split; [done|].
      cbn [head tail set_mutex set_tail set_next next]. split; [|split].
      * eapply chain_snoc; [done| | | |exact Hch].
        -- intros x Hx.
           assert (Hx' : x ∈ (pre ++ [(t, dt)]).*1).
           { rewrite fmap_app. apply elem_of_app. by left. }
           assert (x ≠ t).
           { intros ->. rewrite fmap_app in Hnd.
             apply NoDup_app in Hnd as (_ & Hd & _). apply (Hd t Hx). simpl. left. }
           assert (x ≠ b) by (by intros ->).
           by rewrite !lookup_insert_ne by done.
        -- rewrite !lookup_insert_ne by done. apply lookup_insert_eq.
        -- by rewrite !lookup_insert_ne by done.
      * by rewrite last_loc_snoc.
      * rewrite fmap_app. apply NoDup_app. split; [done|].
        split; [|apply NoDup_singleton].
        intros x Hx. simpl. by intros ->%list_elem_of_singleton.
    + intros x Hxb Hx.
      assert (x ≠ t).
      { intros ->. apply Hx. rewrite fmap_app. apply elem_of_app. right. left. }
      by rewrite !lookup_insert_ne by done.
  - symmetry in Htl. apply last_loc_None in Htl as ->.
    erewrite store_buffer_Done by mem_lookup.
    erewrite load_buffer_Done by mem_lookup.
    erewrite pthread_mutex_unlock_Done by mem_lookup.
    eexists. split; [reflexivity|]. cbn [mem with_mem]. split.
    + eexists. split; [apply lookup_insert_eq|]. split; [done|].
      cbn [head tail set_mutex set_tail set_head]. split; [|split].
      * split; [done|]. exists NULL. split; [|done].
        by rewrite !lookup_insert_ne by done.
      * done.
      * apply NoDup_singleton.
    + intros x Hxb Hx. by rewrite !lookup_insert_ne by done.
Qed.

(** Lines 276-297 on a queue whose mutex the caller holds. *)
Lemma remove_locked_spec w b h d rest out :
  queue_shape (mem w) b true ((h, d) :: rest) →
  ∃ m', (∀ x, x ≠ b → x ≠ h → m' !! x = mem w !! x)
        ∧ if is_sentinel d then
            remove_locked b out w
            = Done (SBUFFER_NO_DATA, out)
                (with_stdout (stdout w ++ no_data_message) (with_mem m' w))
            ∧ queue_shape m' b false ((h, d) :: rest)
          else
            remove_locked b out w = Done (SBUFFER_SUCCESS, d) (with_mem m' w)
            ∧ queue_shape m' b false rest.
Proof.
  intros Hq. pose proof (queue_shape_not_node _ _ _ _ Hq) as Hbn.
  destruct Hq as (s & Hb & Hm & Hch & Htl & Hnd).
  pose proof Hch as Hch0.
  destruct Hch as [Hh (nx & Hn & Hrest)].
  assert (Hbh : b ≠ h) by congruence.
  unfold remove_locked, bind, ret.
  rewrite (load_buffer_Done _ _ _ Hb), Hh, (load_node_Done _ _ _ Hn).
  cbn [data next]. unfold is_sentinel. destruct (id d =? 0) eqn:Hd.
  - erewrite pthread_mutex_unlock_Done by mem_lookup.
    unfold printf. rewrite vformat_no_data.
    eexists. split; [|split; [reflexivity|]].
    + intros x Hxb _. by rewrite lookup_insert_ne.
    + eexists. split; [apply lookup_insert_eq|]. split; [done|].
      cbn [head tail set_mutex]. split; [|done].
      eapply chain_ext; [|exact Hch0]. intros x Hx.
      rewrite lookup_insert_ne; [done|]. by intros ->.
  - cbn [fmap list_fmap fst] in Hnd. apply NoDup_cons in Hnd as [Hh_rest Hnd].
    assert (Hagree : ∀ (m : gmap loc obj) o o' x, x ∈ rest.*1 →
       (<[b := o']> (delete h (<[b := o]> m))) !! x = m !! x).
    { intros m o o' x Hx. assert (x ≠ b). { intros ->. apply Hbn. simpl. by right. }
      assert (x ≠ h) by (by intros ->).
      by rewrite lookup_insert_ne, lookup_delete_ne, lookup_insert_ne by done. }
    case_decide as Heq; [|rename Heq into Hne]; cbv beta iota.
    + assert (rest = []) as ->.
      { destruct rest as [|c rest']; [done|]. exfalso.
        rewrite Htl, last_loc_cons in Heq by done. symmetry in Heq.
        apply last_loc_elem in Heq. done. }
      erewrite store_buffer_Done by mem_lookup.
      erewrite free_Done by (cbn [mem with_mem]; rewrite lookup_insert_ne by done; exact Hn).
      erewrite pthread_mutex_unlock_Done.
      2:{ cbn [mem with_mem]. rewrite lookup_delete_ne by done. apply lookup_insert_eq. }
      eexists. split; [|split; [reflexivity|]].
      * intros x Hxb Hxh. cbn [mem with_mem].
        by rewrite lookup_insert_ne, lookup_delete_ne, lookup_insert_ne by done.
      * eexists. split; [apply lookup_insert_eq|]. repeat split; simpl; constructor.
    + assert (rest ≠ []).
      { intros ->. apply Hne. by rewrite Htl. }
      erewrite store_buffer_Done by mem_lookup.
      erewrite free_Done by (cbn [mem with_mem]; rewrite lookup_insert_ne by done; exact Hn).
      erewrite pthread_mutex_unlock_Done.
      2:{ cbn [mem with_mem]. rewrite lookup_delete_ne by done. apply lookup_insert_eq. }
      eexists. split; [|split; [reflexivity|]].
      * intros x Hxb Hxh. cbn [mem with_mem].
        by rewrite lookup_insert_ne, lookup_delete_ne, lookup_insert_ne by done.
      * eexists. split; [apply lookup_insert_eq|]. split; [done|].
        cbn [head tail set_mutex set_head mem with_mem]. split; [|split].
        -- eapply chain_ext; [|exact Hrest]. intros x Hx. by apply Hagree.
        -- by rewrite Htl, last_loc_cons.
        -- done.
Qed.

Lemma lock_ok_same held p t c c' :
  lock_ok held p → p !! t = Some c → holds_mutex c' = holds_mutex c →
  lock_ok held (<[t := c']> p).
Proof.
  intros (Hheld & Hsome & Huniq) Ht Hsame. split; [|split].
  - intros t0 c0 [[<- <-]|[Hne Hc0]]%lookup_insert_Some Hh.
    + rewrite Hsame in Hh. eauto.
    + eauto.
  - intros Hh. destruct (Hsome Hh) as (t0 & c0 & Hc0 & Hh0).
    destruct (decide (t0 = t)) as [->|Hne].
    + exists t, c'. rewrite lookup_insert_eq. split; [done|]. congruence.
    + exists t0, c0. by rewrite lookup_insert_ne.
  - intros t1 t2 c1 c2 [[<- <-]|[Hne1 Hc1]]%lookup_insert_Some
      [[<- <-]|[Hne2 Hc2]]%lookup_insert_Some Hh1 Hh2; try done.
    + rewrite Hsame in Hh1. eauto.
    + rewrite Hsame in Hh2. eauto.
    + eauto.
Qed.

Lemma lock_ok_acquire p t c c' :
  lock_ok false p → p !! t = Some c → holds_mutex c' = true →
  lock_ok true (<[t := c']> p).
Proof.
  intros (Hheld & _ & _) Ht Hc'. split; [done|]. split.
  - intros _. exists t, c'. by rewrite lookup_insert_eq.
  - intros t1 t2 c1 c2 [[<- <-]|[Hne1 Hc1]]%lookup_insert_Some
      [[<- <-]|[Hne2 Hc2]]%lookup_insert_Some Hh1 Hh2; try done.
    + by specialize (Hheld _ _ Hc2 Hh2).
    + by specialize (Hheld _ _ Hc1 Hh1).
    + by specialize (Hheld _ _ Hc1 Hh1).
Qed.

Lemma lock_ok_release p t c c' :
  lock_ok true p → p !! t = Some c → holds_mutex c = true →
  holds_mutex c' = false →
  lock_ok false (<[t := c']> p).
Proof.
  intros (_ & _ & Huniq) Ht Hc Hc'.
  assert (Hnone : ∀ t0 c0, (<[t := c']> p) !! t0 = Some c0 → holds_mutex c0 = false).
  { intros t0 c0 [[<- <-]|[Hne Hc0]]%lookup_insert_Some; [done|].
    destruct (holds_mutex c0) eqn:Hh; [|done].
    by specialize (Huniq _ _ _ _ Ht Hc0 Hc Hh). }
  split; [|split].
  - intros t0 c0 Hc0 Hh. apply Hnone in Hc0. congruence.
  - done.
  - intros t1 t2 c1 c2 Hc1 _ Hh1. apply Hnone in Hc1. congruence.
Qed.

Lemma pending_ok_same m cells p t c c' :
  pending_ok m cells p → p !! t = Some c →
  pending_node c' = pending_node c →
  pending_ok m cells (<[t := c']> p).
Proof.
  intros [Hnode Huniq] Ht Hsame. split.
  - intros t0 c0 l [[<- <-]|[Hne Hc0]]%lookup_insert_Some Hl.
    + rewrite Hsame in Hl. eauto.
    + eauto.
  - intros t1 t2 c1 c2 l [[<- <-]|[Hne1 Hc1]]%lookup_insert_Some
      [[<- <-]|[Hne2 Hc2]]%lookup_insert_Some Hl1 Hl2; try done.
    + rewrite Hsame in Hl1. eauto.
    + rewrite Hsame in Hl2. eauto.
    + eauto.
Qed.

Lemma pending_ok_drop m cells p t c' :
  pending_ok m cells p → pending_node c' = None →
  pending_ok m cells (<[t := c']> p).
Proof.
  intros [Hnode Huniq] Hnone. split.
  - intros t0 c0 l [[<- <-]|[Hne Hc0]]%lookup_insert_Some Hl; [congruence|eauto].
  - intros t1 t2 c1 c2 l [[<- <-]|[Hne1 Hc1]]%lookup_insert_Some
      [[<- <-]|[Hne2 Hc2]]%lookup_insert_Some Hl1 Hl2; try congruence. eauto.
Qed.

Lemma pending_ok_heap m m' cells cells' p :
  pending_ok m cells p →
  (∀ t c l, p !! t = Some c → pending_node c = Some l →
            (l ∉ cells'.*1) ∧ m' !! l = m !! l) →
  pending_ok m' cells' p.
Proof.
  intros [Hnode Huniq] Hagree. split; [|done].
  intros t c l Hc Hl. destruct (Hagree _ _ _ Hc Hl) as [Hnotin ->].
  split; [done|]. by destruct (Hnode _ _ _ Hc Hl).
Qed.

Lemma body_ok_other cells p t c' :
  body_ok cells p → (∀ out, c' ≠ Remove_body out) →
  body_ok cells (<[t := c']> p).
Proof.
  intros Hbody Hc' t0 out [[_ Heq]|[Hne Hc0]]%lookup_insert_Some.
  - by apply Hc' in Heq.
  - eauto.
Qed.

Lemma queue_shape_set_mutex m b held held' cells s :
  queue_shape m b held cells → m !! b = Some (Buffer s) →
  queue_shape (<[b := Buffer (set_mutex held' s)]> m) b held' cells.
Proof.
  intros Hq Hb. pose proof (queue_shape_not_node _ _ _ _ Hq) as Hbn.
  destruct Hq as (s' & Hb' & Hm & Hch & Htl & Hnd). simplify_eq.
  eexists. split; [apply lookup_insert_eq|]. split; [done|].
  cbn [head tail set_mutex]. split; [|done].
  eapply chain_ext; [|exact Hch]. intros x Hx.
  rewrite lookup_insert_ne; [done|]. by intros ->.
Qed.

Lemma pending_not_buffer m cells p b s t c l :
  pending_ok m cells p → m !! b = Some (Buffer s) →
  p !! t = Some c → pending_node c = Some l → l ≠ b.
Proof.
  intros [Hnode _] Hb Hc Hl ->. destruct (Hnode _ _ _ Hc Hl) as (_ & d & Hd).
  congruence.
Qed.

Lemma malloc_inv o w p w' :
  malloc o w = Done p w' →
  (p = NULL ∧ mem w' = mem w)
  ∨ (∃ l, p = Some l ∧ mem w !! l = None ∧ mem w' = <[l := o]> (mem w)).
Proof.
  unfold malloc, bind, next_fault, ret. destruct (pending_fault w).
  - intros [= <- <-]. by left.
  - intros [= <- <-]. right. eexists. split; [done|].
    split; [apply fresh_unallocated|done].
Qed.

Lemma queue_shape_allocated m b held cells x :
  queue_shape m b held cells → x ∈ cells.*1 → is_Some (m !! x).
Proof.
  intros (s & _ & _ & Hch & _) Hx.
  destruct (chain_allocated _ _ _ _ Hch Hx) as [n ->]. eauto.
Qed.

Lemma queue_shape_fresh m b held cells l o :
  queue_shape m b held cells → m !! l = None →
  queue_shape (<[l := o]> m) b held cells.
Proof.
  intros Hq Hl. destruct Hq as (s & Hb & Hm & Hch & Htl & Hnd).
  exists s. split; [rewrite lookup_insert_ne; [done|congruence]|].
  split; [done|]. split; [|done].
  eapply chain_ext; [|exact Hch]. intros x Hx.
  destruct (chain_allocated _ _ _ _ Hch Hx) as [n Hn].
  rewrite lookup_insert_ne; [done|congruence].
Qed.

Ltac observed Ht :=
  cbv beta iota; cbn [pool shared];
  rewrite ?Ht, ?lookup_insert_eq; cbv beta iota; cbn [fst snd];
  try done.

(** Every step of the threads keeps the queue well formed and the mutex
    with at most one holder; the linking of a node appends its record, a
    successful remove takes the first record, and no other step changes the
    nodes of the queue. *)
Lemma step_contents b s a s' held cells :
  step b s a s' → well_formed_with b s held cells →
  ∃ held' cells',
    well_formed_with b s' held' cells'
    ∧ match a with
      | Link t _ =>
          ∃ l d, pool s !! t = Some (Insert_body l)
                 ∧ mem (shared s) !! l = Some (Node {| next := NULL; data := d |})
                 ∧ cells' = cells ++ [(l, d)]
      | Own t =>
          match pool s !! t, pool s' !! t with
          | Some (Remove_body _), Some (Remove_ret SBUFFER_SUCCESS d) =>
              cells.*2 = d :: cells'.*2 ∧ is_sentinel d = false
          | _, _ => cells' = cells
          end
      | _ => cells' = cells
      end.
Proof.
  intros Hstep (Hq & Hlock & Hpend & Hbody).
  inversion Hstep as [s0 t o Ht|s0 t o Ht|s0 t d Ht|s0 t d p w' Ht Hm
                     |s0 t c c' w' Ht Hown|s0 t l w' wk p' Ht Hlink Hsig
                     |s0 t o Ht|s0 t c Ht Hret]; subst; unfold well_formed_with;
    cbn [shared pool].
  - exists held, cells. split; [|observed Ht]. split; [done|].
    split; [by eapply lock_ok_same|]. split; [by eapply pending_ok_same|].
    by apply body_ok_other.
  - exists held, cells. split; [|observed Ht]. split; [done|].
    split; [by eapply lock_ok_same|]. split; [by eapply pending_ok_same|].
    by apply body_ok_other.
  - exists held, cells. split; [|observed Ht]. split; [done|].
    split; [by eapply lock_ok_same|]. split; [by eapply pending_ok_same|].
    by apply body_ok_other.
  - (* the allocation of a node *)
    exists held, cells. split; [|observed Ht].
    apply malloc_inv in Hm as [[-> Hmem]|(l & -> & Hl & Hmem)]; rewrite Hmem.
    + split; [done|]. split; [by eapply lock_ok_same|].
      split; [by eapply pending_ok_same|]. by apply body_ok_other.
    + split; [by apply queue_shape_fresh|]. split; [by eapply lock_ok_same|].
      split; [|by apply body_ok_other].
      destruct Hpend as [Hnode Huniq]. split.
      * intros t0 c0 l0 [[<- <-]|[Hne Hc0]]%lookup_insert_Some Hl0.
        -- cbn in Hl0. injection Hl0 as <-. split.
           ++ intros Hin. destruct (queue_shape_allocated _ _ _ _ _ Hq Hin).
              congruence.
           ++ exists d. apply lookup_insert_eq.
        -- destruct (Hnode _ _ _ Hc0 Hl0) as (Hnotin & d0 & Hd0).
           split; [done|]. exists d0.
           rewrite lookup_insert_ne; [done|congruence].
      * assert (∀ t0 c0, pool s !! t0 = Some c0 → pending_node c0 ≠ Some l).
        { intros t0 c0 Hc0 Hl0. destruct (Hnode _ _ _ Hc0 Hl0) as (_ & d0 & Hd0).
          congruence. }
        intros t1 t2 c1 c2 l0 [[<- <-]|[Hne1 Hc1]]%lookup_insert_Some
          [[<- <-]|[Hne2 Hc2]]%lookup_insert_Some Hl1 Hl2; try done.
        -- cbn in Hl1. injection Hl1 as <-. by destruct (H _ _ Hc2).
        -- cbn in Hl2. injection Hl2 as <-. by destruct (H _ _ Hc1).
        -- eauto.
  - (* a step of a thread on its own *)
    destruct c; cbn [thread_step] in Hown; try done.
    + (* Remove_lock *)
      destruct (pthread_mutex_lock b (shared s)) as [u w1| | |] eqn:Hlk; try done.
      simplify_eq. apply pthread_mutex_lock_inv in Hlk as (sb & Hb & Hfree & ->).
      assert (held = false) as ->.
      { destruct Hq as (sb' & Hb' & Hm' & _). congruence. }
      exists true, cells. split; [|observed Ht]. cbn [mem with_mem].
      split; [by eapply queue_shape_set_mutex|].
      split; [by eapply lock_ok_acquire|]. split; [|by apply body_ok_other].
      eapply pending_ok_heap; [by eapply pending_ok_same|].
      intros t0 c0 l0 [[<- <-]|[Hne Hc0]]%lookup_insert_Some Hl0; [done|].
      destruct Hpend as [Hnode _]. destruct (Hnode _ _ _ Hc0 Hl0) as (? & d0 & Hd0).
      split; [done|]. rewrite lookup_insert_ne; [done|congruence].
    + (* Remove_test *)
      destruct (load_buffer b (shared s)) as [sb w1| | |] eqn:Hld; try done.
      apply load_buffer_inv in Hld as [-> Hb].
      destruct (head sb) as [h|] eqn:Hh.
      * simplify_eq. exists held, cells. split; [|observed Ht]. split; [done|].
        split; [by eapply lock_ok_same|]. split; [by eapply pending_ok_same|].
        intros t0 out0 [[<- _]|[Hne Hc0]]%lookup_insert_Some; [|by eauto].
        intros ->. destruct Hq as (sb' & Hb' & _ & Hch & _). simplify_eq.
        cbn in Hch. congruence.
      * destruct (pthread_mutex_unlock b (shared s)) as [u w1| | |] eqn:Hun;
          try done.
        simplify_eq. apply pthread_mutex_unlock_inv in Hun as (sb' & Hb' & ->).
        simplify_eq. destruct Hlock as (Hheld & Hlock').
        assert (held = true) as -> by (by eapply Hheld).
        exists false, cells. split; [|observed Ht]. cbn [mem with_mem].
        split; [by eapply queue_shape_set_mutex|].
        split; [by eapply lock_ok_release|]. split; [|by apply body_ok_other].
        eapply pending_ok_heap; [by eapply pending_ok_same|].
        intros t0 c0 l0 [[<- <-]|[Hne Hc0]]%lookup_insert_Some Hl0; [done|].
        destruct Hpend as [Hnode _].
        destruct (Hnode _ _ _ Hc0 Hl0) as (? & d0 & Hd0).
        split; [done|]. rewrite lookup_insert_ne; [done|congruence].
    + (* Remove_wake *)
      destruct (pthread_mutex_lock b (shared s)) as [u w1| | |] eqn:Hlk; try done.
      simplify_eq. apply pthread_mutex_lock_inv in Hlk as (sb & Hb & Hfree & ->).
      assert (held = false) as ->.
      { destruct Hq as (sb' & Hb' & Hm' & _). congruence. }
      exists true, cells. split; [|observed Ht]. cbn [mem with_mem].
      split; [by eapply queue_shape_set_mutex|].
      split; [by eapply lock_ok_acquire|]. split; [|by apply body_ok_other].
      eapply pending_ok_heap; [by eapply pending_ok_same|].
      intros t0 c0 l0 [[<- <-]|[Hne Hc0]]%lookup_insert_Some Hl0; [done|].
      destruct Hpend as [Hnode _]. destruct (Hnode _ _ _ Hc0 Hl0) as (? & d0 & Hd0).
      split; [done|]. rewrite lookup_insert_ne; [done|congruence].
    + (* Remove_body *)
      destruct (remove_locked b out (shared s)) as [r w1| | |] eqn:Hrun; try done.
      simplify_eq. destruct Hlock as (Hheld & Hlock').
      assert (held = true) as -> by (by eapply Hheld).
      destruct cells as [|[h d] rest]; [by destruct (Hbody _ _ Ht)|].
      destruct (remove_locked_spec (shared s) b h d rest out Hq)
        as (m' & Hframe & Hspec).
      assert (Hpend' : ∀ cells',
                (∀ x, x ∈ cells'.*1 → x ∈ ((h, d) :: rest).*1) →
                pending_ok m' cells' (<[t := Remove_ret r.1 r.2]> (pool s))).
      { intros cells' Hsub.
        eapply pending_ok_heap; [by eapply pending_ok_drop|].
        intros t0 c0 l0 [[<- <-]|[Hne Hc0]]%lookup_insert_Some Hl0; [done|].
        destruct Hpend as [Hnode _].
        destruct (Hnode _ _ _ Hc0 Hl0) as (Hnotin & d0 & Hd0).
        split; [by intros ?%Hsub|].
        apply Hframe.
        - destruct Hq as (sb & Hb & _). congruence.
        - intros ->. apply Hnotin. cbn. left. }
      assert (Hbody' : ∀ cells', body_ok cells'
                                   (<[t := Remove_ret r.1 r.2]> (pool s))).
      { intros cells' t0 out0 [[_ ?]|[Hne Hc0]]%lookup_insert_Some; [done|].
        destruct Hlock' as (_ & Huniq).
        by specialize (Huniq _ _ _ _ Ht Hc0 eq_refl eq_refl). }
      destruct (is_sentinel d) eqn:Hsd.
      * destruct Hspec as [Hrun' Hq']. rewrite Hrun' in Hrun. simplify_eq.
        exists false, ((h, d) :: rest). split; [|observed Ht]. cbn [mem with_mem with_stdout].
        split; [done|]. split; [by eapply lock_ok_release|].
        split; [by apply Hpend'|apply Hbody'].
      * destruct Hspec as [Hrun' Hq']. rewrite Hrun' in Hrun. simplify_eq.
        exists false, rest. split; [|observed Ht]. cbn [mem with_mem].
        split; [done|]. split; [by eapply lock_ok_release|].
        split; [|apply Hbody'].
        apply Hpend'. intros x Hx. cbn. by right.
    + (* Insert_lock *)
      destruct (pthread_mutex_lock b (shared s)) as [u w1| | |] eqn:Hlk; try done.
      simplify_eq. apply pthread_mutex_lock_inv in Hlk as (sb & Hb & Hfree & ->).
      assert (held = false) as ->.
      { destruct Hq as (sb' & Hb' & Hm' & _). congruence. }
      exists true, cells. split; [|observed Ht]. cbn [mem with_mem].
      split; [by eapply queue_shape_set_mutex|].
      split; [by eapply lock_ok_acquire|]. split; [|by apply body_ok_other].
      eapply pending_ok_heap; [by eapply pending_ok_same|].
      intros t0 c0 l0 Hlook Hl0.
      assert (∃ c1, pool s !! t0 = Some c1 ∧ pending_node c1 = Some l0)
        as (c1 & Hc1 & Hl1).
      { apply lookup_insert_Some in Hlook as [[<- <-]|[Hne Hc0]]; eauto. }
      destruct Hpend as [Hnode _]. destruct (Hnode _ _ _ Hc1 Hl1) as (? & d0 & Hd0).
      split; [done|]. rewrite lookup_insert_ne; [done|congruence].
  - (* the linking of a node *)
    pose proof Hlock as Hlock0. pose proof Hpend as Hpend0.
    destruct Hlock as (Hheld & Hlock').
    assert (held = true) as -> by (by eapply Hheld).
    destruct Hpend as [Hnode Huniq].
    destruct (Hnode _ _ _ Ht eq_refl) as (Hl & d & Hd).
    destruct (insert_locked_spec (shared s) b cells l d Hq Hd Hl)
      as (m' & Hrun & Hq' & Hframe).
    rewrite Hrun in Hlink. simplify_eq.
    exists false, (cells ++ [(l, d)]). split; [|by exists l, d]. cbn [mem with_mem].
    split; [done|].
    assert (Hp' : ∃ c, p' !! t = Some c ∧ holds_mutex c = true
                       ∧ lock_ok true p' ∧ pending_ok (mem (shared s)) cells p'
                       ∧ (∀ t0 c0 l0, p' !! t0 = Some c0 →
                                      pending_node c0 = Some l0 →
                                      ∃ c1, pool s !! t0 = Some c1
                                            ∧ pending_node c1 = Some l0)
                       ∧ (∀ t0 out0, p' !! t0 = Some (Remove_body out0) →
                                     pool s !! t0 = Some (Remove_body out0))).
    { inversion Hsig as [|t'' o Ht'']; subst.
      - exists (Insert_body l). split; [done|]. split; [done|].
        split; [exact Hlock0|]. split; [exact Hpend0|]. split; eauto.
      - assert (t'' ≠ t) by congruence.
        exists (Insert_body l). split; [by rewrite lookup_insert_ne|].
        split; [done|]. split; [by eapply lock_ok_same|].
        split; [by eapply pending_ok_same|]. split.
        + intros t0 c0 l0 [[<- <-]|[Hne Hc0]]%lookup_insert_Some Hl0; [done|eauto].
        + intros t0 out0 [[_ ?]|[Hne Hc0]]%lookup_insert_Some; [done|eauto]. }
    destruct Hp' as (c & Hc & Hhc & Hlock_p' & Hpend_p' & Hpend_from & Hbody_from).
    split; [by eapply lock_ok_release|]. split.
    + eapply pending_ok_heap; [by eapply pending_ok_drop|].
      intros t0 c0 l0 [[<- <-]|[Hne Hc0]]%lookup_insert_Some Hl0; [done|].
      destruct (Hpend_from _ _ _ Hc0 Hl0) as (c1 & Hc1 & Hl1).
      destruct (Hnode _ _ _ Hc1 Hl1) as (Hnotin & d0 & Hd0).
      assert (l0 ≠ l).
      { intros ->. by specialize (Huniq _ _ _ _ _ Ht Hc1 eq_refl Hl1). }
      split.
      * rewrite fmap_app. intros [?|?%list_elem_of_singleton]%elem_of_app; done.
      * apply Hframe; [|done]. destruct Hq as (sb & Hb & _). congruence.
    + intros t0 out0 _. by destruct cells.
  - exists held, cells. split; [|observed Ht]. split; [done|].
    split; [by eapply lock_ok_same|]. split; [by eapply pending_ok_same|].
    by apply body_ok_other.
  - exists held, cells. split; [|observed Ht]. split; [done|].
    destruct Hret as [(st & o & ->)|(st & ->)].
    + split; [by eapply lock_ok_same|]. split; [by eapply pending_ok_same|].
      by apply body_ok_other.
    + split; [by eapply lock_ok_same|]. split; [by eapply pending_ok_same|].
      by apply body_ok_other.
Qed.

(** Every step of the threads keeps the queue well formed and the mutex
    with at most one holder. *)
Lemma step_well_formed b s a s' :
  step b s a s' → well_formed b s → well_formed b s'.
Proof.
  intros Hstep (held & cells & Hwf).
  destruct (step_contents _ _ _ _ _ _ Hstep Hwf) as (held' & cells' & Hwf' & _).
  by exists held', cells'.
Qed.

Lemma exec_well_formed b s tr s' :
  exec b s tr s' → well_formed b s → well_formed b s'.
Proof.
  induction 1 as [|s a s1 tr s2 Hstep _ IH]; [done|].
  intros Hwf. apply IH. by eapply step_well_formed.
Qed.

Lemma idle_well_formed b w p cells :
  is_queue (mem w) b cells → (∀ t c, p !! t = Some c → c = Idle) →
  well_formed b {| shared := w; pool := p |}.
Proof.
  intros Hq Hidle. exists false, cells. cbn [shared pool].
  split; [exact Hq|]. split; [|split].
  - split; [|split].
    + intros t c Hc Hh. by rewrite (Hidle _ _ Hc) in Hh.
    + done.
    + intros t t' c c' Hc _ Hh. by rewrite (Hidle _ _ Hc) in Hh.
  - split.
    + intros t c l Hc Hl. by rewrite (Hidle _ _ Hc) in Hl.
    + intros t t' c c' l Hc _ Hl. by rewrite (Hidle _ _ Hc) in Hl.
  - intros t out Hc. by apply Hidle in Hc.
Qed.

Lemma signalled_total (p : gmap nat control) : ∃ woken p', signalled p woken p'.
Proof.
  destruct (decide (map_Exists (λ _ c, is_waiting c = true) p))
    as [(t & c & Hc & Hw)|Hnone].
  - destruct c; try done. eexists _, _. by eapply signal_one.
  - exists None, p. apply signal_nobody. intros t out Hc. apply Hnone.
    by exists t, (Remove_wait out).
Qed.

(** In a well-formed system a thread that holds the mutex can always take
    its next step: what runs between lock and unlock dereferences allocated
    objects only. *)
Lemma holder_can_step b s t c :
  well_formed b s → pool s !! t = Some c → holds_mutex c = true →
  ∃ a s', step b s a s' ∧ actor a = Some t.
Proof.
  intros (held & cells & Hq & (Hheld & _) & (Hnode & _) & Hbody) Hc Hh.
  assert (held = true) as -> by (by eapply Hheld).
  pose proof Hq as (sb & Hb & _).
  destruct c; try done.
  - (* Remove_test *)
    destruct (head sb) as [h|] eqn:Hhead.
    + exists (Own t). eexists. split; [|done]. eapply step_own; [done|].
      cbn [thread_step]. by rewrite (load_buffer_Done _ _ _ Hb), Hhead.
    + exists (Own t). eexists. split; [|done]. eapply step_own; [done|].
      cbn [thread_step].
      by rewrite (load_buffer_Done _ _ _ Hb), Hhead,
        (pthread_mutex_unlock_Done _ _ _ Hb).
  - (* Remove_body *)
    destruct cells as [|[h d] rest]; [by destruct (Hbody _ _ Hc)|].
    destruct (remove_locked_spec (shared s) b h d rest out Hq)
      as (m' & _ & Hspec).
    exists (Own t).
    destruct (is_sentinel d); destruct Hspec as [Hrun _];
      (eexists; split; [|done]; eapply step_own; [done|];
       cbn [thread_step]; rewrite Hrun; reflexivity).
  - (* Insert_body *)
    destruct (Hnode _ _ _ Hc eq_refl) as (Hl & d & Hd).
    destruct (insert_locked_spec (shared s) b cells l d Hq Hd Hl)
      as (m' & Hrun & _).
    destruct (signalled_total (pool s)) as (woken & p' & Hsig).
    exists (Link t woken). eexists. split; [|done]. by eapply step_link.
Qed.

(** The threads never corrupt the queue: whatever the interleaving of their
    calls, started when all are outside the queue, the heap holds a
    well-formed queue, at most one thread is between an acquisition of the
    mutex and its release, and that thread can take its next step. *)
Theorem threads_keep_queue_well_formed b w p cells tr s :
  is_queue (mem w) b cells →
  (∀ t c, p !! t = Some c → c = Idle) →
  exec b {| shared := w; pool := p |} tr s →
  (∃ held cells', queue_shape (mem (shared s)) b held cells')
  ∧ (∀ t t' c c',
       pool s !! t = Some c → pool s !! t' = Some c' →
       holds_mutex c = true → holds_mutex c' = true → t = t')
  ∧ (∀ t c,
       pool s !! t = Some c → holds_mutex c = true →
       ∃ a s', step b s a s' ∧ actor a = Some t).
Proof.
  intros Hq Hidle Hexec.
  assert (well_formed b s) as Hwf.
  { eapply exec_well_formed; [exact Hexec|]. by eapply idle_well_formed. }
  split; [|split].
  - destruct Hwf as (held & cells' & Hq' & _). eauto.
  - destruct Hwf as (held & cells' & _ & (_ & _ & Huniq) & _). exact Huniq.
  - intros t c. by apply holder_can_step.
Qed.

Lemma threads_keep_queue_well_formed_witness :
  ∃ held cells', queue_shape (mem (shared consumer_waits)) 1%positive held cells'.
Proof.
  refine (proj1 (threads_keep_queue_well_formed 1%positive fresh_queue
                   {[ 0%nat := Idle; 1%nat := Idle ]} [] _ consumer_waits
                   fresh_queue_is_queue _ consumer_goes_to_wait)).
  intros t c [[_ <-]|[_ [_ <-]%lookup_singleton_Some]]%lookup_insert_Some;
    reflexivity.
Defined.

(** ** A run of sbuffer_free *)

Lemma queue_of_two_is_queue :
  is_queue (mem (queue_of [reading_1; end_signal])) 1%positive
    [(2%positive, reading_1); (3%positive, end_signal)].
Proof.
  eexists. split; [vm_compute; reflexivity|]. split; [done|].
  split; [|split; [done|]].
  - split; [done|]. eexists. split; [vm_compute; reflexivity|].
    split; [done|]. eexists. split; [vm_compute; reflexivity|]. done.
  - apply NoDup_cons. split; [by intros ?%list_elem_of_singleton|].
    apply NoDup_singleton.
Qed.

Lemma sbuffer_free_releases_witness :
  ∃ m', sbuffer_free 3 (Some (Some 1%positive)) (queue_of [reading_1; end_signal])
        = Done (SBUFFER_SUCCESS, NULL) (with_mem m' (queue_of [reading_1; end_signal]))
        ∧ m' !! 1%positive = None ∧ m' !! 2%positive = None ∧ m' !! 3%positive = None.
Proof.
  destruct (sbuffer_free_releases 3 (queue_of [reading_1; end_signal]) 1%positive
              _ queue_of_two_is_queue) as (m' & Hrun & Hb & Hnodes & _);
    [cbn; lia|].
  exists m'. split; [exact Hrun|]. split; [exact Hb|].
  split; apply Hnodes; cbn; [left|right; left].
Defined.

(** ** The queue and the rest of the heap *)

Lemma sbuffer_init_cases w :
  ∃ st p w',
    sbuffer_init w = Done (st, p) w'
    ∧ (st = SBUFFER_SUCCESS ∨ st = SBUFFER_FAILURE)
    ∧ (st = SBUFFER_SUCCESS
       ↔ fault_at 0 w = false ∧ fault_at 1 w = false ∧ fault_at 2 w = false)
    ∧ (st = SBUFFER_SUCCESS →
       ∃ b, p = Some b ∧ mem w !! b = None
            ∧ mem w' = <[b := Buffer empty_sbuffer]> (mem w)
            ∧ is_queue (mem w') b [])
    ∧ (st = SBUFFER_FAILURE →
       mem w' = mem w
       ∧ (fault_at 0 w = true → p = NULL)
       ∧ (fault_at 0 w = false → ∃ b, p = Some b ∧ mem w' !! b = None))
    ∧ files w' = files w ∧ stdout w' = stdout w ∧ stderr w' = stderr w
    ∧ csv_mutex w' = csv_mutex w.
Proof.
  unfold sbuffer_init, bind, ret.
  pose proof (pending_fault_fault_at w) as H0.
  destruct (pending_fault w) eqn:Hf1.
  { rewrite malloc_refused by done. eexists _, _, _. split; [reflexivity|].
    split; [by right|]. split; [split; [done|intros (? & _); congruence]|].
    split; [done|]. split; [|done]. intros _. split; [done|]. split; [done|].
    congruence. }
  rewrite malloc_granted by done.
  set (b := fresh (dom (mem w))).
  assert (mem w !! b = None) as Hb by apply fresh_unallocated.
  unfold next_fault.
  set (w1 := with_mem _ _).
  assert (fault_at 0 w1 = fault_at 1 w) as H1 by (by apply (fault_at_drop 0 1)).
  rewrite <- pending_fault_fault_at in H1.
  destruct (pending_fault w1) eqn:Hf2; cbv beta iota.
  { erewrite free_Done by (subst w1; wsimpl; apply lookup_insert_eq).
    eexists _, _, _. split; [reflexivity|].
    split; [by right|]. split; [split; [done|intros (_ & ? & _); congruence]|].
    split; [done|]. split; [|done]. intros _. subst w1. wsimpl.
    rewrite delete_insert_eq, delete_id by done.
    split; [done|]. split; [congruence|]. intros _. by exists b. }
  set (w2 := with_faults _ w1).
  assert (fault_at 0 w2 = fault_at 2 w) as H2.
  { apply (fault_at_drop 0 2). subst w2 w1. wsimpl. by rewrite drop_drop. }
  rewrite <- pending_fault_fault_at in H2.
  destruct (pending_fault w2) eqn:Hf3; cbv beta iota.
  { erewrite free_Done by (subst w2 w1; wsimpl; apply lookup_insert_eq).
    eexists _, _, _. split; [reflexivity|].
    split; [by right|]. split; [split; [done|intros (_ & _ & ?); congruence]|].
    split; [done|]. split; [|done]. intros _. subst w2 w1. wsimpl.
    rewrite delete_insert_eq, delete_id by done.
    split; [done|]. split; [congruence|]. intros _. by exists b. }
  eexists _, _, _. split; [reflexivity|]. split; [by left|].
  split; [split; [intros _; repeat split; congruence|done]|].
  split; [|done]. intros _. exists b. split; [done|]. split; [done|].
  subst w2 w1. wsimpl. split; [done|].
  exists empty_sbuffer. split; [apply lookup_insert_eq|]. repeat split. constructor.
Qed.

(** [sbuffer_init] fails exactly when the allocation or one of the two
    initialisations fails, and then returns [SBUFFER_FAILURE]; it leaks
    nothing: on failure the heap is as before the call, but [*buffer] is
    [NULL] only when the allocation failed and is left pointing to the
    released block otherwise.  On success [*buffer] is a new, empty, valid
    queue. *)
Theorem sbuffer_init_outcomes w :
  ∃ st p w',
    sbuffer_init w = Done (st, p) w'
    ∧ (st = SBUFFER_SUCCESS ∨ st = SBUFFER_FAILURE)
    ∧ (st = SBUFFER_SUCCESS
       ↔ fault_at 0 w = false ∧ fault_at 1 w = false ∧ fault_at 2 w = false)
    ∧ (st = SBUFFER_SUCCESS →
       ∃ b, p = Some b ∧ mem w !! b = None
            ∧ mem w' = <[b := Buffer empty_sbuffer]> (mem w)
            ∧ is_queue (mem w') b [])
    ∧ (st = SBUFFER_FAILURE →
       mem w' = mem w
       ∧ (fault_at 0 w = true → p = NULL)
       ∧ (fault_at 0 w = false → ∃ b, p = Some b ∧ mem w' !! b = None)).
Proof.
  destruct (sbuffer_init_cases w) as (st & p & w' & H1 & H2 & H3 & H4 & H5 & _).
  by exists st, p, w'.
Qed.

Lemma is_queue_shape m b cells : is_queue m b cells ↔ queue_shape m b false cells.
Proof. done. Qed.

(** A successful insert allocates one node, at an address that was free,
    and touches nothing outside the queue. *)
Lemma sbuffer_insert_framed w b cells d :
  is_queue (mem w) b cells → pending_fault w = false →
  let l := fresh (dom (mem w)) in
  ∃ m', sbuffer_insert (Some b) d w
        = Done SBUFFER_SUCCESS (with_mem m' (with_faults (drop 1 (faults w)) w))
        ∧ is_queue m' b (cells ++ [(l, d)])
        ∧ mem w !! l = None
        ∧ (∀ x, x ≠ b → x ∉ cells.*1 → x ≠ l → m' !! x = mem w !! x).
Proof.
  intros Hq Hf l.
  assert (Hl : mem w !! l = None) by apply fresh_unallocated.
  pose proof Hq as (s & Hb & Hm & _).
  assert (Hlb : l ≠ b) by congruence.
  assert (Hlc : l ∉ cells.*1).
  { intros Hin. destruct (queue_shape_allocated _ _ _ _ _ Hq Hin) as [n Hn].
    congruence. }
  unfold sbuffer_insert, bind, ret.
  rewrite malloc_granted by done. fold l.
  erewrite pthread_mutex_lock_free by mem_lookup.
  set (w1 := with_mem _ _).
  assert (queue_shape (mem w1) b true cells) as Hq1.
  { subst w1. wsimpl.
    apply (queue_shape_set_mutex _ _ false); [|mem_lookup].
    by apply queue_shape_fresh. }
  destruct (insert_locked_spec w1 b cells l d Hq1) as (m' & -> & Hq' & Hframe);
    [subst w1; wsimpl; mem_lookup|done|].
  exists m'. split; [done|]. split; [done|]. split; [done|].
  intros x Hxb Hxc Hxl. rewrite Hframe by done. subst w1. wsimpl.
  by rewrite !lookup_insert_ne.
Qed.

(** The node a successful remove took the record from is released. *)
Lemma remove_locked_frees w b h d rest out r w' :
  queue_shape (mem w) b true ((h, d) :: rest) → is_sentinel d = false →
  remove_locked b out w = Done r w' → mem w' !! h = None.
Proof.
  intros Hq Hd. pose proof (queue_shape_not_node _ _ _ _ Hq) as Hbn.
  destruct Hq as (s & Hb & Hm & Hch & Htl & Hnd).
  destruct Hch as [Hh (nx & Hn & Hrest)].
  assert (Hbh : b ≠ h) by congruence.
  unfold remove_locked, bind, ret.
  rewrite (load_buffer_Done _ _ _ Hb), Hh, (load_node_Done _ _ _ Hn).
  cbn [data next]. unfold is_sentinel in Hd. rewrite Hd.
  case_decide; cbv beta iota.
  all: erewrite store_buffer_Done by mem_lookup.
  all: erewrite free_Done
         by (cbn [mem with_mem]; rewrite lookup_insert_ne by done; exact Hn).
  all: erewrite pthread_mutex_unlock_Done
         by (cbn [mem with_mem]; rewrite lookup_delete_ne by done;
             apply lookup_insert_eq).
  all: intros [= <- <-]; cbn [mem with_mem].
  all: rewrite lookup_insert_ne by done; apply lookup_delete_eq.
Qed.

(** A successful remove releases the node it took the record from and
    touches nothing outside the queue. *)
Lemma sbuffer_remove_framed w b h d rest out :
  is_queue (mem w) b ((h, d) :: rest) →
  ∃ m', (∀ x, x ≠ b → x ≠ h → m' !! x = mem w !! x)
        ∧ if is_sentinel d then
            sbuffer_remove (Some b) out w
            = Done (SBUFFER_NO_DATA, out)
                (with_stdout (stdout w ++ no_data_message) (with_mem m' w))
            ∧ is_queue m' b ((h, d) :: rest)
          else
            sbuffer_remove (Some b) out w
            = Done (SBUFFER_SUCCESS, d) (with_mem m' w)
            ∧ is_queue m' b rest ∧ m' !! h = None.
Proof.
  intros Hq. pose proof Hq as (s & Hb & Hm & Hch & _ & Hnd).
  destruct Hch as (Hhead & nx & Hh & _).
  unfold sbuffer_remove, wait_while_empty, bind, ret.
  erewrite pthread_mutex_lock_free by mem_lookup.
  erewrite load_buffer_Done by mem_lookup. cbn [head set_mutex]. rewrite Hhead.
  set (w1 := with_mem _ _).
  assert (queue_shape (mem w1) b true ((h, d) :: rest)) as Hq1.
  { subst w1. wsimpl. by apply (queue_shape_set_mutex _ _ false). }
  destruct (remove_locked_spec w1 b h d rest out Hq1) as (m' & Hframe & Hspec).
  assert (h ≠ b) as Hhb by congruence.
  exists m'. split.
  { intros x Hxb Hxh. rewrite Hframe by done. subst w1. wsimpl.
    by rewrite lookup_insert_ne. }
  destruct (is_sentinel d) eqn:Hd.
  - destruct Hspec as [-> Hq']. by split.
  - destruct Hspec as [Hrun Hq']. rewrite Hrun. split; [done|]. split; [done|].
    by apply (remove_locked_frees _ _ _ _ _ _ _ _ Hq1 Hd Hrun).
Qed.

Lemma owns_init m0 b :
  m0 !! b = None → owns m0 (<[b := Buffer empty_sbuffer]> m0) b [].
Proof.
  intros Hb. split; [done|]. split; [by intros l ?%elem_of_nil|].
  intros l Hl _. by rewrite lookup_insert_ne.
Qed.

(** One call keeps the queue valid and the rest of the heap as it was. *)
Lemma run_op_owns m0 w b cells op w' :
  is_queue (mem w) b cells → owns m0 (mem w) b cells →
  run_op b op w = Done tt w' →
  ∃ cells', is_queue (mem w') b cells' ∧ owns m0 (mem w') b cells'
            ∧ (length cells' ≤ S (length cells))%nat.
Proof.
  intros Hq (Hb0 & Hc0 & Hout) Hrun. destruct op as [d|out]; cbn [run_op] in Hrun.
  - destruct (pending_fault w) eqn:Hf.
    + unfold bind in Hrun. rewrite (sbuffer_insert_oom _ _ _ Hf) in Hrun.
      injection Hrun as <-. exists cells. wsimpl. split; [done|].
      split; [done|lia].
    + destruct (sbuffer_insert_framed w b cells d Hq Hf)
        as (m' & Hins & Hq' & Hfresh & Hframe).
      unfold bind in Hrun. rewrite Hins in Hrun. injection Hrun as <-.
      eexists. wsimpl. split; [exact Hq'|]. split.
      * split; [done|]. split.
        -- intros l. rewrite fmap_app.
           intros [Hl|Hl%list_elem_of_singleton]%elem_of_app; [by apply Hc0|].
           cbn in Hl. subst l. destruct (decide (fresh (dom (mem w)) = b)) as [e|Hne].
           { by rewrite e. }
           destruct (decide (fresh (dom (mem w)) ∈ cells.*1)) as [Hin|Hnin].
           { by apply Hc0. }
           by rewrite <- Hout.
        -- intros l Hlb Hl. rewrite fmap_app in Hl.
           apply not_elem_of_app in Hl as [Hl Hl'].
           rewrite Hframe; [by apply Hout|done|done|].
           intros ->. apply Hl'. cbn. left.
      * rewrite length_app. cbn. lia.
  - destruct cells as [|[h d] rest].
    + pose proof (sbuffer_remove_cases w b [] out Hq) as Hblk. cbv beta iota in Hblk.
      unfold bind in Hrun. by rewrite Hblk in Hrun.
    + destruct (sbuffer_remove_framed w b h d rest out Hq) as (m' & Hframe & Hspec).
      unfold bind in Hrun. destruct (is_sentinel d).
      * destruct Hspec as [Hrm Hq']. rewrite Hrm in Hrun. injection Hrun as <-.
        exists ((h, d) :: rest). wsimpl. split; [done|]. split; [|lia].
        split; [done|]. split; [done|].
        intros l Hlb Hl. cbn in Hl. apply not_elem_of_cons in Hl as [Hlh Hl].
        rewrite Hframe by done. apply Hout; [done|]. cbn.
        by apply not_elem_of_cons.
      * destruct Hspec as (Hrm & Hq' & Hfreed). rewrite Hrm in Hrun.
        injection Hrun as <-. exists rest. wsimpl. split; [done|]. split; [|cbn; lia].
        split; [done|]. split.
        -- intros l Hl. apply Hc0. cbn. by right.
        -- intros l Hlb Hl. destruct (decide (l = h)) as [->|Hlh].
           ++ rewrite Hfreed. symmetry. apply Hc0. cbn. left.
           ++ rewrite Hframe by done. apply Hout; [done|]. cbn.
              by apply not_elem_of_cons.
Qed.

Lemma run_ops_owns m0 b ops : ∀ w cells w',
  is_queue (mem w) b cells → owns m0 (mem w) b cells →
  run_ops b ops w = Done tt w' →
  ∃ cells', is_queue (mem w') b cells' ∧ owns m0 (mem w') b cells'
            ∧ (length cells' ≤ length ops + length cells)%nat.
Proof.
  induction ops as [|op ops IH]; intros w cells w' Hq Hown Hrun.
  - injection Hrun as <-. exists cells. split; [done|]. split; [done|cbn; lia].
  - cbn [run_ops] in Hrun. apply bind_Done_inv in Hrun as ([] & w1 & Hop & Hrest).
    destruct (run_op_owns _ _ _ _ _ _ Hq Hown Hop) as (cells1 & Hq1 & Hown1 & Hlen1).
    destruct (IH _ _ _ Hq1 Hown1 Hrest) as (cells2 & Hq2 & Hown2 & Hlen2).
    exists cells2. split; [done|]. split; [done|]. cbn. lia.
Qed.

(** The queue leaks nothing: created by [sbuffer_init], used by any
    sequence of inserts and removes, and released by [sbuffer_free], it
    leaves the heap exactly as it was before [sbuffer_init]. *)
Theorem queue_leaves_heap_as_found w0 b w1 ops w2 fuel :
  sbuffer_init w0 = Done (SBUFFER_SUCCESS, Some b) w1 →
  run_ops b ops w1 = Done tt w2 →
  (length ops < fuel)%nat →
  ∃ w3, sbuffer_free fuel (Some (Some b)) w2 = Done (SBUFFER_SUCCESS, NULL) w3
        ∧ mem w3 = mem w0.
Proof.
  intros Hinit Hrun Hfuel.
  destruct (sbuffer_init_Done _ _ _ _ Hinit eq_refl)
    as (b' & [= <-] & Hb0 & Hm1 & Hq1).
  assert (owns (mem w0) (mem w1) b []) as Hown1.
  { rewrite Hm1. by apply owns_init. }
  destruct (run_ops_owns _ _ _ _ _ _ Hq1 Hown1 Hrun)
    as (cells & Hq2 & (_ & Hc0 & Hout) & Hlen).
  cbn in Hlen. pose proof (is_queue_not_node _ _ _ Hq2) as Hbn.
  destruct Hq2 as (s & Hb & _ & Hch & _ & Hnd).
  destruct (free_nodes_spec cells fuel w2 b s Hb Hch Hnd)
    as (m' & Hfree & Hb' & Hfreed & Hother); [lia|].
  unfold sbuffer_free, bind, ret. rewrite Hfree.
  erewrite free_Done by (wsimpl; exact Hb').
  eexists. split; [reflexivity|]. wsimpl. apply map_eq. intros l.
  destruct (decide (l = b)) as [->|Hlb].
  { by rewrite lookup_delete_eq. }
  rewrite lookup_delete_ne by done.
  destruct (decide (l ∈ cells.*1)) as [Hin|Hnin].
  - rewrite Hfreed by done. symmetry. by apply Hc0.
  - rewrite Hother by done. by apply Hout.
Qed.

Lemma queue_leaves_heap_as_found_witness :
  ∃ w3, sbuffer_free 4 (Some (Some 1%positive))
          (world_of ((sbuffer_init ;;
                      run_ops 1%positive
                        [Op_insert reading_1; Op_insert reading_2;
                         Op_remove end_signal]) quiet_world))
        = Done (SBUFFER_SUCCESS, NULL) w3
        ∧ mem w3 = mem quiet_world.
Proof.
  apply (queue_leaves_heap_as_found quiet_world 1%positive
           (world_of (sbuffer_init quiet_world))
           [Op_insert reading_1; Op_insert reading_2; Op_remove end_signal]).
  - vm_compute. reflexivity.
  - vm_compute. reflexivity.
  - cbn. lia.
Defined.

(** ** A sentinel stays at the head *)

Lemma holds_sentinel_head w b s rest :
  holds w b (s :: rest) → is_sentinel s = true →
  ∀ out, sbuffer_remove (Some b) out w
         = Done (SBUFFER_NO_DATA, out)
             (with_stdout (stdout w ++ no_data_message) w).
Proof.
  intros (cells & Hq & Hrs) Hs out.
  destruct cells as [|[h d] cells']; [done|]. injection Hrs as -> Hrest.
  pose proof (sbuffer_remove_cases w b _ out Hq) as Hrm. cbv beta iota in Hrm.
  by rewrite Hs in Hrm.
Qed.

Lemma holds_stdout w b rs t : holds w b rs → holds (with_stdout t w) b rs.
Proof. done. Qed.

(** A sentinel at the head of the queue stays there: no call removes it, so
    the records behind it, and all those inserted later, are never
    returned. *)
Theorem sentinel_is_never_removed b ops : ∀ w s rest,
  holds w b (s :: rest) → is_sentinel s = true →
  ∃ w' added,
    run_ops b ops w = Done tt w'
    ∧ holds w' b (s :: rest ++ added)
    ∧ added `sublist_of` inserted ops
    ∧ (Forall (eq false) (take (length (inserted ops)) (faults w)) →
       added = inserted ops)
    ∧ ∀ out, sbuffer_remove (Some b) out w'
             = Done (SBUFFER_NO_DATA, out)
                 (with_stdout (stdout w' ++ no_data_message) w').
Proof.
  induction ops as [|op ops IH]; intros w s rest Hh Hs.
  - exists w, []. rewrite app_nil_r. split; [done|]. split; [done|].
    split; [done|]. split; [done|]. by eapply holds_sentinel_head.
  - cbn [run_ops]. unfold bind. destruct op as [d|out]; cbn [run_op]; unfold bind.
    + pose proof Hh as (cells & Hq & Hrs).
      change (inserted (Op_insert d :: ops)) with (d :: inserted ops).
      destruct (sbuffer_insert_cases w b cells d Hq) as [[Hf ->]|[Hf (m' & -> & Hq')]].
      * destruct (IH (with_faults (drop 1 (faults w)) w) s rest) as
          (w' & added & Hrun & Hh' & Hsub & Hall & Hrm); [by exists cells|done|].
        exists w', added. split; [exact Hrun|]. split; [done|].
        split; [by apply sublist_cons|]. split; [|done].
        cbn [length take]. intros Hno. exfalso.
        unfold pending_fault in Hf. destruct (faults w) as [|f fl]; [done|].
        cbn in Hno. apply Forall_cons in Hno as [Hno _]. congruence.
      * destruct (IH (with_mem m' (with_faults (drop 1 (faults w)) w)) s
                    (rest ++ [d])) as (w' & added & Hrun & Hh' & Hsub & Hall & Hrm).
        { eexists. split; [exact Hq'|]. rewrite fmap_app, Hrs. done. }
        { done. }
        exists w', (d :: added). split; [exact Hrun|].
        split; [by rewrite <- app_assoc in Hh'|].
        split; [by apply sublist_skip|]. split; [|done].
        cbn [length]. intros Hno. f_equal. apply Hall.
        wsimpl. rewrite take_drop_commute.
        apply Forall_drop. exact Hno.
    + rewrite (holds_sentinel_head _ _ _ _ Hh Hs).
      destruct (IH (with_stdout (stdout w ++ no_data_message) w) s rest)
        as (w' & added & Hrun & Hh' & Hsub & Hall & Hrm); [done|done|].
      exists w', added. split; [exact Hrun|]. done.
Qed.

Lemma sentinel_is_never_removed_witness :
  ∃ w',
    run_ops 1%positive
      [Op_remove reading_2; Op_insert reading_1; Op_remove reading_2]
      (queue_of [end_signal]) = Done tt w'
    ∧ holds w' 1%positive [end_signal; reading_1].
Proof.
  destruct (sentinel_is_never_removed 1%positive
              [Op_remove reading_2; Op_insert reading_1; Op_remove reading_2]
              (queue_of [end_signal]) end_signal [])
    as (w' & added & Hrun & Hh & _ & Hall & _).
  - exists [(2%positive, end_signal)]. split; [|done].
    eexists. split; [vm_compute; reflexivity|]. split; [done|].
    split; [|split; [done|apply NoDup_singleton]].
    split; [done|]. eexists. split; [vm_compute; reflexivity|]. done.
  - done.
  - exists w'. split; [exact Hrun|]. rewrite Hall in Hh; [exact Hh|].
    vm_compute. constructor.
Defined.

(** ** The queue is first in, first out for all threads *)

(** No step changes a node that waits to be linked in. *)
Lemma step_pending_node b s a s' held cells t c l :
  step b s a s' → well_formed_with b s held cells →
  pool s !! t = Some c → pending_node c = Some l →
  mem (shared s') !! l = mem (shared s) !! l.
Proof.
  intros Hstep (Hq & Hlock & Hpend & Hbody) Hc Hl.
  pose proof Hq as (sb & Hb & _).
  assert (l ≠ b) as Hlb by (by eapply pending_not_buffer).
  destruct Hpend as [Hnode _].
  destruct (Hnode _ _ _ Hc Hl) as (Hnotin & d & Hd).
  inversion Hstep as [s0 t1 o Ht|s0 t1 o Ht|s0 t1 d1 Ht|s0 t1 d1 p w' Ht Hm
                     |s0 t1 c1 c' w' Ht Hown|s0 t1 l1 w' wk p' Ht Hlink Hsig
                     |s0 t1 o Ht|s0 t1 c1 Ht Hret]; subst; cbn [shared];
    try done.
  - apply malloc_inv in Hm as [[-> ->]|(l' & -> & Hl' & ->)]; [done|].
    rewrite lookup_insert_ne; [done|congruence].
  - destruct c1; cbn [thread_step] in Hown; try done.
    + destruct (pthread_mutex_lock b (shared s)) as [u w1| | |] eqn:Hlk; try done.
      simplify_eq. apply pthread_mutex_lock_inv in Hlk as (? & ? & ? & ->).
      cbn [mem with_mem]. by rewrite lookup_insert_ne.
    + destruct (load_buffer b (shared s)) as [sb1 w1| | |] eqn:Hld; try done.
      apply load_buffer_inv in Hld as [-> Hb1].
      destruct (head sb1); [by simplify_eq|].
      destruct (pthread_mutex_unlock b (shared s)) as [u w1| | |] eqn:Hun;
        try done.
      simplify_eq. apply pthread_mutex_unlock_inv in Hun as (? & ? & ->).
      cbn [mem with_mem]. by rewrite lookup_insert_ne.
    + destruct (pthread_mutex_lock b (shared s)) as [u w1| | |] eqn:Hlk; try done.
      simplify_eq. apply pthread_mutex_lock_inv in Hlk as (? & ? & ? & ->).
      cbn [mem with_mem]. by rewrite lookup_insert_ne.
    + destruct (remove_locked b out (shared s)) as [r w1| | |] eqn:Hrun; try done.
      simplify_eq. destruct Hlock as (Hheld & _).
      assert (held = true) as -> by (by eapply Hheld).
      destruct cells as [|[h dh] rest]; [by destruct (Hbody _ _ Ht)|].
      destruct (remove_locked_spec (shared s) b h dh rest out Hq)
        as (m' & Hframe & Hspec).
      assert (l ≠ h) by (intros ->; apply Hnotin; cbn; left).
      destruct (is_sentinel dh); destruct Hspec as [Hrun' _];
        rewrite Hrun' in Hrun; simplify_eq; cbn [mem with_mem with_stdout];
        by apply Hframe.
    + destruct (pthread_mutex_lock b (shared s)) as [u w1| | |] eqn:Hlk; try done.
      simplify_eq. apply pthread_mutex_lock_inv in Hlk as (? & ? & ? & ->).
      cbn [mem with_mem]. by rewrite lookup_insert_ne.
  - destruct Hlock as (Hheld & _).
    assert (held = true) as -> by (by eapply Hheld).
    destruct (Hnode _ _ _ Ht eq_refl) as (Hl1 & d1 & Hd1).
    destruct (insert_locked_spec (shared s) b cells l1 d1 Hq Hd1 Hl1)
      as (m' & Hrun & _ & Hframe).
    rewrite Hrun in Hlink. simplify_eq. cbn [mem with_mem]. by apply Hframe.
Qed.

(** Where the node of an insert in progress comes from: the thread has
    just called [sbuffer_insert], or it had the node before the step. *)
Lemma step_pending_from b s a s' t c' l :
  step b s a s' → pool s' !! t = Some c' → pending_node c' = Some l →
  (∃ bf d, a = Call_insert t (Some bf) d
           ∧ mem (shared s') !! l = Some (Node {| next := NULL; data := d |}))
  ∨ (∃ c, pool s !! t = Some c ∧ pending_node c = Some l
          ∧ ∀ bf d, a ≠ Call_insert t (Some bf) d).
Proof.
  intros Hstep Hc' Hl.
  inversion Hstep as [s0 t1 o Ht|s0 t1 o Ht|s0 t1 d1 Ht|s0 t1 d1 p w' Ht Hm
                     |s0 t1 c1 c1' w' Ht Hown|s0 t1 l1 w' wk p' Ht Hlink Hsig
                     |s0 t1 o Ht|s0 t1 c1 Ht Hret]; subst; cbn [shared pool] in *.
  - apply lookup_insert_Some in Hc' as [[<- <-]|[Hne Hc']]; [done|].
    right. exists c'. split; [done|]. split; [done|]. congruence.
  - apply lookup_insert_Some in Hc' as [[<- <-]|[Hne Hc']]; [done|].
    right. exists c'. split; [done|]. split; [done|]. congruence.
  - apply lookup_insert_Some in Hc' as [[<- <-]|[Hne Hc']]; [done|].
    right. exists c'. split; [done|]. split; [done|]. congruence.
  - apply lookup_insert_Some in Hc' as [[<- <-]|[Hne Hc']].
    + left. exists b, d1. split; [done|].
      apply malloc_inv in Hm as [[-> _]|(l' & -> & Hl' & ->)]; [done|].
      cbn in Hl. injection Hl as <-. apply lookup_insert_eq.
    + right. exists c'. split; [done|]. split; [done|]. congruence.
  - apply lookup_insert_Some in Hc' as [[<- <-]|[Hne Hc']].
    + right. exists c1. split; [done|]. split; [|done].
      destruct c1; cbn [thread_step] in Hown; try done;
        repeat case_match; simplify_eq; done.
    + right. exists c'. split; [done|]. split; [done|]. done.
  - apply lookup_insert_Some in Hc' as [[<- <-]|[Hne Hc']]; [done|].
    right. inversion Hsig as [|t2 o Ht2]; subst.
    + exists c'. split; [done|]. split; [done|]. done.
    + apply lookup_insert_Some in Hc' as [[<- <-]|[Hne' Hc']]; [done|].
      exists c'. split; [done|]. split; [done|]. done.
  - apply lookup_insert_Some in Hc' as [[<- <-]|[Hne Hc']]; [done|].
    right. exists c'. split; [done|]. split; [done|]. done.
  - apply lookup_insert_Some in Hc' as [[<- <-]|[Hne Hc']]; [done|].
    right. exists c'. split; [done|]. split; [done|]. done.
Qed.

Lemma step_args_ok b s a s' held cells args :
  step b s a s' → well_formed_with b s held cells → args_ok args s →
  args_ok (next_args args a) s'.
Proof.
  intros Hstep Hwf Hargs t c' l Hc' Hl.
  destruct (step_pending_from _ _ _ _ _ _ _ Hstep Hc' Hl)
    as [(bf & d & -> & Hd)|(c & Hc & Hlc & Hne)].
  - exists d. split; [apply lookup_insert_eq|done].
  - destruct (Hargs _ _ _ Hc Hlc) as (d & Hd & Hnode). exists d. split.
    + destruct a as [| t1 [bf|] d1 | | | |]; cbn [next_args]; try done.
      rewrite lookup_insert_ne; [done|]. intros ->. by eapply Hne.
    + by rewrite (step_pending_node _ _ _ _ _ _ _ _ _ Hstep Hwf Hc Hlc).
Qed.

Lemma history_fifo b s h s' :
  history b s h s' → ∀ held cells args,
  well_formed_with b s held cells → args_ok args s →
  ∃ held' cells',
    well_formed_with b s' held' cells'
    ∧ cells.*2 ++ enqueued_from args h = dequeued h ++ cells'.*2
    ∧ Forall (λ d, is_sentinel d = false) (dequeued h).
Proof.
  induction 1 as [s|s a s1 h s2 Hstep _ IH]; intros held cells args Hwf Hargs.
  { exists held, cells. split; [done|]. cbn. by rewrite app_nil_r. }
  destruct (step_contents _ _ _ _ _ _ Hstep Hwf) as (held1 & cells1 & Hwf1 & Heff).
  pose proof (step_args_ok _ _ _ _ _ _ _ Hstep Hwf Hargs) as Hargs1.
  destruct (IH _ _ _ Hwf1 Hargs1) as (held2 & cells2 & Hwf2 & Heq & Hns).
  exists held2, cells2. split; [done|].
  destruct a as [t bf o|t bf d|t|t wk|t|t]; cbn [observe next_args] in *.
  - subst cells1. by destruct bf.
  - subst cells1. by destruct bf.
  - destruct (pool s !! t) as [[]|]; try (subst cells1; done).
    destruct (pool s1 !! t) as [[| | | | | |[] d| | |]|]; try (subst cells1; done).
    destruct Heff as [Hd Hsd].
    change (dequeued (option_list (Some (Dequeued t d)) ++ h))
      with (d :: dequeued h).
    change (enqueued_from args (option_list (Some (Dequeued t d)) ++ h))
      with (enqueued_from args h).
    split; [|by constructor].
    rewrite Hd, <- !app_comm_cons. f_equal. exact Heq.
  - destruct Heff as (l & d & Ht & Hnode & ->).
    destruct (Hargs _ _ _ Ht eq_refl) as (d' & Hd' & Hnode').
    assert (d' = d) as -> by congruence.
    change (dequeued (option_list (Some (Linked t)) ++ h)) with (dequeued h).
    change (enqueued_from args (option_list (Some (Linked t)) ++ h))
      with (option_list (args !! t) ++ enqueued_from args h).
    rewrite Hd'. split; [|done].
    rewrite <- Heq, fmap_app, <- app_assoc. done.
  - by subst cells1.
  - by subst cells1.
Qed.

Lemma idle_well_formed_with b w p cells :
  is_queue (mem w) b cells → (∀ t c, p !! t = Some c → c = Idle) →
  well_formed_with b {| shared := w; pool := p |} false cells.
Proof.
  intros Hq Hidle. cbn [shared pool].
  split; [exact Hq|]. split; [|split].
  - split; [|split].
    + intros t c Hc Hh. by rewrite (Hidle _ _ Hc) in Hh.
    + done.
    + intros t t' c c' Hc _ Hh. by rewrite (Hidle _ _ Hc) in Hh.
  - split.
    + intros t c l Hc Hl. by rewrite (Hidle _ _ Hc) in Hl.
    + intros t t' c c' l Hc _ Hl. by rewrite (Hidle _ _ Hc) in Hl.
  - intros t out Hc. by apply Hidle in Hc.
Qed.

(** The queue is first in, first out for any number of threads: however
    the calls of the threads interleave, the records handed out by the
    successful removes are, in that order, the first of the records that
    were in the queue followed by the arguments of the inserts in the
    order in which their nodes were linked in; what is left of them is in
    the queue.  No record is handed out twice, none is lost, and none with
    id 0 is handed out. *)
Theorem queue_is_fifo_for_all_threads b w p cells h s :
  is_queue (mem w) b cells →
  (∀ t c, p !! t = Some c → c = Idle) →
  history b {| shared := w; pool := p |} h s →
  ∃ held cells',
    queue_shape (mem (shared s)) b held cells'
    ∧ cells.*2 ++ enqueued h = dequeued h ++ cells'.*2
    ∧ dequeued h `prefix_of` cells.*2 ++ enqueued h
    ∧ Forall (λ d, is_sentinel d = false) (dequeued h).
Proof.
  intros Hq Hidle Hh.
  destruct (history_fifo _ _ _ _ Hh false cells ∅) as
    (held & cells' & (Hq' & _) & Heq & Hns).
  - by apply idle_well_formed_with.
  - intros t c l Hc Hl. by rewrite (Hidle _ _ Hc) in Hl.
  - exists held, cells'. split; [done|]. split; [done|]. split; [|done].
    unfold enqueued. rewrite Heq. by eexists.
Qed.

Lemma nobody_waits (p : gmap nat control) :
  map_Forall (λ _ c, is_waiting c = false) p →
  ∀ t out, p !! t ≠ Some (Remove_wait out).
Proof. intros Hp t out Ht. by specialize (Hp _ _ Ht). Qed.

Ltac no_waiter :=
  apply signal_nobody, nobody_waits; apply (bool_decide_unpack _);
  vm_compute; exact I.

(** A producer (thread 1) inserts two records and a consumer (thread 0)
    removes one. *)
Lemma two_inserts_one_remove :
  ∃ h s, history 1%positive (two_threads Idle Idle fresh_queue) h s
         ∧ enqueued h = [reading_1; reading_2]
         ∧ dequeued h = [reading_1].
Proof.
  eexists _, _. split.
  - eapply history_cons;
      [eapply (step_call_insert _ _ 1%nat reading_1);
       [reflexivity|vm_compute; reflexivity]|].
    eapply history_cons;
      [eapply (step_own _ _ 1%nat); [reflexivity|vm_compute; reflexivity]|].
    eapply history_cons;
      [eapply (step_link _ _ 1%nat);
       [reflexivity|vm_compute; reflexivity|no_waiter]|].
    eapply history_cons; [eapply (step_return _ _ 1%nat); [reflexivity|eauto]|].
    eapply history_cons;
      [eapply (step_call_insert _ _ 1%nat reading_2);
       [reflexivity|vm_compute; reflexivity]|].
    eapply history_cons;
      [eapply (step_own _ _ 1%nat); [reflexivity|vm_compute; reflexivity]|].
    eapply history_cons;
      [eapply (step_link _ _ 1%nat);
       [reflexivity|vm_compute; reflexivity|no_waiter]|].
    eapply history_cons; [by eapply (step_call_remove _ _ 0%nat end_signal)|].
    eapply history_cons;
      [eapply (step_own _ _ 0%nat); [reflexivity|vm_compute; reflexivity]|].
    eapply history_cons;
      [eapply (step_own _ _ 0%nat); [reflexivity|vm_compute; reflexivity]|].
    eapply history_cons;
      [eapply (step_own _ _ 0%nat); [reflexivity|vm_compute; reflexivity]|].
    apply history_nil.
  - split; vm_compute; reflexivity.
Qed.

Lemma queue_is_fifo_for_all_threads_witness :
  ∃ h s held cells',
    history 1%positive (two_threads Idle Idle fresh_queue) h s
    ∧ dequeued h = [reading_1]
    ∧ queue_shape (mem (shared s)) 1%positive held cells'
    ∧ cells'.*2 = [reading_2].
Proof.
  destruct two_inserts_one_remove as (h & s & Hh & Henq & Hdeq).
  destruct (queue_is_fifo_for_all_threads 1%positive fresh_queue
              {[ 0%nat := Idle; 1%nat := Idle ]} [] h s
              fresh_queue_is_queue) as (held & cells' & Hq & Heq & _).
  - intros t c [[_ <-]|[_ [_ <-]%lookup_singleton_Some]]%lookup_insert_Some;
      reflexivity.
  - exact Hh.
  - exists h, s, held, cells'. split; [exact Hh|]. split; [exact Hdeq|].
    split; [exact Hq|]. rewrite Henq, Hdeq in Heq. by injection Heq.
Defined.

(** ** The mutex does not deadlock the threads *)

Lemma thread_progress b s t c :
  well_formed b s → pool s !! t = Some c →
  (∃ a s', step b s a s' ∧ actor a = Some t)
  ∨ (∃ out, c = Remove_wait out)
  ∨ (wants_mutex c = true
     ∧ ∃ t' c' a s', t' ≠ t ∧ pool s !! t' = Some c' ∧ holds_mutex c' = true
                     ∧ step b s a s' ∧ actor a = Some t').
Proof.
  intros Hwf Hc. pose proof Hwf as (held & cells & Hq & Hlock & _).
  assert (wants_mutex c = true →
          (∃ a s', step b s a s' ∧ actor a = Some t)
          ∨ ∃ t' c' a s', t' ≠ t ∧ pool s !! t' = Some c'
                          ∧ holds_mutex c' = true
                          ∧ step b s a s' ∧ actor a = Some t') as Hwant.
  { intros Hw. destruct held.
    - right. destruct Hlock as (_ & Hsome & _).
      destruct (Hsome eq_refl) as (t' & c' & Hc' & Hh').
      destruct (holder_can_step _ _ _ _ Hwf Hc' Hh') as (a & s' & Hstep & Ha).
      exists t', c', a, s'. split; [|done]. intros ->.
      assert (c' = c) as -> by congruence. by destruct c.
    - left. destruct Hq as (sb & Hb & Hm & _).
      pose proof (pthread_mutex_lock_free _ _ _ Hb Hm) as Hlk.
      destruct c; try done;
        (exists (Own t); eexists; split; [|done]; eapply step_own; [done|];
         cbn [thread_step]; by rewrite Hlk). }
  destruct c.
  - left. exists (Call_remove t NULL end_signal). eexists.
    split; [by apply step_call_remove_null|done].
  - destruct (Hwant eq_refl) as [?|?]; [by left|right; right; done].
  - left. by eapply holder_can_step.
  - right. left. by eexists.
  - destruct (Hwant eq_refl) as [?|?]; [by left|right; right; done].
  - left. by eapply holder_can_step.
  - left. exists (Return t). eexists. split; [|done].
    eapply step_return; [done|]. left. by eexists _, _.
  - destruct (Hwant eq_refl) as [?|?]; [by left|right; right; done].
  - left. by eapply holder_can_step.
  - left. exists (Return t). eexists. split; [|done].
    eapply step_return; [done|]. right. by eexists.
Qed.

(** The mutex of the queue never deadlocks the threads: in every state
    they reach, a thread can take a step unless it sleeps in
    [pthread_cond_wait], or waits for the mutex that another thread holds,
    and that thread can take a step. *)
Theorem queue_mutex_never_deadlocks b w p cells tr s t c :
  is_queue (mem w) b cells →
  (∀ t c, p !! t = Some c → c = Idle) →
  exec b {| shared := w; pool := p |} tr s →
  pool s !! t = Some c →
  (∃ a s', step b s a s' ∧ actor a = Some t)
  ∨ (∃ out, c = Remove_wait out)
  ∨ (wants_mutex c = true
     ∧ ∃ t' c' a s', t' ≠ t ∧ pool s !! t' = Some c' ∧ holds_mutex c' = true
                     ∧ step b s a s' ∧ actor a = Some t').
Proof.
  intros Hq Hidle Hexec Hc. eapply thread_progress; [|exact Hc].
  eapply exec_well_formed; [exact Hexec|]. by eapply idle_well_formed.
Qed.

(** While the producer (thread 1) is between lock and unlock, the consumer
    (thread 0) is at line 269. *)
Lemma consumer_wants_mutex :
  ∃ s, exec 1%positive (two_threads Idle Idle fresh_queue)
         [Call_insert 1 (Some 1%positive) reading_1; Own 1;
          Call_remove 0 (Some 1%positive) end_signal] s
       ∧ pool s !! 0%nat = Some (Remove_lock end_signal)
       ∧ thread_step 1%positive (Remove_lock end_signal) (shared s) = None.
Proof.
  eexists. split.
  - eapply exec_cons;
      [eapply (step_call_insert _ _ 1%nat reading_1);
       [reflexivity|vm_compute; reflexivity]|].
    eapply exec_cons;
      [eapply (step_own _ _ 1%nat); [reflexivity|vm_compute; reflexivity]|].
    eapply exec_cons; [by eapply (step_call_remove _ _ 0%nat end_signal)|].
    apply exec_nil.
  - split; vm_compute; reflexivity.
Qed.

Lemma queue_mutex_never_deadlocks_witness :
  ∃ s t' c' a s',
    pool s !! 0%nat = Some (Remove_lock end_signal)
    ∧ thread_step 1%positive (Remove_lock end_signal) (shared s) = None
    ∧ t' ≠ 0%nat ∧ pool s !! t' = Some c' ∧ holds_mutex c' = true
    ∧ step 1%positive s a s' ∧ actor a = Some t'.
Proof.
  destruct consumer_wants_mutex as (s & Hexec & Hc & Hstuck).
  destruct (queue_mutex_never_deadlocks 1%positive fresh_queue
              {[ 0%nat := Idle; 1%nat := Idle ]} []
              [Call_insert 1 (Some 1%positive) reading_1; Own 1;
               Call_remove 0 (Some 1%positive) end_signal] s 0%nat
              (Remove_lock end_signal) fresh_queue_is_queue)
    as [(a & s' & Hstep & Ha)|[(out & Hout)|(_ & t' & c' & a & s' & H)]].
  - intros t c [[_ <-]|[_ [_ <-]%lookup_singleton_Some]]%lookup_insert_Some;
      reflexivity.
  - exact Hexec.
  - exact Hc.
  - exfalso. inversion Hstep; subst; cbn [actor] in Ha; simplify_eq.
    match goal with
    | H : _ ∨ _ |- _ => by destruct H as [(? & ? & ?)|(? & ?)]
    end.
  - done.
  - exists s, t', c', a, s'. split; [exact Hc|]. split; [exact Hstuck|]. exact H.
Defined.

(** ** Runs of the consumer *)

Lemma vformat_log_failure_text sid :
  vformat (line "Failed to log data: ID=%d") [ArgInt sid] = Some (log_failure sid).
Proof. reflexivity. Qed.

Lemma vformat_logged_text d :
  vformat (line "Logged: SensorID=%d, Value=%.2f, Timestamp=%ld")
    [ArgInt (id d); ArgDouble (value d); ArgLong (ts d)]
  = Some (logged_line d).
Proof. reflexivity. Qed.

(** A consumer that was given no queue never stops: every call of
    [sbuffer_remove] fails, the thread reports it and calls again. *)
Theorem consumer_spins_without_queue fuel : ∀ output_csv garbage w,
  consumer_thread fuel {| shared_buf := NULL; sensor_file := output_csv |}
    garbage w
  = OutOfFuel (with_stderr (stderr w ++ mjoin (replicate fuel read_error)) w).
Proof.
  unfold consumer_thread. cbn [shared_buf sensor_file].
  induction fuel as [|fuel IH]; intros output_csv garbage w.
  - cbn. unfold out_of_fuel. f_equal. apply world_ext; cbn; try done.
    by rewrite app_nil_r.
  - cbn [consumer_loop sbuffer_remove]. unfold bind, ret at 1.
    cbn [fst snd]. rewrite decide_True by done.
    unfold eprintf. change (vformat _ []) with (Some read_error).
    cbv beta iota. rewrite IH. f_equal. apply world_ext; cbn; try done.
    by rewrite <- app_assoc.
Qed.

(** One iteration of the consumer in front of a data record. *)
Lemma consumer_iteration_data w b h d rest f F stale :
  is_queue (mem w) b ((h, d) :: rest) → is_sentinel d = false →
  csv_mutex w = false → files w !! f = Some F →
  let r := logged F (csv_row d ++ [LF]) (fault_at 0 w) (fault_at 1 w) in
  ∃ w', (∀ n, consumer_loop (S n) (Some b) (Some f) stale w
              = consumer_loop n (Some b) (Some f) d w')
        ∧ is_queue (mem w') b rest
        ∧ files w' = <[f := r.1]> (files w)
        ∧ csv_mutex w' = false
        ∧ stdout w'
          = stdout w ++ (if fault_at 0 w || fault_at 1 w then []
                         else logged_line d)
        ∧ stderr w'
          = stderr w ++ (if fault_at 0 w then write_error ++ log_failure (id d)
                         else if fault_at 1 w
                              then flush_error ++ log_failure (id d)
                              else [])
        ∧ faults w' = drop (if fault_at 0 w then 1 else 2) (faults w).
Proof.
  intros Hq Hd Hcsv Hf r.
  destruct (sbuffer_remove_ok w b h d rest stale Hq Hd) as (m' & Hrm & Hq').
  set (w1 := with_mem m' w) in *.
  set (w2 := with_csv_mutex true w1).
  destruct (log_sensor_data_open w2 f F (id d) (value d) (ts d) Hf)
    as (w3 & Hlog & Hfiles3 & Hmem3 & Hout3 & Hcsv3 & Herr3 & Hfl3).
  change (fault_at 0 w2) with (fault_at 0 w) in *.
  change (fault_at 1 w2) with (fault_at 1 w) in *.
  change (csv_row {| id := id d; value := value d; ts := ts d |})
    with (csv_row d) in *.
  fold r in Hlog, Hfiles3.
  assert ((id d =? 0) = false) as Hid by done.
  assert (r.2 = if fault_at 0 w || fault_at 1 w then -1 else 0) as Hrc.
  { subst r. unfold logged. by destruct (fault_at 0 w), (fault_at 1 w). }
  set (w4 := if fault_at 0 w || fault_at 1 w
             then with_stderr (stderr w3 ++ log_failure (id d)) w3
             else with_stdout (stdout w3 ++ logged_line d) w3).
  exists (with_csv_mutex false w4). split.
  { intros n. cbn [consumer_loop]. unfold bind at 1. rewrite Hrm.
    cbn [fst snd]. rewrite decide_False by done. rewrite Hid.
    unfold bind, lock_csv_mutex. replace (csv_mutex w1) with false by done.
    fold w2. rewrite Hlog, Hrc. subst w4.
    destruct (fault_at 0 w || fault_at 1 w); cbn [Z.eqb negb].
    - by rewrite (eprintf_Done _ _ _ _ (vformat_log_failure_text (id d))).
    - by rewrite (printf_Done _ _ _ _ (vformat_logged_text d)). }
  subst w4. destruct (fault_at 0 w) eqn:H0, (fault_at 1 w) eqn:H1;
    cbn [orb] in *; cbn [mem files stdout stderr csv_mutex faults
                          with_stderr with_stdout with_csv_mutex];
    rewrite ?Hmem3, ?Hfiles3, ?Hout3, ?Herr3, ?Hfl3, ?app_nil_r, <- ?app_assoc;
    done.
Qed.

Lemma consumer_logs_records b f data : ∀ w cells rest stale F,
  is_queue (mem w) b (cells ++ rest) → cells.*2 = data →
  Forall (λ d, is_sentinel d = false) data →
  csv_mutex w = false → files w !! f = Some F → pending F = [] →
  (∀ k, (k < 2 * length data)%nat → fault_at k w = false) →
  ∃ w',
    (∀ n, consumer_loop (length data + n) (Some b) (Some f) stale w
          = consumer_loop n (Some b) (Some f) (default stale (last data)) w')
    ∧ is_queue (mem w') b rest
    ∧ csv_mutex w' = false
    ∧ files w' = <[f := appended F data]> (files w)
    ∧ stdout w' = stdout w ++ mjoin (logged_line <$> data)
    ∧ stderr w' = stderr w
    ∧ faults w' = drop (2 * length data) (faults w).
Proof.
  induction data as [|d data IH];
    intros w cells rest stale F Hq Hcells Hdata Hcsv Hf Hpend Hfaults.
  - apply fmap_nil_inv in Hcells as ->. exists w.
    split; [done|]. split; [done|]. split; [done|]. split; [|split].
    + unfold appended, csv_rows. cbn. rewrite app_nil_r, <- Hpend.
      rewrite insert_id; [done|]. by destruct F.
    + cbn. by rewrite app_nil_r.
    + done.
  - destruct cells as [|[h d'] cells']; [done|]. injection Hcells as -> Hcells.
    apply Forall_cons in Hdata as [Hd Hdata].
    destruct (consumer_iteration_data w b h d (cells' ++ rest) f F stale Hq Hd
                Hcsv Hf)
      as (w1 & Hstep & Hq1 & Hfiles1 & Hcsv1 & Hout1 & Herr1 & Hfl1).
    rewrite (Hfaults 0%nat) in * by (cbn; lia).
    rewrite (Hfaults 1%nat) in * by (cbn; lia).
    cbn [orb logged fst] in *.
    set (F1 := {| on_disk := on_disk F ++ pending F ++ csv_row d ++ [LF];
                  rpos := rpos F; pending := [] |}) in *.
    destruct (IH w1 cells' rest d F1 Hq1 Hcells Hdata Hcsv1)
      as (w' & Hrun & Hq' & Hcsv' & Hfiles' & Hout' & Herr' & Hfl').
    { rewrite Hfiles1. apply lookup_insert_eq. }
    { done. }
    { intros k Hk. rewrite (fault_at_drop k 2 w w1) by done. apply Hfaults.
      cbn [length]. lia. }
    exists w'. split; [|split; [done|split; [done|split; [|split; [|split]]]]].
    + intros n. cbn [length Nat.add]. rewrite Hstep, Hrun, last_cons.
      by destruct (last data).
    + rewrite Hfiles', Hfiles1, insert_insert_eq. f_equal.
      unfold appended, csv_rows, F1. cbn. rewrite Hpend. cbn.
      by rewrite <- !app_assoc.
    + rewrite Hout', Hout1.
      change (mjoin (logged_line <$> d :: data))
        with (logged_line d ++ mjoin (logged_line <$> data)).
      by rewrite <- app_assoc.
    + by rewrite Herr', Herr1, app_nil_r.
    + rewrite Hfl', Hfl1, drop_drop. f_equal. cbn [length]. lia.
Qed.

(** A consumer on a queue of data records: it removes them all, writes
    their rows to the output file in the order of the queue, one line each,
    reports each on [stdout], and then waits in [sbuffer_remove] on the
    empty queue. *)
Theorem consumer_logs_queue_in_order fuel w b f F data garbage :
  holds w b data →
  Forall (λ d, is_sentinel d = false) data →
  csv_mutex w = false → files w !! f = Some F → pending F = [] →
  (∀ k, (k < 2 * length data)%nat → fault_at k w = false) →
  (length data < fuel)%nat →
  ∃ w',
    consumer_thread fuel {| shared_buf := Some b; sensor_file := Some f |}
      garbage w = Blocked w'
    ∧ holds w' b []
    ∧ files w' !! f = Some (appended F data)
    ∧ stdout w' = stdout w ++ mjoin (logged_line <$> data)
    ∧ stderr w' = stderr w.
Proof.
  intros (cells & Hq & Hcells) Hdata Hcsv Hf Hpend Hfaults Hfuel.
  rewrite <- (app_nil_r cells) in Hq.
  destruct (consumer_logs_records b f data w cells [] garbage F Hq Hcells Hdata
              Hcsv Hf Hpend Hfaults)
    as (w' & Hrun & Hq' & Hcsv' & Hfiles' & Hout' & Herr' & _).
  exists w'. unfold consumer_thread. cbn [shared_buf sensor_file].
  replace fuel with (length data + S (fuel - S (length data)))%nat by lia.
  rewrite Hrun. cbn [consumer_loop]. unfold bind at 1.
  pose proof (sbuffer_remove_cases w' b [] (default garbage (last data)) Hq')
    as Hblk.
  cbv beta iota in Hblk. rewrite Hblk.
  split; [done|]. split; [by exists []|].
  split; [rewrite Hfiles'; apply lookup_insert_eq|done].
Qed.

Lemma consumer_logs_queue_in_order_witness :
  ∃ w',
    consumer_thread 3 consumer_parameters end_signal
      (queue_of [reading_1; reading_2]) = Blocked w'
    ∧ on_disk <$> files w' !! 1%positive
      = Some (line "1,10.50,100" ++ line "2,20.50,200").
Proof.
  destruct (consumer_logs_queue_in_order 3 (queue_of [reading_1; reading_2])
              1%positive 1%positive empty_file [reading_1; reading_2] end_signal)
    as (w' & Hrun & _ & Hfile & _).
  - exists [(2%positive, reading_1); (3%positive, reading_2)]. split; [|done].
    eexists. split; [vm_compute; reflexivity|]. split; [done|].
    split; [|split; [done|]].
    + split; [done|]. eexists. split; [vm_compute; reflexivity|].
      split; [done|]. eexists. split; [vm_compute; reflexivity|]. done.
    + apply NoDup_cons. split; [by intros ?%list_elem_of_singleton|].
      apply NoDup_singleton.
  - by repeat constructor.
  - reflexivity.
  - reflexivity.
  - reflexivity.
  - intros k _. unfold fault_at.
    assert (faults (queue_of [reading_1; reading_2]) = []) as ->
      by (vm_compute; reflexivity).
    done.
  - cbn. lia.
  - exists w'. split; [exact Hrun|].
    etrans; [exact (f_equal (fmap on_disk) Hfile)|]. vm_compute. reflexivity.
Defined.



(** ** Runs of the producer *)

Lemma vformat_insert_failure_text sid :
  vformat (line "Buffer insertion failed for data: ID=%d") [ArgInt sid]
  = Some (insert_failure sid).
Proof. reflexivity. Qed.

Lemma with_files_with_files fs fs' w :
  with_files fs (with_files fs' w) = with_files fs w.
Proof. done. Qed.

(** Lines 78-80: the three reads at the head of an iteration. *)
Lemma read_loop_step cfg fuel buffer f w F :
  files w !! f = Some F →
  (record_ahead cfg (unread F) ∧
   read_loop (S fuel) cfg buffer f w
   = (st <- sbuffer_insert buffer (decode_record cfg (unread F)) ;;
      (if decide (st = SBUFFER_SUCCESS) then ret tt
       else eprintf (line "Buffer insertion failed for data: ID=%d")
              [ArgInt (id (decode_record cfg (unread F)))]) ;;
      read_loop fuel cfg buffer f)
       (with_files (<[f := advance (sizeof_record cfg) F]> (files w)) w))
  ∨ (¬ record_ahead cfg (unread F) ∧
     ∃ F', read_loop (S fuel) cfg buffer f w
           = Done tt (with_files (<[f := F']> (files w)) w)).
Proof.
  intros Hf. unfold record_ahead, sizeof_record, decode_record.
  set (a := sizeof_id cfg). set (sv := sizeof_value cfg). set (c := sizeof_ts cfg).
  assert (Hf1 : ∀ w1 F1, files (with_files (<[f := F1]> (files w1)) w1) !! f
                         = Some F1) by (intros; apply lookup_insert_eq).
  destruct (decide (0 < a ∧ 0 < sv ∧ 0 < c ∧ a + sv + c ≤ length (unread F))%nat)
    as [Hr|Hr]; [left|right]; (split; [done|]);
    cbn [read_loop]; fold a sv c; unfold bind at 1.
  - rewrite (fread_Some _ _ _ _ Hf) by lia. unfold bind at 1.
    rewrite (fread_Some _ _ _ _ (Hf1 _ _))
      by (rewrite unread_advance, length_drop; lia).
    unfold bind at 1.
    rewrite (fread_Some _ _ _ _ (Hf1 _ _))
      by (rewrite !unread_advance, !length_drop; lia).
    rewrite !unread_advance, drop_drop.
    cbn [files with_files]. rewrite !with_files_with_files, !insert_insert_eq.
    replace (advance c (advance sv (advance a F))) with (advance (a + sv + c) F);
      [reflexivity|].
    unfold advance. cbn. f_equal. lia.
  - destruct (decide (0 < a ≤ length (unread F))%nat) as [Ha|Ha]; last first.
    { unfold fread, bind. rewrite (load_file_Done _ _ _ Hf).
      fold (unread F). repeat case_bool_decide; try lia;
        first [by eexists
              | exists F; rewrite insert_id by done; by destruct w]. }
    rewrite (fread_Some _ _ _ _ Hf Ha). unfold bind at 1.
    destruct (decide (0 < sv ≤ length (unread (advance a F)))%nat) as [Hb|Hb];
      last first.
    { rewrite unread_advance, length_drop in Hb.
      unfold fread, bind. cbv beta. rewrite (load_file_Done _ _ _ (Hf1 _ _)).
      fold (unread (advance a F)). rewrite unread_advance, length_drop.
      repeat case_bool_decide; try lia; unfold store_file, ret; cbv beta iota;
        cbn [files with_files];
        rewrite ?with_files_with_files, ?insert_insert_eq; by eexists. }
    rewrite (fread_Some _ _ _ _ (Hf1 _ _) Hb). unfold bind at 1.
    rewrite unread_advance, length_drop in Hb.
    unfold fread, bind. cbv beta. rewrite (load_file_Done _ _ _ (Hf1 _ _)).
    fold (unread (advance sv (advance a F))).
    rewrite !unread_advance, !length_drop.
    repeat case_bool_decide; try lia; unfold store_file, ret; cbv beta iota;
      cbn [files with_files];
      rewrite ?with_files_with_files, ?insert_insert_eq; by eexists.
Qed.

Lemma read_loop_keeps_files cfg fuel buffer f w F :
  files w !! f = Some F → ¬ record_ahead cfg (unread F) →
  ∃ w', read_loop (S fuel) cfg buffer f w = Done tt w'
        ∧ mem w' = mem w ∧ stderr w' = stderr w ∧ stdout w' = stdout w
        ∧ csv_mutex w' = csv_mutex w ∧ faults w' = faults w
        ∧ (∀ g, g ≠ f → files w' !! g = files w !! g).
Proof.
  intros Hf Hr.
  destruct (read_loop_step cfg fuel buffer f w F Hf) as [[? _]|[_ (F' & ->)]];
    [done|].
  eexists. split; [reflexivity|]. repeat split; try done.
  intros g Hg. cbn. by rewrite lookup_insert_ne.
Qed.

Lemma parse_S cfg n bytes :
  parse (S n) cfg bytes
  = if bool_decide (record_ahead cfg bytes)
    then decode_record cfg bytes :: parse n cfg (drop (sizeof_record cfg) bytes)
    else [].
Proof. reflexivity. Qed.

Lemma enqueued_of_app rs rs' fl :
  enqueued_of (rs ++ rs') fl
  = enqueued_of rs fl ++ enqueued_of rs' (drop (length rs) fl).
Proof.
  revert fl. induction rs as [|r rs IH]; intros fl; [done|].
  cbn [app enqueued_of length]. rewrite IH, drop_drop.
  by destruct (default false (fl !! 0%nat)).
Qed.

Lemma pending_fault_head w : pending_fault w = default false (faults w !! 0%nat).
Proof. unfold pending_fault. by destruct (faults w). Qed.

(** One insert, by the verdict of the environment on its allocation. *)
Lemma sbuffer_insert_verdict w b rs d :
  holds w b rs →
  ∃ w', sbuffer_insert (Some b) d w
        = Done (if pending_fault w then SBUFFER_FAILURE else SBUFFER_SUCCESS) w'
        ∧ holds w' b (rs ++ enqueued_of [d] (faults w))
        ∧ faults w' = drop 1 (faults w)
        ∧ files w' = files w ∧ stdout w' = stdout w ∧ stderr w' = stderr w
        ∧ csv_mutex w' = csv_mutex w.
Proof.
  intros (cells & Hq & <-). cbn [enqueued_of]. rewrite <- pending_fault_head.
  destruct (sbuffer_insert_cases w b cells d Hq) as [[Hf ->]|[Hf (m' & -> & Hq')]];
    rewrite Hf.
  - eexists. split; [reflexivity|]. split; [|done]. rewrite app_nil_r.
    by exists cells.
  - eexists. split; [reflexivity|]. split; [|done].
    eexists. split; [exact Hq'|]. by rewrite fmap_app.
Qed.

(** Lines 78-87 with a queue: every record of the stream is either put
    into the queue or reported on [stderr]. *)
Lemma read_loop_exact cfg b f fuel : ∀ w rs0 F,
  holds w b rs0 → files w !! f = Some F →
  (length (unread F) < fuel)%nat →
  let rs := parse fuel cfg (unread F) in
  ∃ w',
    read_loop fuel cfg (Some b) f w = Done tt w'
    ∧ holds w' b (rs0 ++ enqueued_of rs (faults w))
    ∧ stderr w'
      = stderr w ++ mjoin ((λ r, insert_failure (id r)) <$> reported_of rs (faults w))
    ∧ stdout w' = stdout w
    ∧ csv_mutex w' = csv_mutex w
    ∧ faults w' = drop (length rs) (faults w)
    ∧ (∀ g, g ≠ f → files w' !! g = files w !! g).
Proof.
  cbv zeta. induction fuel as [|fuel IH]; intros w rs0 F Hh Hf Hfuel; [lia|].
  rewrite parse_S.
  destruct (read_loop_step cfg fuel (Some b) f w F Hf)
    as [[Hr ->]|[Hr _]].
  - rewrite bool_decide_eq_true_2 by done.
    set (entry := decode_record cfg (unread F)).
    set (w1 := with_files _ w).
    destruct (sbuffer_insert_verdict w1 b rs0 entry Hh)
      as (w2 & Hins & Hh2 & Hfl2 & Hfiles2 & Hout2 & Herr2 & Hcsv2).
    unfold bind at 1. rewrite Hins. unfold bind at 1.
    change (faults w1) with (faults w) in *.
    change (pending_fault w1) with (pending_fault w).
    assert (Hlen : (length (unread (advance (sizeof_record cfg) F)) < fuel)%nat).
    { rewrite unread_advance, length_drop. unfold record_ahead, sizeof_record in *.
      lia. }
    assert (Hf2 : files w2 !! f = Some (advance (sizeof_record cfg) F)).
    { rewrite Hfiles2. apply lookup_insert_eq. }
    cbn [enqueued_of reported_of length]. rewrite <- pending_fault_head.
    cbn [enqueued_of] in Hh2. rewrite <- pending_fault_head in Hh2.
    destruct (pending_fault w) eqn:Hpf.
    + rewrite decide_False by done.
      rewrite (eprintf_Done _ _ _ _ (vformat_insert_failure_text (id entry))).
      set (w3 := with_stderr _ w2).
      rewrite app_nil_r in Hh2.
      assert (holds w3 b rs0) as Hh3 by done.
      destruct (IH w3 rs0 _ Hh3 Hf2 Hlen)
        as (w' & Hrun & Hh' & Herr' & Hout' & Hcsv' & Hfl' & Hfr').
      rewrite unread_advance in *.
      exists w'. split; [exact Hrun|].
      change (faults w3) with (faults w2) in *. rewrite Hfl2 in *.
      split; [exact Hh'|]. split.
      { rewrite Herr'. subst w3. cbn [stderr with_stderr]. rewrite Herr2.
        cbn [fmap list_fmap mjoin]. 
        change (stderr w1) with (stderr w). by rewrite <- app_assoc. }
      split; [rewrite Hout'; subst w3; cbn [stdout with_stderr]; by rewrite Hout2|].
      split; [rewrite Hcsv'; subst w3; cbn [csv_mutex with_stderr];
              by rewrite Hcsv2|].
      split; [by rewrite Hfl', drop_drop|].
      intros g Hg. rewrite Hfr' by done. subst w3. cbn [files with_stderr].
      rewrite Hfiles2. subst w1. cbn [files with_files].
      by rewrite lookup_insert_ne.
    + rewrite decide_True by done. unfold ret at 1.
      destruct (IH w2 _ _ Hh2 Hf2 Hlen)
        as (w' & Hrun & Hh' & Herr' & Hout' & Hcsv' & Hfl' & Hfr').
      rewrite unread_advance in *.
      exists w'. split; [exact Hrun|]. rewrite Hfl2 in *.
      split; [by rewrite <- app_assoc in Hh'|].
      split; [by rewrite Herr', Herr2|].
      split; [by rewrite Hout', Hout2|].
      split; [by rewrite Hcsv', Hcsv2|].
      split; [by rewrite Hfl', drop_drop|].
      intros g Hg. rewrite Hfr', Hfiles2 by done. subst w1. cbn [files with_files].
      by rewrite lookup_insert_ne.
  - rewrite bool_decide_eq_false_2 by done.
    destruct (read_loop_keeps_files cfg fuel (Some b) f w F Hf Hr)
      as (w' & Hrun & Hm & Herr & Hout & Hcsv & Hfl & Hfr).
    exists w'. split; [exact Hrun|]. cbn. rewrite !app_nil_r.
    split; [|done]. destruct Hh as (cells & Hq & Hc). exists cells.
    by rewrite Hm.
Qed.

Lemma enqueued_or_reported rs : ∀ fl,
  enqueued_of rs fl ++ reported_of rs fl ≡ₚ rs.
Proof.
  induction rs as [|r rs IH]; intros fl; [done|]. cbn [enqueued_of reported_of].
  destruct (default false (fl !! 0%nat)).
  - by rewrite <- Permutation_middle, IH.
  - cbn. by rewrite IH.
Qed.

Lemma enqueued_of_quiet rs : ∀ fl,
  (∀ k, (k < length rs)%nat → default false (fl !! k) = false) →
  enqueued_of rs fl = rs ∧ reported_of rs fl = [].
Proof.
  induction rs as [|r rs IH]; intros fl Hq; [done|].
  cbn [enqueued_of reported_of]. rewrite (Hq 0%nat) by (cbn; lia).
  destruct (IH (drop 1 fl)) as [-> ->]; [|done].
  intros k Hk. rewrite lookup_drop. apply Hq. cbn. lia.
Qed.

Lemma records_in_parse cfg fuel bytes :
  (length bytes < fuel)%nat → parse fuel cfg bytes = records_in cfg bytes.
Proof. intros. unfold records_in. apply parse_fuel; lia. Qed.

(** Lines 89-93. *)
Lemma sentinels_exact n : ∀ w b rs0,
  holds w b rs0 →
  ∃ w',
    for_loop n (_ <- sbuffer_insert (Some b) end_signal ;; ret tt) w = Done tt w'
    ∧ holds w' b (rs0 ++ enqueued_of (replicate n end_signal) (faults w))
    ∧ stderr w' = stderr w ∧ stdout w' = stdout w
    ∧ faults w' = drop n (faults w)
    ∧ files w' = files w ∧ csv_mutex w' = csv_mutex w.
Proof.
  induction n as [|n IH]; intros w b rs0 Hh.
  - exists w. cbn. rewrite app_nil_r. done.
  - destruct (sbuffer_insert_verdict w b rs0 end_signal Hh)
      as (w1 & Hins & Hh1 & Hfl1 & Hfiles1 & Hout1 & Herr1 & Hcsv1).
    destruct (IH w1 b _ Hh1)
      as (w' & Hrun & Hh' & Herr' & Hout' & Hfl' & Hfiles' & Hcsv').
    exists w'. cbn [for_loop]. unfold bind at 1. unfold bind at 1.
    rewrite Hins. unfold ret at 1. split; [exact Hrun|].
    rewrite Hfl1 in *. split.
    { change (replicate (S n) end_signal) with ([end_signal] ++ replicate n end_signal).
      rewrite enqueued_of_app. by rewrite <- app_assoc in Hh'. }
    split; [congruence|]. split; [congruence|].
    split; [by rewrite Hfl', drop_drop|]. split; congruence.
Qed.

Lemma producer_thread_exact cfg fuel w b rs0 f F :
  holds w b rs0 → files w !! f = Some F →
  (length (unread F) < fuel)%nat →
  let rs := records_in cfg (unread F) in
  ∃ w',
    producer_thread fuel cfg {| shared_buf := Some b; sensor_file := Some f |} w
    = Done tt w'
    ∧ holds w' b
        (rs0 ++ enqueued_of (rs ++ replicate (NUM_THREADS - 1) end_signal)
                  (faults w))
    ∧ stderr w'
      = stderr w ++ mjoin ((λ r, insert_failure (id r)) <$> reported_of rs (faults w))
    ∧ stdout w' = stdout w
    ∧ faults w' = drop (length rs + (NUM_THREADS - 1)) (faults w)
    ∧ csv_mutex w' = csv_mutex w
    ∧ (∀ g, g ≠ f → files w' !! g = files w !! g).
Proof.
  intros Hh Hf Hfuel rs.
  destruct (read_loop_exact cfg b f fuel w rs0 F Hh Hf Hfuel)
    as (w1 & Hrun1 & Hh1 & Herr1 & Hout1 & Hcsv1 & Hfl1 & Hfr1).
  rewrite (records_in_parse _ _ _ Hfuel) in *. fold rs in Hh1, Herr1, Hfl1.
  destruct (sentinels_exact (NUM_THREADS - 1) w1 b _ Hh1)
    as (w' & Hrun & Hh' & Herr' & Hout' & Hfl' & Hfiles' & Hcsv').
  exists w'. unfold producer_thread. cbn [shared_buf sensor_file].
  unfold bind at 1. rewrite Hrun1. split; [exact Hrun|].
  rewrite Hfl1 in *. split.
  { rewrite enqueued_of_app. by rewrite <- app_assoc in Hh'. }
  split; [congruence|]. split; [congruence|].
  split; [by rewrite Hfl', drop_drop|]. split; [congruence|].
  intros g Hg. rewrite Hfiles'. by apply Hfr1.
Qed.

(** The producer on a valid queue and an open stream: every record of the
    stream is either put into the queue, in the order of the stream, or
    reported on [stderr] with its identifier; which one is decided by the
    allocation of its node alone.  The sentinels follow, each one only if
    its node could be allocated, and a lost sentinel is not reported. *)
Theorem producer_enqueues_or_reports cfg fuel w b rs0 f F :
  holds w b rs0 → files w !! f = Some F →
  (length (unread F) < fuel)%nat →
  let rs := records_in cfg (unread F) in
  ∃ w',
    producer_thread fuel cfg {| shared_buf := Some b; sensor_file := Some f |} w
    = Done tt w'
    ∧ holds w' b
        (rs0 ++ enqueued_of rs (faults w)
             ++ enqueued_of (replicate (NUM_THREADS - 1) end_signal)
                  (drop (length rs) (faults w)))
    ∧ stderr w'
      = stderr w ++ mjoin ((λ r, insert_failure (id r)) <$> reported_of rs (faults w))
    ∧ enqueued_of rs (faults w) ++ reported_of rs (faults w) ≡ₚ rs
    ∧ stdout w' = stdout w.
Proof.
  intros Hh Hf Hfuel rs.
  destruct (producer_thread_exact cfg fuel w b rs0 f F Hh Hf Hfuel)
    as (w' & Hrun & Hh' & Herr' & Hout' & _).
  exists w'. split; [exact Hrun|]. rewrite enqueued_of_app in Hh'.
  split; [exact Hh'|]. split; [exact Herr'|].
  split; [apply enqueued_or_reported|exact Hout'].
Qed.

Lemma producer_enqueues_or_reports_witness :
  ∃ w',
    producer_thread 37 example_config producer_parameters
      (stream_world (reading_1_bytes ++ reading_1_bytes) [true; false; false; true])
    = Done tt w'
    ∧ holds w' 1%positive [reading_1; end_signal]
    ∧ stderr w' = line "Buffer insertion failed for data: ID=1".
Proof.
  destruct (producer_enqueues_or_reports example_config 37
              (stream_world (reading_1_bytes ++ reading_1_bytes)
                 [true; false; false; true])
              1%positive [] 2%positive
              {| on_disk := reading_1_bytes ++ reading_1_bytes; rpos := 0;
                 pending := [] |})
    as (w' & Hrun & Hh & Herr & _).
  - exists []. split; [|done]. exact fresh_queue_is_queue.
  - reflexivity.
  - cbn. lia.
  - exists w'. split; [exact Hrun|]. split; [exact Hh|exact Herr].
Defined.

Lemma read_loop_null cfg f fuel : ∀ w F,
  files w !! f = Some F → (length (unread F) < fuel)%nat →
  ∃ fs,
    read_loop fuel cfg NULL f w
    = Done tt
        (with_stderr
           (stderr w ++ mjoin ((λ r, insert_failure (id r))
                                 <$> parse fuel cfg (unread F)))
           (with_files fs w)).
Proof.
  induction fuel as [|fuel IH]; intros w F Hf Hfuel; [lia|].
  rewrite parse_S.
  destruct (read_loop_step cfg fuel NULL f w F Hf) as [[Hr ->]|[Hr (F' & ->)]].
  - rewrite bool_decide_eq_true_2 by done.
    set (entry := decode_record cfg (unread F)).
    cbn [sbuffer_insert]. unfold bind at 1, ret at 1.
    rewrite decide_False by done. unfold bind at 1.
    rewrite (eprintf_Done _ _ _ _ (vformat_insert_failure_text (id entry))).
    set (w1 := with_stderr _ _).
    destruct (IH w1 (advance (sizeof_record cfg) F)) as (fs & ->).
    { apply lookup_insert_eq. }
    { rewrite unread_advance, length_drop.
      unfold record_ahead, sizeof_record in *. lia. }
    exists fs. rewrite unread_advance. f_equal. apply world_ext; cbn; try done.
    by rewrite <- app_assoc.
  - rewrite bool_decide_eq_false_2 by done. eexists. f_equal.
    apply world_ext; cbn; try done. by rewrite app_nil_r.
Qed.

(** A producer that lacks one of its two arguments enqueues nothing, not
    even the sentinels.  Without an input stream it reports that and
    leaves; without a queue it reads the whole stream and reports every
    record as not inserted. *)
Theorem producer_without_file_or_queue cfg fuel w f F buffer :
  files w !! f = Some F → (length (unread F) < fuel)%nat →
  producer_thread fuel cfg {| shared_buf := buffer; sensor_file := NULL |} w
  = Done tt (with_stderr (stderr w ++ no_input_file) w)
  ∧ ∃ fs,
      producer_thread fuel cfg {| shared_buf := NULL; sensor_file := Some f |} w
      = Done tt
          (with_stderr
             (stderr w ++ mjoin ((λ r, insert_failure (id r))
                                   <$> records_in cfg (unread F)))
             (with_files fs w)).
Proof.
  intros Hf Hfuel. split; [reflexivity|].
  destruct (read_loop_null cfg f fuel w F Hf Hfuel) as (fs & Hrun).
  exists fs. unfold producer_thread. cbn [shared_buf sensor_file].
  unfold bind at 1. rewrite Hrun, (records_in_parse _ _ _ Hfuel). reflexivity.
Qed.

Lemma producer_without_file_or_queue_witness :
  ∃ w',
    producer_thread 19 example_config
      {| shared_buf := NULL; sensor_file := Some 2%positive |}
      (stream_world reading_1_bytes []) = Done tt w'
    ∧ mem w' = mem fresh_queue
    ∧ stderr w' = line "Buffer insertion failed for data: ID=1".
Proof.
  destruct (producer_without_file_or_queue example_config 19
              (stream_world reading_1_bytes []) 2%positive
              {| on_disk := reading_1_bytes; rpos := 0; pending := [] |} NULL)
    as (_ & fs & Hrun).
  - reflexivity.
  - cbn. lia.
  - eexists. split; [exact Hrun|]. split; reflexivity.
Defined.

Lemma records_in_chunks cfg chunks : ∀ rest,
  (0 < sizeof_id cfg ∧ 0 < sizeof_value cfg ∧ 0 < sizeof_ts cfg)%nat →
  Forall (λ ch, length ch = sizeof_record cfg) chunks →
  (length rest < sizeof_record cfg)%nat →
  records_in cfg (mjoin chunks ++ rest) = decode_record cfg <$> chunks.
Proof.
  intros rest Hpos Hchunks Hrest. unfold records_in.
  assert (∀ n, (length (mjoin chunks ++ rest) < n)%nat →
               parse n cfg (mjoin chunks ++ rest) = decode_record cfg <$> chunks)
    as Hgen; [|apply Hgen; lia].
  induction Hchunks as [|ch chunks Hch Hchunks IH]; intros n Hn.
  - destruct n as [|n]; [lia|]. rewrite parse_S.
    rewrite bool_decide_eq_false_2; [done|].
    unfold record_ahead, sizeof_record in *. cbn. lia.
  - destruct n as [|n]; [lia|]. rewrite parse_S.
    change (mjoin (ch :: chunks)) with (ch ++ mjoin chunks) in *.
    rewrite <- app_assoc in *. rewrite length_app in Hn.
    rewrite bool_decide_eq_true_2
      by (unfold record_ahead; rewrite length_app; lia).
    cbn [fmap list_fmap]. f_equal.
    + unfold decode_record, sizeof_record in *.
      rewrite !take_app_le, !drop_app_le by (rewrite ?length_take, ?length_drop; lia).
      rewrite !take_app_le by (rewrite ?length_take, ?length_drop; lia).
      done.
    + rewrite drop_app_length' by done. apply IH.
      unfold sizeof_record in *. lia.
Qed.

(** The producer takes whole records only: on a stream of [n] records of
    [sizeof(id) + sizeof(value) + sizeof(ts)] bytes followed by fewer bytes
    than a record has, it enqueues the [n] records, decoded field by
    field, then the sentinels; the bytes of the incomplete record are
    dropped without a message. *)
Theorem producer_reads_whole_records cfg fuel w b rs0 f F chunks rest :
  holds w b rs0 → files w !! f = Some F →
  unread F = mjoin chunks ++ rest →
  (0 < sizeof_id cfg ∧ 0 < sizeof_value cfg ∧ 0 < sizeof_ts cfg)%nat →
  Forall (λ ch, length ch = sizeof_record cfg) chunks →
  (length rest < sizeof_record cfg)%nat →
  (∀ k, (k < length chunks + (NUM_THREADS - 1))%nat → fault_at k w = false) →
  (length (unread F) < fuel)%nat →
  ∃ w',
    producer_thread fuel cfg {| shared_buf := Some b; sensor_file := Some f |} w
    = Done tt w'
    ∧ holds w' b (rs0 ++ (decode_record cfg <$> chunks)
                      ++ replicate (NUM_THREADS - 1) end_signal)
    ∧ stderr w' = stderr w ∧ stdout w' = stdout w.
Proof.
  intros Hh Hf Hbytes Hpos Hchunks Hrest Hquiet Hfuel.
  destruct (producer_thread_exact cfg fuel w b rs0 f F Hh Hf Hfuel)
    as (w' & Hrun & Hh' & Herr' & Hout' & _).
  rewrite Hbytes, (records_in_chunks _ _ _ Hpos Hchunks Hrest) in Hh', Herr'.
  exists w'. split; [exact Hrun|].
  destruct (enqueued_of_quiet
              ((decode_record cfg <$> chunks) ++ replicate (NUM_THREADS - 1) end_signal)
              (faults w)) as [Henq _].
  { intros k Hk. apply Hquiet.
    by rewrite length_app, length_fmap, length_replicate in Hk. }
  destruct (enqueued_of_quiet (decode_record cfg <$> chunks) (faults w))
    as [_ Hrep].
  { intros k Hk. apply Hquiet. rewrite length_fmap in Hk. lia. }
  rewrite Henq in Hh'. rewrite Hrep in Herr'. cbn in Herr'.
  rewrite app_nil_r in Herr'. done.
Qed.

Lemma producer_reads_whole_records_witness :
  ∃ w',
    producer_thread 22 example_config producer_parameters
      (stream_world (reading_1_bytes ++ bytes_of [7; 0; 1]%nat) []) = Done tt w'
    ∧ holds w' 1%positive [reading_1; end_signal; end_signal].
Proof.
  destruct (producer_reads_whole_records example_config 22
              (stream_world (reading_1_bytes ++ bytes_of [7; 0; 1]%nat) [])
              1%positive [] 2%positive
              {| on_disk := reading_1_bytes ++ bytes_of [7; 0; 1]%nat; rpos := 0;
                 pending := [] |}
              [reading_1_bytes] (bytes_of [7; 0; 1]%nat))
    as (w' & Hrun & Hh & _).
  - exists []. split; [|done]. exact fresh_queue_is_queue.
  - reflexivity.
  - reflexivity.
  - cbn. lia.
  - by repeat constructor.
  - cbn. lia.
  - intros k _. reflexivity.
  - cbn. lia.
  - exists w'. split; [exact Hrun|]. exact Hh.
Defined.

(** ** The rows of the output file *)

Lemma uint_field d : Forall field_char (text (NilEmpty.string_of_uint d)).
Proof. induction d; cbn; repeat constructor; try done. Qed.

Lemma decimal_field z : Forall field_char (decimal z).
Proof.
  unfold decimal. destruct (Z.to_int z) as [d|d]; cbn.
  - apply uint_field.
  - constructor; [done|apply uint_field].
Qed.

Lemma fixed_digits_field p z : Forall field_char (fixed_digits p z).
Proof.
  unfold fixed_digits. destruct p; [apply decimal_field|].
  repeat (apply Forall_app; split); try apply decimal_field.
  - by repeat constructor.
  - by apply Forall_replicate.
Qed.

Lemma render_f_field p x : Forall field_char (render_f p x).
Proof.
  unfold render_f, sign_text.
  destruct (Prim2SF x) as [[]|[]| |[] m e];
    repeat (apply Forall_app; split); try apply fixed_digits_field;
    by repeat constructor.
Qed.

Lemma fields_app t u :
  Forall field_char t → fields (t ++ comma :: u) = t :: fields u.
Proof.
  induction 1 as [|c t [Hc _] _ IH]; cbn [app fields].
  - by rewrite decide_True.
  - by rewrite decide_False, IH.
Qed.

Lemma fields_last t : Forall field_char t → fields t = [t].
Proof.
  induction 1 as [|c t [Hc _] _ IH]; cbn [fields]; [done|].
  by rewrite decide_False, IH.
Qed.

(** The line [log_sensor_data] writes for a record has three fields: split
    at its commas it gives back the texts of the identifier, of the value
    with two decimals, and of the timestamp, and none of them holds a comma
    or a line feed. *)
Theorem csv_row_has_three_fields d :
  vformat csv_format [ArgInt (id d); ArgDouble (value d); ArgLong (ts d)]
  = Some (csv_row d ++ [LF])
  ∧ fields (csv_row d) = [decimal (id d); render_f 2 (value d); decimal (ts d)]
  ∧ Forall (Forall field_char) (fields (csv_row d)).
Proof.
  split; [apply vformat_csv|].
  assert (fields (csv_row d)
          = [decimal (id d); render_f 2 (value d); decimal (ts d)]) as Hf.
  { unfold csv_row. change (text ",") with [comma]. cbn [app].
    rewrite fields_app by apply decimal_field.
    rewrite fields_app by apply render_f_field.
    by rewrite fields_last by apply decimal_field. }
  split; [done|]. rewrite Hf.
  repeat constructor; try apply decimal_field; apply render_f_field.
Qed.

(** One iteration of the consumer in front of a sentinel, with the record
    of an earlier iteration still in [retrieved_data]. *)
Lemma consumer_iteration_stale w b d0 f F stale :
  head_record (mem w) b = Some d0 → id d0 = 0 → mutex_free w b →
  csv_mutex w = false → files w !! f = Some F → pending F = [] →
  id stale ≠ 0 → fault_at 0 w = false → fault_at 1 w = false →
  ∃ w', (∀ n, consumer_loop (S n) (Some b) (Some f) stale w
              = consumer_loop n (Some b) (Some f) stale w')
        ∧ mem w' = mem w
        ∧ csv_mutex w' = false
        ∧ files w' = <[f := appended F [stale]]> (files w)
        ∧ faults w' = drop 2 (faults w).
Proof.
  intros Hhead Hid Hfree Hcsv Hf Hpend Hstale H0 H1.
  pose proof (sbuffer_remove_at_sentinel w b d0 stale Hhead Hid Hfree) as Hrm.
  set (w1 := with_stdout (stdout w ++ no_data_message) w) in *.
  set (w2 := with_csv_mutex true w1).
  destruct (log_sensor_data_open w2 f F (id stale) (value stale) (ts stale) Hf)
    as (w3 & Hlog & Hfiles3 & Hmem3 & Hout3 & Hcsv3 & Herr3 & Hfl3).
  change (fault_at 0 w2) with (fault_at 0 w) in *.
  change (fault_at 1 w2) with (fault_at 1 w) in *.
  change (csv_row {| id := id stale; value := value stale; ts := ts stale |})
    with (csv_row stale) in *.
  rewrite H0, H1 in *. cbn [logged fst snd] in *.
  exists (with_csv_mutex false (with_stdout (stdout w3 ++ logged_line stale) w3)).
  split.
  { intros n. cbn [consumer_loop]. unfold bind at 1. rewrite Hrm.
    cbn [fst snd]. rewrite decide_False by done.
    apply Z.eqb_neq in Hstale. rewrite Hstale.
    unfold bind, lock_csv_mutex. replace (csv_mutex w1) with false by done.
    fold w2. rewrite Hlog. cbn [Z.eqb negb].
    by rewrite (printf_Done _ _ _ _ (vformat_logged_text stale)). }
  cbn [mem files csv_mutex faults with_stdout with_csv_mutex].
  rewrite Hmem3, Hfiles3, Hfl3. split; [done|]. split; [done|]. split; [|done].
  f_equal. unfold appended, csv_rows. cbn. by rewrite Hpend, app_nil_r.
Qed.

Lemma appended_appended F ds ds' :
  appended (appended F ds) ds' = appended F (ds ++ ds').
Proof.
  unfold appended, csv_rows. cbn. f_equal.
  by rewrite fmap_app, join_app, app_assoc.
Qed.

Lemma consumer_relogs b d0 f stale k : ∀ w F,
  head_record (mem w) b = Some d0 → id d0 = 0 → mutex_free w b →
  csv_mutex w = false → files w !! f = Some F → pending F = [] →
  id stale ≠ 0 → (∀ i, fault_at i w = false) →
  ∃ w', consumer_loop k (Some b) (Some f) stale w = OutOfFuel w'
        ∧ mem w' = mem w
        ∧ files w' = <[f := appended F (replicate k stale)]> (files w).
Proof.
  induction k as [|k IH]; intros w F Hhead Hid Hfree Hcsv Hf Hpend Hstale Hquiet.
  - exists w. split; [done|]. split; [done|]. unfold appended, csv_rows. cbn.
    rewrite app_nil_r, <- Hpend, insert_id; [done|]. by destruct F.
  - destruct (consumer_iteration_stale w b d0 f F stale Hhead Hid Hfree Hcsv Hf
                Hpend Hstale (Hquiet 0%nat) (Hquiet 1%nat))
      as (w1 & Hstep & Hmem1 & Hcsv1 & Hfiles1 & Hfl1).
    destruct (IH w1 (appended F [stale])) as (w' & Hrun & Hmem' & Hfiles').
    + by rewrite Hmem1.
    + done.
    + unfold mutex_free, buffer_at in *. by rewrite Hmem1.
    + done.
    + rewrite Hfiles1. apply lookup_insert_eq.
    + done.
    + done.
    + intros i. by rewrite (fault_at_drop i 2 w w1).
    + exists w'. rewrite Hstep. split; [done|]. split; [congruence|].
      rewrite Hfiles', Hfiles1, insert_insert_eq, appended_appended. done.
Qed.

Lemma pipeline_run cfg fuel k w b fi Fi fo Fo garbage :
  is_queue (mem w) b [] →
  files w !! fi = Some Fi → files w !! fo = Some Fo → fi ≠ fo →
  pending Fo = [] → csv_mutex w = false →
  (∀ i, fault_at i w = false) →
  (length (unread Fi) < fuel)%nat →
  let rs := records_in cfg (unread Fi) in
  rs ≠ [] → Forall (λ r, is_sentinel r = false) rs →
  ∃ w1 w2 last_record,
    producer_thread fuel cfg {| shared_buf := Some b; sensor_file := Some fi |} w
    = Done tt w1
    ∧ consumer_thread (length rs + k)
        {| shared_buf := Some b; sensor_file := Some fo |} garbage w1
      = OutOfFuel w2
    ∧ last rs = Some last_record
    ∧ files w2 !! fo = Some (appended Fo (rs ++ replicate k last_record)).
Proof.
  intros Hq Hfi Hfo Hne Hpend Hcsv Hquiet Hfuel rs Hrs Hdata.
  assert (holds w b []) as Hh by (by exists []).
  destruct (producer_thread_exact cfg fuel w b [] fi Fi Hh Hfi Hfuel)
    as (w1 & Hprod & Hh1 & _ & _ & Hfl1 & Hcsv1 & Hfr1).
  fold rs in Hh1, Hfl1.
  destruct (enqueued_of_quiet (rs ++ replicate (NUM_THREADS - 1) end_signal)
              (faults w)) as [Henq _].
  { intros i _. apply Hquiet. }
  rewrite Henq in Hh1. cbn [app] in Hh1.
  destruct Hh1 as (cells & Hq1 & Hcells).
  apply fmap_app_inv in Hcells as (cells1 & cells2 & Hc1 & Hc2 & ->).
  symmetry in Hc1, Hc2.
  assert (∀ i, fault_at i w1 = false) as Hquiet1.
  { intros i. by rewrite (fault_at_drop i _ w w1 Hfl1). }
  destruct (consumer_logs_records b fo rs w1 cells1 cells2 garbage Fo Hq1 Hc1
              Hdata) as (w2 & Hrun2 & Hq2 & Hcsv2 & Hfiles2 & _ & _ & Hfl2).
  { congruence. }
  { by rewrite Hfr1. }
  { done. }
  { intros i _. apply Hquiet1. }
  destruct (last rs) as [last_record|] eqn:Hlast;
    [|by apply last_None in Hlast].
  assert (is_sentinel last_record = false) as Hlr.
  { apply last_Some in Hlast as (pre & ->).
    by apply Forall_app in Hdata as [_ [? _]%Forall_cons]. }
  destruct cells2 as [|[h d0] cells2']; [done|]. injection Hc2 as -> _.
  pose proof Hq2 as (sb & Hb & Hm & (Hhd & nx & Hnode & _) & _).
  destruct (consumer_relogs b end_signal fo last_record k w2 (appended Fo rs))
    as (w3 & Hrun3 & _ & Hfiles3).
  { unfold head_record. by rewrite Hb, Hhd, Hnode. }
  { done. }
  { unfold mutex_free, buffer_at. rewrite Hb. cbn. by f_equal. }
  { done. }
  { rewrite Hfiles2. apply lookup_insert_eq. }
  { done. }
  { unfold is_sentinel in Hlr. by apply Z.eqb_neq. }
  { intros i. by rewrite (fault_at_drop i _ w1 w2 Hfl2). }
  exists w1, w3, last_record. split; [exact Hprod|].
  unfold consumer_thread. cbn [shared_buf sensor_file].
  rewrite Hrun2. cbn [default]. split; [exact Hrun3|]. split; [done|].
  rewrite Hfiles3, lookup_insert_eq, appended_appended. done.
Qed.

(** The program end to end, when the producer has finished before a
    consumer starts and nothing fails: the records of the input stream
    reach the output file as one row each, in the order of the stream;
    after them the consumer finds the sentinel and, instead of leaving,
    writes the row of the last record again at every further iteration. *)
Theorem pipeline_writes_stream_then_repeats cfg fuel k w b fi Fi fo Fo garbage :
  is_queue (mem w) b [] →
  files w !! fi = Some Fi → files w !! fo = Some Fo → fi ≠ fo →
  pending Fo = [] → csv_mutex w = false →
  (∀ i, fault_at i w = false) →
  (length (unread Fi) < fuel)%nat →
  let rs := records_in cfg (unread Fi) in
  rs ≠ [] → Forall (λ r, is_sentinel r = false) rs →
  ∃ w1 w2 last_record Fo',
    producer_thread fuel cfg {| shared_buf := Some b; sensor_file := Some fi |} w
    = Done tt w1
    ∧ consumer_thread (length rs + k)
        {| shared_buf := Some b; sensor_file := Some fo |} garbage w1
      = OutOfFuel w2
    ∧ last rs = Some last_record
    ∧ files w2 !! fo = Some Fo'
    ∧ on_disk Fo'
      = on_disk Fo ++ csv_rows rs
          ++ mjoin (replicate k (csv_row last_record ++ [LF])).
Proof.
  intros Hq Hfi Hfo Hne Hpend Hcsv Hquiet Hfuel rs Hrs Hdata.
  destruct (pipeline_run cfg fuel k w b fi Fi fo Fo garbage Hq Hfi Hfo Hne Hpend
              Hcsv Hquiet Hfuel Hrs Hdata)
    as (w1 & w2 & last_record & Hprod & Hcons & Hlast & Hfile).
  exists w1, w2, last_record, (appended Fo (rs ++ replicate k last_record)).
  split; [exact Hprod|]. split; [exact Hcons|]. split; [exact Hlast|].
  split; [exact Hfile|].
  unfold appended, csv_rows. cbn [on_disk].
  by rewrite fmap_app, join_app, fmap_replicate.
Qed.

Lemma pipeline_writes_stream_then_repeats_witness :
  ∃ w1 w2,
    producer_thread 19 example_config producer_parameters
      (stream_world reading_1_bytes []) = Done tt w1
    ∧ consumer_thread 3 consumer_parameters end_signal w1 = OutOfFuel w2
    ∧ on_disk <$> files w2 !! 1%positive
      = Some (line "1,10.50,100" ++ line "1,10.50,100" ++ line "1,10.50,100").
Proof.
  destruct (pipeline_writes_stream_then_repeats example_config 19 2
              (stream_world reading_1_bytes []) 1%positive
              2%positive {| on_disk := reading_1_bytes; rpos := 0; pending := [] |}
              1%positive empty_file end_signal)
    as (w1 & w2 & last_record & Fo' & Hprod & Hcons & Hlast & Hfile & Hdisk).
  - exact fresh_queue_is_queue.
  - reflexivity.
  - reflexivity.
  - done.
  - reflexivity.
  - reflexivity.
  - intros i. unfold fault_at. cbn. by rewrite lookup_nil.
  - cbn. lia.
  - done.
  - by repeat constructor.
  - exists w1, w2. split; [exact Hprod|]. split; [exact Hcons|].
    injection Hlast as <-.
    etrans; [exact (f_equal (fmap on_disk) Hfile)|]. cbn [fmap option_fmap option_map].
    rewrite Hdisk. vm_compute. reflexivity.
Defined.

(** ** [main] *)

Lemma next_fault_Done w :
  next_fault w = Done (fault_at 0 w) (with_faults (drop 1 (faults w)) w).
Proof. unfold next_fault. by rewrite pending_fault_fault_at. Qed.

Lemma fopen_refused filename mode fs w :
  fault_at 0 w = true →
  fopen filename mode fs w = Done (NULL, fs) (with_faults (drop 1 (faults w)) w).
Proof. intros Hf. unfold fopen, bind. by rewrite next_fault_Done, Hf. Qed.


Lemma fopen_read filename fs w bytes :
  fault_at 0 w = false → stored fs !! filename = Some bytes →
  fopen filename "rb" fs w
  = open_stream filename bytes (stored fs) fs (with_faults (drop 1 (faults w)) w).
Proof.
  intros Hf Hm. unfold fopen, bind. rewrite next_fault_Done, Hf.
  rewrite decide_True by done. by rewrite Hm.
Qed.

Lemma fopen_write filename fs w :
  fault_at 0 w = false →
  fopen filename "w" fs w
  = open_stream filename [] (<[filename := []]> (stored fs)) fs
      (with_faults (drop 1 (faults w)) w).
Proof.
  intros Hf. unfold fopen, bind. rewrite next_fault_Done, Hf.
  rewrite decide_False by done. by rewrite decide_True by done.
Qed.

Lemma fopen_append filename fs w :
  fault_at 0 w = false →
  fopen filename "a" fs w
  = open_stream filename (default [] (stored fs !! filename))
      (<[filename := default [] (stored fs !! filename)]> (stored fs)) fs
      (with_faults (drop 1 (faults w)) w).
Proof.
  intros Hf. unfold fopen, bind. rewrite next_fault_Done, Hf.
  rewrite decide_False by done. rewrite decide_False by done.
  by rewrite decide_True by done.
Qed.

Lemma fresh_stream (fs : gmap loc FILE) : fs !! fresh (dom fs) = None.
Proof. apply not_elem_of_dom, is_fresh. Qed.

(** [initialize_file]: with [append] the file keeps what it holds, without
    it the file is emptied; either way the file exists afterwards and the
    stream is a new one.  When the file cannot be opened nothing changes
    but for the message on [stderr], and the result is [NULL]. *)
Lemma initialize_file_cases (filename : string) (append : bool)
    (fs : filesystem) (w : world) :
  let w1 := with_faults (drop 1 (faults w)) w in
  let f := fresh (dom (files w)) in
  let bytes : list ascii :=
    if append then default [] (stored fs !! filename) else [] in
  (fault_at 0 w = true →
   initialize_file filename append fs w
   = Done (NULL, fs) (with_stderr (stderr w ++ open_error) w1))
  ∧ (fault_at 0 w = false →
     files w !! f = None
     ∧ initialize_file filename append fs w
       = Done (Some f, {| stored := <[filename := bytes]> (stored fs);
                          opened := <[f := filename]> (opened fs) |})
           (with_files
              (<[f := {| on_disk := bytes; rpos := 0; pending := [] |}]> (files w))
              w1)).
Proof.
  cbv zeta. split; intros Hf.
  - unfold initialize_file, bind. by rewrite fopen_refused.
  - split; [apply fresh_stream|].
    unfold initialize_file, bind.
    destruct append; [rewrite fopen_append by done|rewrite fopen_write by done];
      reflexivity.
Qed.

Lemma sbuffer_init_quiet w :
  fault_at 0 w = false → fault_at 1 w = false → fault_at 2 w = false →
  sbuffer_init w
  = Done (SBUFFER_SUCCESS, Some (fresh (dom (mem w))))
      (with_mem (<[fresh (dom (mem w)) := Buffer empty_sbuffer]> (mem w))
         (with_faults (drop 3 (faults w)) w)).
Proof.
  intros H0 H1 H2. unfold sbuffer_init, bind, ret.
  rewrite malloc_granted by (by rewrite pending_fault_fault_at).
  rewrite next_fault_Done. erewrite (fault_at_drop 0 1) by done. cbn [Nat.add].
  rewrite H1. rewrite next_fault_Done.
  erewrite (fault_at_drop 0 2) by (cbn; by rewrite drop_drop). cbn [Nat.add].
  rewrite H2. f_equal. apply world_ext; cbn; try done. by rewrite !drop_drop.
Qed.

Lemma input_output_handles bytes : input_handle ≠ output_handle bytes.
Proof.
  intros Heq.
  pose proof (fresh_stream {[ input_handle := input_stream bytes ]}) as Hfresh.
  fold (output_handle bytes) in Hfresh. rewrite <- Heq in Hfresh.
  by rewrite lookup_singleton_eq in Hfresh.
Qed.

(** Lines 145-156 when both files open. *)
Lemma main_opens threads fuel fs w bytes :
  stored fs !! input_name = Some bytes → files w = ∅ →
  fault_at 0 w = false → fault_at 1 w = false →
  main threads fuel fs w
  = main_run threads fuel input_handle (output_handle bytes) (files_open fs bytes)
      {| mem := mem w;
         files := <[output_handle bytes := empty_file]>
                    {[ input_handle := input_stream bytes ]};
         stdout := stdout w; stderr := stderr w; csv_mutex := false;
         faults := drop 2 (faults w) |}.
Proof.
  intros Hin Hfiles H0 H1. unfold input_name, output_name in *.
  unfold main. unfold bind at 1. unfold bind at 1.
  rewrite (fopen_read _ _ _ bytes) by done.
  unfold open_stream. cbn [files with_faults with_csv_mutex fst snd].
  rewrite Hfiles. fold input_handle. unfold bind at 1.
  set (wb := with_files _ _).
  destruct (initialize_file_cases "sensor_data_out.csv" false
              {| stored := stored fs;
                 opened := <[input_handle := "sensor_data"%string]> (opened fs) |} wb)
    as [_ Hopen].
  rewrite (proj2 (Hopen (eq_trans (fault_at_drop 0 1 w wb eq_refl) H1))).
  cbn [fst snd]. subst wb. cbn [files with_files]. rewrite insert_empty.
  fold (input_stream bytes). fold (output_handle bytes).
  unfold main_run, main_cleanup, files_open, output_name, input_name.
  f_equal. apply world_ext; cbn; try done. by rewrite drop_drop.
Qed.

Lemma main_startup threads fuel fs w bytes :
  stored fs !! input_name = Some bytes → files w = ∅ →
  (∀ k, (k < 5)%nat → fault_at k w = false) →
  main threads fuel fs w
  = (threads {| shared_buf := Some (queue_handle w);
                sensor_file := Some input_handle |}
       {| shared_buf := Some (queue_handle w);
          sensor_file := Some (output_handle bytes) |} ;;
     main_cleanup fuel (Some (queue_handle w)) input_handle (output_handle bytes)
       (files_open fs bytes)) (thread_start bytes w).
Proof.
  intros Hin Hfiles Hquiet.
  rewrite (main_opens _ _ _ _ bytes) by (try done; apply Hquiet; lia).
  set (wc := {| mem := mem w |}).
  unfold main_run. unfold bind at 1.
  rewrite sbuffer_init_quiet.
  - cbn [fst snd]. rewrite decide_True by done.
    change (fresh (dom (mem wc))) with (queue_handle w).
    match goal with
    | |- context [with_mem ?m ?x] =>
        replace (with_mem m x) with (thread_start bytes w); [reflexivity|]
    end.
    apply world_ext; cbn; try done. by rewrite drop_drop.
  - rewrite (fault_at_drop 0 2 w wc) by done. apply Hquiet. lia.
  - rewrite (fault_at_drop 1 2 w wc) by done. apply Hquiet. lia.
  - rewrite (fault_at_drop 2 2 w wc) by done. apply Hquiet. lia.
Qed.




(** [main] when the queue cannot be created: the process ends with
    [EXIT_FAILURE] and the message of line 161, no thread was created and
    the heap is as it was. *)
Theorem main_exits_without_queue threads fuel fs w bytes :
  stored fs !! input_name = Some bytes → files w = ∅ →
  fault_at 0 w = false → fault_at 1 w = false →
  fault_at 2 w = true ∨ fault_at 3 w = true ∨ fault_at 4 w = true →
  ∃ fs' w',
    main threads fuel fs w = Done (EXIT_FAILURE, fs') w'
    ∧ stderr w' = stderr w ++ init_error
    ∧ mem w' = mem w ∧ stdout w' = stdout w ∧ files w' = ∅.
Proof.
  intros Hin Hfiles H0 H1 Hfail.
  rewrite (main_opens _ _ _ _ bytes) by done.
  set (wc := {| mem := mem w |}).
  destruct (sbuffer_init_cases wc)
    as (st & p & w1 & Hinit & Hst & Hok & _ & Hfailure & Hf1 & Hout1 & Herr1 & _).
  assert (st = SBUFFER_FAILURE) as ->.
  { destruct Hst as [Hst|Hst]; subst st; [|done]. exfalso.
    destruct (proj1 Hok eq_refl) as (Ha & Hb & Hc).
    rewrite (fault_at_drop 0 2 w wc) in Ha by done.
    rewrite (fault_at_drop 1 2 w wc) in Hb by done.
    rewrite (fault_at_drop 2 2 w wc) in Hc by done. cbn in Ha, Hb, Hc.
    destruct Hfail as [?|[?|?]]; congruence. }
  destruct (Hfailure eq_refl) as (Hmem1 & _).
  unfold main_run. unfold bind at 1. rewrite Hinit. cbn [fst snd].
  rewrite decide_False by done. unfold bind at 1.
  unfold eprintf. change (vformat init_error []) with (Some init_error).
  cbv beta iota.
  unfold exit. eexists _, _. split; [reflexivity|].
  cbn [stderr mem stdout files with_stderr with_files].
  by rewrite Herr1, Hmem1, Hout1.
Qed.

Lemma main_exits_without_queue_witness :
  ∃ fs' w',
    main (one_after_the_other example_config 1) 1 empty_input
      (with_faults [false; false; true] boot)
    = Done (EXIT_FAILURE, fs') w'
    ∧ stderr w' = init_error ∧ mem w' = ∅.
Proof.
  destruct (main_exits_without_queue (one_after_the_other example_config 1) 1
              empty_input (with_faults [false; false; true] boot) [])
    as (fs' & w' & Hrun & Herr & Hmem & _); try reflexivity.
  - by left.
  - by exists fs', w'.
Defined.

Lemma fclose_Done f F fs w :
  files w !! f = Some F →
  fclose f fs w
  = Done (if fault_at 0 w then -1 else 0,
          {| stored := if fault_at 0 w then stored fs else write_back f F fs;
             opened := delete f (opened fs) |})
      (with_files (delete f (files w)) (with_faults (drop 1 (faults w)) w)).
Proof.
  intros Hf. unfold fclose, bind. rewrite (load_file_Done _ _ _ Hf).
  by rewrite next_fault_Done.
Qed.

Lemma thread_start_queue bytes w :
  is_queue (mem (thread_start bytes w)) (queue_handle w) [].
Proof.
  exists empty_sbuffer. cbn. split; [apply lookup_insert_eq|].
  repeat split. constructor.
Qed.

(** [main] after the threads: it gives them a new empty queue, the input
    stream and an empty output file.  Whenever the three of them have
    exited and left the queue valid, the release of the queue succeeds,
    both streams are closed and the process ends with 0, also when the
    closing of a stream fails; the output file then holds what was written
    to its stream if the second [fclose] could flush it. *)
Theorem main_returns_zero threads fuel fs w bytes :
  stored fs !! input_name = Some bytes → files w = ∅ →
  (∀ k, (k < 5)%nat → fault_at k w = false) →
  let b := queue_handle w in
  let fi := input_handle in
  let fo := output_handle bytes in
  let w1 := thread_start bytes w in
  is_queue (mem w1) b []
  ∧ files w1 !! fi = Some (input_stream bytes)
  ∧ files w1 !! fo = Some empty_file
  ∧ ∀ w2 cells Fi Fo,
      threads {| shared_buf := Some b; sensor_file := Some fi |}
        {| shared_buf := Some b; sensor_file := Some fo |} w1 = Done tt w2 →
      is_queue (mem w2) b cells → (length cells < fuel)%nat →
      files w2 !! fi = Some Fi → files w2 !! fo = Some Fo →
      ∃ fs' w',
        main threads fuel fs w = Done (0, fs') w'
        ∧ mem w' !! b = None
        ∧ (∀ l, l ∈ cells.*1 → mem w' !! l = None)
        ∧ (∀ l, l ∉ cells.*1 → l ≠ b → mem w' !! l = mem w2 !! l)
        ∧ files w' !! fi = None ∧ files w' !! fo = None
        ∧ (fault_at 1 w2 = false →
           stored fs' !! output_name = Some (on_disk Fo ++ pending Fo))
        ∧ stderr w' = stderr w2 ∧ stdout w' = stdout w2.
Proof.
  intros Hin Hfiles Hquiet b fi fo w1.
  pose proof (input_output_handles bytes) as Hne. fold fi fo in Hne.
  split; [apply thread_start_queue|].
  split; [subst w1; cbn; by rewrite lookup_insert_ne, lookup_singleton_eq|].
  split; [subst w1; cbn; apply lookup_insert_eq|].
  intros w2 cells Fi Fo Hthreads Hq Hfuel Hfi Hfo.
  rewrite (main_startup _ _ _ _ bytes) by done.
  fold b fi fo w1. unfold bind at 1. rewrite Hthreads.
  pose proof (is_queue_not_node _ _ _ Hq) as Hbn.
  destruct Hq as (s & Hb & _ & Hch & _ & Hnd).
  destruct (free_nodes_spec cells fuel w2 b s Hb Hch Hnd Hfuel)
    as (m' & Hfree & Hb' & Hfreed & Hother).
  unfold main_cleanup, sbuffer_free. unfold bind at 1. unfold bind at 1.
  rewrite Hfree. unfold bind at 1.
  erewrite free_Done by (wsimpl; exact Hb'). unfold ret at 1. cbn [fst snd].
  rewrite decide_True by done. unfold bind at 1.
  set (w3 := with_mem _ _).
  rewrite (fclose_Done fi Fi) by done. cbn [fst snd]. unfold bind at 1.
  rewrite (fclose_Done fo Fo)
    by (cbn [files with_files with_faults]; by rewrite lookup_delete_ne).
  unfold ret. eexists _, _. split; [reflexivity|]. subst w3.
  cbn [mem files stderr stdout stored opened faults with_files with_faults
         with_mem fst snd].
  split; [apply lookup_delete_eq|]. split.
  { intros l Hl. rewrite lookup_delete_ne by (by intros ->). by apply Hfreed. }
  split.
  { intros l Hl Hlb. rewrite lookup_delete_ne by done. by apply Hother. }
  split; [by rewrite lookup_delete_ne, lookup_delete_eq|].
  split; [apply lookup_delete_eq|]. split; [|done].
  intros Hclose.
  match goal with
  | |- context [fault_at 0 ?x] =>
      assert (fault_at 0 x = false) as -> by (by rewrite (fault_at_drop 0 1 w2))
  end.
  unfold write_back at 1. cbn [opened files_open].
  rewrite lookup_delete_ne, lookup_insert_eq by done. apply lookup_insert_eq.
Qed.

Lemma main_returns_zero_witness :
  ∃ fs' w',
    main (one_after_the_other example_config 1) 3 empty_input boot
    = Done (0, fs') w'
    ∧ mem w' !! 1%positive = None
    ∧ stored fs' !! output_name = Some [].
Proof.
  destruct (main_returns_zero (one_after_the_other example_config 1) 3
              empty_input boot []) as (_ & _ & _ & Hmain).
  - reflexivity.
  - reflexivity.
  - intros k _. reflexivity.
  - destruct (Hmain
                (world_of (one_after_the_other example_config 1
                             {| shared_buf := Some (queue_handle boot);
                                sensor_file := Some input_handle |}
                             {| shared_buf := Some (queue_handle boot);
                                sensor_file := Some (output_handle []) |}
                             (thread_start [] boot)))
                [(2%positive, end_signal); (3%positive, end_signal)]
                (input_stream []) empty_file)
      as (fs' & w' & Hrun & Hb & _ & _ & _ & _ & Hout & _).
    + vm_compute. reflexivity.
    + eexists. split; [vm_compute; reflexivity|]. split; [done|].
      split; [|split; [done|]].
      * split; [done|]. eexists. split; [vm_compute; reflexivity|].
        split; [done|]. eexists. split; [vm_compute; reflexivity|]. done.
      * apply NoDup_cons. split; [by intros ?%list_elem_of_singleton|].
        apply NoDup_singleton.
    + cbn. lia.
    + vm_compute. reflexivity.
    + vm_compute. reflexivity.
    + exists fs', w'. split; [exact Hrun|]. split; [exact Hb|].
      apply Hout. vm_compute. reflexivity.
Defined.

Lemma parse_length cfg n : ∀ bytes, (length (parse n cfg bytes) ≤ length bytes)%nat.
Proof.
  induction n as [|n IH]; intros bytes; [cbn; lia|]. rewrite parse_S.
  case_bool_decide as Hr; [|cbn; lia]. cbn [length].
  specialize (IH (drop (sizeof_record cfg) bytes)). rewrite length_drop in IH.
  unfold record_ahead, sizeof_record in *. lia.
Qed.

(** The program as a whole does not end when its input holds a record:
    with the producer finished before the consumers start and nothing
    failing, the first consumer writes the rows of the stream and then the
    row of the last record over and over; [main] never gets to its
    cleanup, whatever the bound on the iterations. *)
Theorem main_never_returns cfg fuel fuel' fs w bytes :
  stored fs !! input_name = Some bytes → files w = ∅ →
  (∀ k, fault_at k w = false) →
  (length bytes < fuel)%nat →
  let rs := records_in cfg bytes in
  rs ≠ [] → Forall (λ r, is_sentinel r = false) rs →
  ∃ w' last_record,
    main (one_after_the_other cfg fuel) fuel' fs w = OutOfFuel w'
    ∧ last rs = Some last_record
    ∧ files w' !! output_handle bytes
      = Some (appended empty_file
                (rs ++ replicate (fuel - length rs) last_record)).
Proof.
  intros Hin Hfiles Hquiet Hfuel rs Hrs Hdata.
  rewrite (main_startup _ _ _ _ bytes) by (try done; intros; apply Hquiet).
  pose proof (input_output_handles bytes) as Hne.
  destruct (pipeline_run cfg fuel (fuel - length rs) (thread_start bytes w)
              (queue_handle w) input_handle (input_stream bytes)
              (output_handle bytes) empty_file end_signal)
    as (w1 & w2 & last_record & Hprod & Hcons & Hlast & Hfile).
  - apply thread_start_queue.
  - cbn. by rewrite lookup_insert_ne, lookup_singleton_eq.
  - cbn. apply lookup_insert_eq.
  - done.
  - done.
  - done.
  - intros i. rewrite (fault_at_drop i 5 w) by done. apply Hquiet.
  - done.
  - done.
  - done.
  - change (unread (input_stream bytes)) with bytes in *. fold rs in Hcons.
    exists w2, last_record. split; [|done].
    unfold bind at 1. unfold one_after_the_other. unfold bind at 1.
    rewrite Hprod. unfold bind at 1.
    replace fuel with (length rs + (fuel - length rs))%nat at 1; [by rewrite Hcons|].
    pose proof (parse_length cfg (S (length bytes)) bytes) as Hlen.
    fold (records_in cfg bytes) in Hlen. fold rs in Hlen. lia.
Qed.

Lemma main_never_returns_witness :
  ∃ w',
    main (one_after_the_other example_config 19) 3
      {| stored := {[ input_name := reading_1_bytes ]}; opened := ∅ |} boot
    = OutOfFuel w'
    ∧ on_disk <$> files w' !! output_handle reading_1_bytes
      = Some (mjoin (replicate 19 (line "1,10.50,100"))).
Proof.
  destruct (main_never_returns example_config 19 3
              {| stored := {[ input_name := reading_1_bytes ]}; opened := ∅ |}
              boot reading_1_bytes)
    as (w' & last_record & Hrun & Hlast & Hfile).
  - reflexivity.
  - reflexivity.
  - intros k. unfold fault_at. cbn. by rewrite lookup_nil.
  - cbn. lia.
  - done.
  - by repeat constructor.
  - exists w'. split; [exact Hrun|]. injection Hlast as <-.
    etrans; [exact (f_equal (fmap on_disk) Hfile)|]. vm_compute. reflexivity.
Defined.

(** ** The handle after [sbuffer_free] *)

(** [sbuffer_free] resets the handle, which makes what follows harmless:
    a second [sbuffer_free] on the same variable returns [SBUFFER_FAILURE]
    and releases nothing twice, and an insert or a remove through the
    handle returns [SBUFFER_FAILURE] without touching the heap. *)
Theorem sbuffer_free_resets_handle fuel w b cells :
  is_queue (mem w) b cells → (length cells < fuel)%nat →
  ∃ w1,
    sbuffer_free fuel (Some (Some b)) w = Done (SBUFFER_SUCCESS, NULL) w1
    ∧ free_twice fuel (Some b) w = Done (SBUFFER_FAILURE, NULL) w1
    ∧ (∀ d, (r <- sbuffer_free fuel (Some (Some b)) ;; sbuffer_insert r.2 d) w
            = Done SBUFFER_FAILURE w1)
    ∧ (∀ out, (r <- sbuffer_free fuel (Some (Some b)) ;; sbuffer_remove r.2 out) w
              = Done (SBUFFER_FAILURE, out) w1).
Proof.
  intros Hq Hfuel. pose proof (is_queue_not_node _ _ _ Hq) as Hbn.
  destruct Hq as (s & Hb & _ & Hch & _ & Hnd).
  destruct (free_nodes_spec cells fuel w b s Hb Hch Hnd Hfuel)
    as (m' & Hfree & Hb' & _).
  assert (sbuffer_free fuel (Some (Some b)) w
          = Done (SBUFFER_SUCCESS, NULL) (with_mem (delete b m') w)) as Hrun.
  { unfold sbuffer_free, bind, ret. rewrite Hfree.
    by erewrite free_Done by (wsimpl; exact Hb'). }
  eexists. split; [exact Hrun|].
  unfold free_twice, bind, ptr in *. rewrite !Hrun. cbn [snd].
  split; [reflexivity|]. split; intros; reflexivity.
Qed.

Lemma sbuffer_free_resets_handle_witness :
  ∃ w1,
    sbuffer_free 3 (Some (Some 1%positive)) (queue_of [reading_1; end_signal])
    = Done (SBUFFER_SUCCESS, NULL) w1
    ∧ free_twice 3 (Some 1%positive) (queue_of [reading_1; end_signal])
      = Done (SBUFFER_FAILURE, NULL) w1.
Proof.
  destruct (sbuffer_free_resets_handle 3 (queue_of [reading_1; end_signal])
              1%positive _ queue_of_two_is_queue) as (w1 & Hone & Htwo & _).
  - cbn. lia.
  - by exists w1.
Defined.

(** ** After the sentinel *)

(** Once a record with id 0 is at the head of the queue no thread is
    handed a record any more, however the calls of the threads interleave
    and whatever is inserted: the sentinel stays at the head, with
    everything that was behind it and what has been linked in since. *)
Theorem no_delivery_after_sentinel b w p l0 d0 cells h s :
  is_queue (mem w) b ((l0, d0) :: cells) → is_sentinel d0 = true →
  (∀ t c, p !! t = Some c → c = Idle) →
  history b {| shared := w; pool := p |} h s →
  dequeued h = []
  ∧ ∃ held cells',
      queue_shape (mem (shared s)) b held cells'
      ∧ cells'.*2 = d0 :: cells.*2 ++ enqueued h.
Proof.
  intros Hq Hs Hidle Hh.
  destruct (history_fifo _ _ _ _ Hh false ((l0, d0) :: cells) ∅) as
    (held & cells' & (Hq' & _) & Heq & Hns).
  - by apply idle_well_formed_with.
  - intros t c l Hc Hl. by rewrite (Hidle _ _ Hc) in Hl.
  - fold (enqueued h) in Heq. cbn [fmap list_fmap snd app] in Heq.
    destruct (dequeued h) as [|d ds].
    + split; [done|]. exists held, cells'. split; [done|]. symmetry. exact Heq.
    + exfalso. injection Heq as <- _.
      apply Forall_cons in Hns as [Hd _]. congruence.
Qed.

Lemma sentinel_then_insert :
  ∃ h s, history 1%positive (two_threads Idle Idle (queue_of [end_signal])) h s
         ∧ enqueued h = [reading_1]
         ∧ pool s !! 0%nat = Some (Remove_ret SBUFFER_NO_DATA reading_2).
Proof.
  eexists _, _. split.
  - eapply history_cons;
      [eapply (step_call_insert _ _ 1%nat reading_1);
       [reflexivity|vm_compute; reflexivity]|].
    eapply history_cons;
      [eapply (step_own _ _ 1%nat); [reflexivity|vm_compute; reflexivity]|].
    eapply history_cons;
      [eapply (step_link _ _ 1%nat);
       [reflexivity|vm_compute; reflexivity|no_waiter]|].
    eapply history_cons; [by eapply (step_call_remove _ _ 0%nat reading_2)|].
    eapply history_cons;
      [eapply (step_own _ _ 0%nat); [reflexivity|vm_compute; reflexivity]|].
    eapply history_cons;
      [eapply (step_own _ _ 0%nat); [reflexivity|vm_compute; reflexivity]|].
    eapply history_cons;
      [eapply (step_own _ _ 0%nat); [reflexivity|vm_compute; reflexivity]|].
    apply history_nil.
  - split; vm_compute; reflexivity.
Qed.

Lemma no_delivery_after_sentinel_witness :
  ∃ h s held cells',
    history 1%positive (two_threads Idle Idle (queue_of [end_signal])) h s
    ∧ dequeued h = []
    ∧ queue_shape (mem (shared s)) 1%positive held cells'
    ∧ cells'.*2 = [end_signal; reading_1].
Proof.
  destruct sentinel_then_insert as (h & s & Hh & Henq & _).
  destruct (no_delivery_after_sentinel 1%positive (queue_of [end_signal])
              {[ 0%nat := Idle; 1%nat := Idle ]} 2%positive end_signal [] h s)
    as (Hdeq & held & cells' & Hq & Hcells).
  - eexists. split; [vm_compute; reflexivity|]. split; [done|].
    split; [|split; [done|apply NoDup_singleton]].
    split; [done|]. eexists. split; [vm_compute; reflexivity|]. done.
  - reflexivity.
  - intros t c [[_ <-]|[_ [_ <-]%lookup_singleton_Some]]%lookup_insert_Some;
      reflexivity.
  - exact Hh.
  - exists h, s, held, cells'. split; [exact Hh|]. split; [exact Hdeq|].
    split; [exact Hq|]. by rewrite Hcells, Henq.
Defined.

(** When the first thing a consumer finds in the queue is a sentinel, as
    it does when the input is empty, whether it ends depends on what its
    uninitialised [retrieved_data] happens to hold: it leaves the loop at
    once if the [id] there is 0, and never if it is not. *)
Theorem consumer_exit_depends_on_garbage fuel : ∀ w b output_csv garbage,
  at_end_of_stream w b output_csv →
  (id garbage = 0 →
   consumer_thread (S fuel)
     {| shared_buf := Some b; sensor_file := output_csv |} garbage w
   = Done tt (with_stdout (stdout w ++ no_data_message) w))
  ∧ (id garbage ≠ 0 →
     ∃ w', consumer_thread fuel
             {| shared_buf := Some b; sensor_file := output_csv |} garbage w
           = OutOfFuel w').
Proof.
  intros w b output_csv garbage Hend. unfold consumer_thread.
  cbn [shared_buf sensor_file]. split.
  - intros Hz. by apply consumer_leaves_on_stale_zero.
  - intros Hnz. revert w Hend.
    induction fuel as [|fuel IH]; intros w Hend; [by exists w|].
    destruct (consumer_iteration_at_end w b output_csv garbage Hend Hnz)
      as (w1 & Hstep & Hend1 & _).
    destruct (IH w1 Hend1) as (w' & Hrun). exists w'. by rewrite Hstep.
Qed.

Lemma consumer_exit_depends_on_garbage_witness :
  consumer_thread 1 consumer_parameters end_signal
    (queue_of [end_signal; end_signal])
  = Done tt (with_stdout no_data_message (queue_of [end_signal; end_signal]))
  ∧ ∃ w', consumer_thread 7 consumer_parameters reading_1
            (queue_of [end_signal; end_signal]) = OutOfFuel w'.
Proof.
  split.
  - apply (proj1 (consumer_exit_depends_on_garbage 0
                    (queue_of [end_signal; end_signal]) 1%positive
                    (Some 1%positive) end_signal end_of_stream_example)).
    reflexivity.
  - apply (proj2 (consumer_exit_depends_on_garbage 7
                    (queue_of [end_signal; end_signal]) 1%positive
                    (Some 1%positive) reading_1 end_of_stream_example)).
    done.
Defined.
